(** * Scene visual resolution and timeline composition

    A shallow embedding of the Go packages [visuals] (asset_manager.go,
    proof_scraper.go, the Pollinations fetcher and the Assembler) and
    [render] (the Renderer), with the two functions of [script] and
    [audio] that lay out the timeline, followed by the properties proved
    about them.

    Conventions of the embedding.
    - Go [float64] values are modelled by exact rationals ([Q], compared
      with [==]).  Binary rounding of the arithmetic is not modelled; the
      decimal rounding done by [fmt.Sprintf] with [%.3f], [%.2f] and
      [%.6f] is, because the transcoding engine only ever sees the
      printed digits.
    - Go [int] is modelled by [Z], strings by [string], slices by [list],
      maps by [gmap].
    - Everything outside the process (HTTP, subprocesses, the file
      system, the random source, the order in which [range] visits a
      map) is an explicit environment of oracles indexed by a logical
      clock, threaded through a small state monad. *)

From Stdlib Require Import QArith Qround Qminmax Lqa Ascii String.
From stdpp Require Import gmap strings list fin_maps pretty sorting.

Open Scope Z_scope.
Open Scope string_scope.
Open Scope list_scope.

(** ** Go standard library functions used by the code

    These functions are not part of the repository.  The model is generic
    in them; [ascii_std] below is an executable instance on ASCII text. *)

Class GoStd := {
  (** [strings.ToLower] *)
  ToLower : string → string;
  (** [strings.Fields] *)
  Fields : string → list string;
  (** [strings.Trim s cutset] *)
  Trim : string → string → string;
  (** [filepath.Join] of two elements *)
  filepath_Join : string → string → string;
  (** [url.PathEscape], [url.QueryEscape] *)
  PathEscape : string → string;
  QueryEscape : string → string;
  (** [json] decoding of the knowledge-base summary: the sources of
      [originalimage] and [thumbnail]; [None] is a decoding error *)
  decodeSummary : string → option (string * string);
  (** [json] decoding of the image search: the [(original, source)] of
      every entry of [images_results] *)
  decodeImagesResults : string → option (list (string * string));
  (** whether [http.NewRequestWithContext] accepts the URL *)
  url_ok : string → bool;
  (** the implementation-dependent [int] that converting an infinity or
      a NaN gives *)
  int_of_nonfinite : Z;
}.

(** An executable instance for ASCII text.  Case folding, splitting and
    trimming follow the Go functions on ASCII input; [filepath_Join]
    joins with a slash and skips an empty element but does not clean the
    path; the escapes are the identity and the two decoders read a toy
    format (one URL per line), enough to run the model on examples. *)
Module GoAscii.

Definition lower_ascii (c : ascii) : ascii :=
  let n := nat_of_ascii c in
  if ((65 <=? n) && (n <=? 90))%nat then ascii_of_nat (n + 32) else c.

Fixpoint lower (s : string) : string :=
  match s with
  | EmptyString => EmptyString
  | String c s' => String (lower_ascii c) (lower s')
  end.

Definition is_space (c : ascii) : bool :=
  let n := nat_of_ascii c in
  ((n =? 32) || ((9 <=? n) && (n <=? 13)))%nat.

(** [cur] is the field being read, reversed. *)
Fixpoint split_on (sep : ascii → bool) (cur : string) (s : string) : list string :=
  match s with
  | EmptyString =>
      match cur with EmptyString => [] | _ => [String.rev cur] end
  | String c s' =>
      if sep c then
        match cur with
        | EmptyString => split_on sep EmptyString s'
        | _ => String.rev cur :: split_on sep EmptyString s'
        end
      else split_on sep (String c cur) s'
  end.

Definition fields (s : string) : list string := split_on is_space EmptyString s.

Fixpoint mem_ascii (c : ascii) (cutset : string) : bool :=
  match cutset with
  | EmptyString => false
  | String d r => if Ascii.eqb c d then true else mem_ascii c r
  end.

Fixpoint trim_left (cutset : string) (s : string) : string :=
  match s with
  | EmptyString => EmptyString
  | String c s' => if mem_ascii c cutset then trim_left cutset s' else s
  end.

Definition trim (s cutset : string) : string :=
  String.rev (trim_left cutset (String.rev (trim_left cutset s))).

Definition join (dir file : string) : string :=
  match dir, file with
  | EmptyString, _ => file
  | _, EmptyString => dir
  | _, _ => dir +:+ "/" +:+ file
  end.

Definition is_newline (c : ascii) : bool := (nat_of_ascii c =? 10)%nat.

Definition lines (s : string) : list string := split_on is_newline EmptyString s.

Definition summary (body : string) : option (string * string) :=
  match lines body with
  | [] => None
  | [a] => Some (a, "")
  | a :: b :: _ => Some (a, b)
  end.

Definition images (body : string) : option (list (string * string)) :=
  Some ((λ u, (u, "")) <$> lines body).

End GoAscii.

Definition ascii_std : GoStd := {|
  ToLower := GoAscii.lower;
  Fields := GoAscii.fields;
  Trim := GoAscii.trim;
  filepath_Join := GoAscii.join;
  PathEscape := id;
  QueryEscape := id;
  decodeSummary := GoAscii.summary;
  decodeImagesResults := GoAscii.images;
  url_ok := λ u, negb (String.eqb u "");
  int_of_nonfinite := -9223372036854775808;
|}.

(** ** Numbers *)

(** Go's [int(f)] on a finite float: truncation toward zero. *)
Definition trunc (q : Q) : Z := Z.quot (Qnum q) (Z.pos (Qden q)).

(** Nearest integer, ties to even: the rounding of [strconv] when a
    float is printed with a fixed number of decimals. *)
Definition round_half_even (q : Q) : Z :=
  let n := Qnum q in
  let d := Z.pos (Qden q) in
  let fl := n / d in
  match (2 * (n mod d)) ?= d with
  | Lt => fl
  | Gt => fl + 1
  | Eq => if Z.even fl then fl else fl + 1
  end.

(** The number that [%.<prec>f] prints, as a rational. *)
Definition printed (prec : nat) (q : Q) : Q :=
  round_half_even (q * inject_Z (10 ^ Z.of_nat prec)) # Z.to_pos (10 ^ Z.of_nat prec).

(** A [float64] that a division may have made non-finite. *)
Inductive float64 :=
| Finite (q : Q)
| Inf (negative : bool)
| NaN.

(** Go's [a / b] on finite operands. *)
Definition fdiv (a b : Q) : float64 :=
  if Qeq_bool b 0 then
    if Qeq_bool a 0 then NaN
    else Inf (if Qlt_le_dec a 0 then true else false)
  else Finite (a / b).

(** Left padding with zeros, for [%03d], [%02d] and the decimals. *)
Fixpoint zeros (n : nat) : string :=
  match n with O => "" | S n' => "0" +:+ zeros n' end.

Definition pad_left (width : nat) (s : string) : string :=
  zeros (width - String.length s) +:+ s.

(** [fmt.Sprintf("%d", n)] *)
Definition Sprintf_d (n : Z) : string := pretty n.

(** [fmt.Sprintf("%0<w>d", n)]: the sign comes first and counts in the
    width. *)
Definition Sprintf_0d (width : nat) (n : Z) : string :=
  if (n <? 0)%Z then "-" +:+ pad_left (width - 1) (pretty (- n))
  else pad_left width (pretty n).

(** [fmt.Sprintf("%.<prec>f", q)] *)
Definition Sprintf_f (prec : nat) (q : Q) : string :=
  let scaled := round_half_even (q * inject_Z (10 ^ Z.of_nat prec)) in
  let m := Z.abs scaled in
  let p := 10 ^ Z.of_nat prec in
  (if Qlt_le_dec q 0 then "-" else "") +:+
  pretty (m / p) +:+
  (match prec with
   | O => ""
   | _ => "." +:+ pad_left prec (pretty (m mod p))
   end).

(** [fmt.Sprintf("%.<prec>f", f)] *)
Definition Sprintf_f64 (prec : nat) (f : float64) : string :=
  match f with
  | Finite q => Sprintf_f prec q
  | Inf false => "+Inf"
  | Inf true => "-Inf"
  | NaN => "NaN"
  end.

(** ** The expression language of the transcoding engine

    The filter graph carries arithmetic expressions in the time [t] of
    the frame.  The constructors below are the ones the code prints; a
    number carries the precision it is printed with, and its value for
    the engine is the printed one. *)

Inductive Expr :=
| ET
| ENum (prec : nat) (q : Q)
| ELit (z : Z)
| EParen (e : Expr)
| EAdd (a b : Expr)
| ESub (a b : Expr)
| EMul (a b : Expr)
| EDiv (a b : Expr)
| ELt (a b : Expr)
| EBetween (x lo hi : Expr)
| EIf (c a b : Expr).

(** The text of an expression, as the format strings lay it out. *)
Fixpoint show (e : Expr) : string :=
  match e with
  | ET => "t"
  | ENum prec q => Sprintf_f prec q
  | ELit z => Sprintf_d z
  | EParen e => "(" +:+ show e +:+ ")"
  | EAdd a b => show a +:+ "+" +:+ show b
  | ESub a b => show a +:+ "-" +:+ show b
  | EMul a b => show a +:+ "*" +:+ show b
  | EDiv a b => show a +:+ "/" +:+ show b
  | ELt a b => "lt(" +:+ show a +:+ "," +:+ show b +:+ ")"
  | EBetween x lo hi =>
      "between(" +:+ show x +:+ "," +:+ show lo +:+ "," +:+ show hi +:+ ")"
  | EIf c a b =>
      "if(" +:+ show c +:+ ", " +:+ show a +:+ ", " +:+ show b +:+ ")"
  end.

Definition of_bool (b : bool) : Q := if b then 1%Q else 0%Q.

(** Modelled from the engine's documentation of its expression
    evaluator: [lt] and [between] give 1 or 0, [between] includes both
    bounds, [if] evaluates its second argument when the first is not
    zero and its third otherwise.  [None] stands for a value that is not
    a finite number (a division by zero). *)
Fixpoint eval (e : Expr) (t : Q) : option Q :=
  match e with
  | ET => Some t
  | ENum prec q => Some (printed prec q)
  | ELit z => Some (inject_Z z)
  | EParen e => eval e t
  | EAdd a b => x ← eval a t; y ← eval b t; Some (x + y)%Q
  | ESub a b => x ← eval a t; y ← eval b t; Some (x - y)%Q
  | EMul a b => x ← eval a t; y ← eval b t; Some (x * y)%Q
  | EDiv a b =>
      x ← eval a t; y ← eval b t;
      if Qeq_bool y 0 then None else Some (x / y)%Q
  | ELt a b => x ← eval a t; y ← eval b t; Some (of_bool (negb (Qle_bool y x)))
  | EBetween x lo hi =>
      v ← eval x t; l ← eval lo t; h ← eval hi t;
      Some (of_bool (Qle_bool l v && Qle_bool v h))
  | EIf c a b =>
      v ← eval c t;
      if Qeq_bool v 0 then eval b t else eval a t
  end.


(** ** package types *)

Module types.

Record Story := {
  ID : string;
  Title : string;
  Body : string;
  Source : string;
  SourceURL : string;
  Score : Z;
  PublishedAt : string;
  ImageURLs : list string;
  Keywords : list string;
}.

Record ScriptScene := {
  Index : Z;
  TimestampStart : Q;
  TimestampEnd : Q;
  Narration : string;
  SceneType : string;   (* cinematic | dramatic | proof *)
  Mood : string;        (* tense | reveal | eerie | action | sad | hook *)
  ImagePrompt : string;
  AssetTags : list string;
  ProofImageURL : string;
  ProofImageLocal : string;
  ProofDurationSec : Q;
  AudioFile : string;
  AudioDurationSec : Q;
  VisualFile : string;
  SFXFile : string;
}.

(** Field assignments through a [*types.ScriptScene]. *)
Definition set_SceneType (v : string) (s : ScriptScene) : ScriptScene :=
  {| Index := Index s; TimestampStart := TimestampStart s;
     TimestampEnd := TimestampEnd s; Narration := Narration s;
     SceneType := v; Mood := Mood s; ImagePrompt := ImagePrompt s;
     AssetTags := AssetTags s; ProofImageURL := ProofImageURL s;
     ProofImageLocal := ProofImageLocal s;
     ProofDurationSec := ProofDurationSec s; AudioFile := AudioFile s;
     AudioDurationSec := AudioDurationSec s; VisualFile := VisualFile s;
     SFXFile := SFXFile s |}.

Definition set_ImagePrompt (v : string) (s : ScriptScene) : ScriptScene :=
  {| Index := Index s; TimestampStart := TimestampStart s;
     TimestampEnd := TimestampEnd s; Narration := Narration s;
     SceneType := SceneType s; Mood := Mood s; ImagePrompt := v;
     AssetTags := AssetTags s; ProofImageURL := ProofImageURL s;
     ProofImageLocal := ProofImageLocal s;
     ProofDurationSec := ProofDurationSec s; AudioFile := AudioFile s;
     AudioDurationSec := AudioDurationSec s; VisualFile := VisualFile s;
     SFXFile := SFXFile s |}.

Definition set_VisualFile (v : string) (s : ScriptScene) : ScriptScene :=
  {| Index := Index s; TimestampStart := TimestampStart s;
     TimestampEnd := TimestampEnd s; Narration := Narration s;
     SceneType := SceneType s; Mood := Mood s; ImagePrompt := ImagePrompt s;
     AssetTags := AssetTags s; ProofImageURL := ProofImageURL s;
     ProofImageLocal := ProofImageLocal s;
     ProofDurationSec := ProofDurationSec s; AudioFile := AudioFile s;
     AudioDurationSec := AudioDurationSec s; VisualFile := v;
     SFXFile := SFXFile s |}.

Definition set_TimestampStart (v : Q) (s : ScriptScene) : ScriptScene :=
  {| Index := Index s; TimestampStart := v;
     TimestampEnd := TimestampEnd s; Narration := Narration s;
     SceneType := SceneType s; Mood := Mood s; ImagePrompt := ImagePrompt s;
     AssetTags := AssetTags s; ProofImageURL := ProofImageURL s;
     ProofImageLocal := ProofImageLocal s;
     ProofDurationSec := ProofDurationSec s; AudioFile := AudioFile s;
     AudioDurationSec := AudioDurationSec s; VisualFile := VisualFile s;
     SFXFile := SFXFile s |}.

Definition set_AudioDurationSec (v : Q) (s : ScriptScene) : ScriptScene :=
  {| Index := Index s; TimestampStart := TimestampStart s;
     TimestampEnd := TimestampEnd s; Narration := Narration s;
     SceneType := SceneType s; Mood := Mood s; ImagePrompt := ImagePrompt s;
     AssetTags := AssetTags s; ProofImageURL := ProofImageURL s;
     ProofImageLocal := ProofImageLocal s;
     ProofDurationSec := ProofDurationSec s; AudioFile := AudioFile s;
     AudioDurationSec := v; VisualFile := VisualFile s;
     SFXFile := SFXFile s |}.

Definition set_TimestampEnd (v : Q) (s : ScriptScene) : ScriptScene :=
  {| Index := Index s; TimestampStart := TimestampStart s;
     TimestampEnd := v; Narration := Narration s;
     SceneType := SceneType s; Mood := Mood s; ImagePrompt := ImagePrompt s;
     AssetTags := AssetTags s; ProofImageURL := ProofImageURL s;
     ProofImageLocal := ProofImageLocal s;
     ProofDurationSec := ProofDurationSec s; AudioFile := AudioFile s;
     AudioDurationSec := AudioDurationSec s; VisualFile := VisualFile s;
     SFXFile := SFXFile s |}.

Definition set_ProofDurationSec (v : Q) (s : ScriptScene) : ScriptScene :=
  {| Index := Index s; TimestampStart := TimestampStart s;
     TimestampEnd := TimestampEnd s; Narration := Narration s;
     SceneType := SceneType s; Mood := Mood s; ImagePrompt := ImagePrompt s;
     AssetTags := AssetTags s; ProofImageURL := ProofImageURL s;
     ProofImageLocal := ProofImageLocal s;
     ProofDurationSec := v; AudioFile := AudioFile s;
     AudioDurationSec := AudioDurationSec s; VisualFile := VisualFile s;
     SFXFile := SFXFile s |}.

(** The script; its title field is named [ScriptTitle] here because
    [Title] is taken by [Story]. *)
Record Script := {
  StoryID : string;
  ScriptTitle : string;
  TotalSec : Q;
  Scenes : list ScriptScene;
}.

Definition set_Scenes (v : list ScriptScene) (s : Script) : Script :=
  {| StoryID := StoryID s; ScriptTitle := ScriptTitle s;
     TotalSec := TotalSec s; Scenes := v |}.

End types.

(** ** package config (the fields the two packages read) *)

Module config.

Record VisualsConfig := {
  FPS : Z;
  ProofAnimationDurationSec : Q;
  ProofHoldSecDefault : Q;
  BackgroundDimDuringProof : Q;
  KenBurnsZoomFactor : Q;
}.

Record PathsConfig := {
  AssetsVideo : string;
  VideoTags : string;
  ClipUsageLog : string;
}.

Record Config := {
  Visuals : VisualsConfig;
  Paths : PathsConfig;
}.

End config.

(** ** The world outside the process *)

(** An HTTP response as the code reads it. *)
Record Response := {
  StatusCode : Z;
  (** what reading the body to its end delivers; [None] is a read error *)
  RespBody : option string;
}.

(** What the process did to the outside, in order. *)
Inductive Event :=
| EvGet (url : string)
| EvExec (name : string) (args : list string)
| EvWrite (path : string)
| EvSleep (seconds : Z).

(** The oracles.  Every external call reads the oracle at the current
    clock value and advances the clock. *)
Record Env := {
  (** [http.Client.Do] followed by reading the body; [None] is a
      transport error *)
  env_http : nat → string → option Response;
  (** whether a subprocess whose inputs exist exits with status 0 *)
  env_exit : nat → bool;
  (** what [ffprobe] and [Sscanf] deliver for a file; [None] is an error *)
  env_probe : nat → string → option Q;
  (** whether [os.WriteFile] succeeds *)
  env_write : nat → bool;
  (** the raw value behind [rand.Intn] *)
  env_rand : nat → nat;
  (** the seed of the order in which [range] visits a map *)
  env_range : nat → nat → nat;
}.

Record World := {
  now : nat;
  files : gset string;
  events : list Event;
}.

(** The state monad over [World]. *)
Definition M (A : Type) : Type := World → A * World.

Global Instance M_ret : MRet M := fun A a w => (a, w).

Global Instance M_bind : MBind M := fun A B k m w =>
  let (a, w') := m w in k a w'.

(** The clock value of this call; the clock advances. *)
Definition next : M nat :=
  fun w => (now w, {| now := S (now w); files := files w;
                       events := events w |}).

Definition emit (ev : Event) : M unit :=
  fun w => (tt, {| now := now w; files := files w;
                    events := events w ++ [ev] |}).

(** The world [n] clock ticks later, nothing else changed. *)
Definition later (n : nat) (w : World) : World :=
  {| now := n + now w; files := files w; events := events w |}.

Definition add_file (path : string) : M unit :=
  fun w => (tt, {| now := now w; files := {[path]} ∪ files w;
                    events := events w |}).

Definition file_exists (path : string) : M bool :=
  fun w => (bool_decide (path ∈ files w), w).

Definition inputs_exist (paths : list string) : M bool :=
  fun w => (bool_decide (Forall (λ f, f ∈ files w) paths), w).

(** Go's [error]: the message of a non-nil error, or a value. *)
Inductive result (A : Type) :=
| Ok (a : A)
| Err (msg : string).
Arguments Ok {A} a.
Arguments Err {A} msg.

Definition is_Ok {A} (r : result A) : bool :=
  match r with Ok _ => true | Err _ => false end.

(** The order in which [range] visits the entries of a map is not
    specified by the language: any order can come out.  The seed
    [code] selects one. *)
Fixpoint shuffle_go {A} (n : nat) (code : nat → nat) (l : list A) : list A :=
  match n with
  | O => []
  | S n' =>
      match l with
      | [] => []
      | x :: _ =>
          let i := (code n' mod length l)%nat in
          nth i l x :: shuffle_go n' code (delete i l)
      end
  end.

Definition shuffle {A} (code : nat → nat) (l : list A) : list A :=
  shuffle_go (length l) code l.

(** Go's zero value for a missing key of a [map[string]bool]. *)
Definition map_get (m : gmap string bool) (k : string) : bool :=
  default false (m !! k).

(** What [os.ReadFile] delivers. *)
Inductive ReadResult :=
| NotExist
| ReadError (msg : string)
| Contents (data : string).

(** What the constructors read of the host when the process starts:
    files and environment variables. *)
Record Host := {
  host_read : string → ReadResult;
  host_getenv : string → string;
}.

(** The [encoding/json] decodings the asset manager asks for. *)
Class GoJson := {
  (** [json.Unmarshal] into a [map[string]json.RawMessage]; [None] is an
      error *)
  decodeRawMap : string → option (gmap string string);
  (** [json.Unmarshal] of one raw message into a [[]string] *)
  decodeStrings : string → option (list string);
  (** what [json.Unmarshal] leaves in a [map[string][]string] when its
      error is dropped *)
  decodeUsageLog : string → gmap string (list string);
}.

(** An executable instance on a toy format: one entry per line, the key
    before the first colon, the tags after it separated by commas; a
    value that starts with [#] is not a list of strings. *)
Module GoAsciiJson.

Fixpoint cut (sep : ascii) (cur : string) (s : string) : option (string * string) :=
  match s with
  | EmptyString => None
  | String c s' =>
      if Ascii.eqb c sep then Some (String.rev cur, s')
      else cut sep (String c cur) s'
  end.

Definition entry (line : string) : option (string * string) :=
  cut ":" EmptyString line.

Definition raw_map (data : string) : option (gmap string string) :=
  Some (list_to_map (omap entry (GoAscii.lines data))).

Definition strings (v : string) : option (list string) :=
  if String.prefix "#" v then None
  else Some (GoAscii.split_on (λ c, Ascii.eqb c ",") EmptyString v).

Definition usage_log (data : string) : gmap string (list string) :=
  list_to_map
    (omap (λ line, '(k, v) ← entry line; tags ← strings v; Some (k, tags))
          (GoAscii.lines data)).

End GoAsciiJson.

Definition ascii_json : GoJson := {|
  decodeRawMap := GoAsciiJson.raw_map;
  decodeStrings := GoAsciiJson.strings;
  decodeUsageLog := GoAsciiJson.usage_log;
|}.

(** ** package visuals: asset_manager.go *)

Module visuals.

Import types config.

Record AssetManager := {
  cfg : Config;
  tags : gmap string (list string);       (* filename → tags *)
  usageLog : gmap string (list string);   (* runID → filenames used *)
  runID : string;
  usedInRun : gmap string bool;
}.

(** The local [struct { file string; score int }]. *)
Record scored := {
  file : string;
  score : Z;
}.

(** The inner loop of [sortScored]:
    [for j := i; j > 0 && s[j].score > s[j-1].score; j-- { swap }]. *)
Fixpoint sortScored_inner (j : nat) (s : list scored) : list scored :=
  match j with
  | O => s
  | S j' =>
      match s !! j, s !! j' with
      | Some a, Some b =>
          if (score a >? score b)%Z
          then sortScored_inner j' (<[j' := a]> (<[j := b]> s))
          else s
      | _, _ => s
      end
  end.

(** [for i := 1; i < len(s); i++ { ... }] *)
Definition sortScored (s : list scored) : list scored :=
  foldl (λ s i, sortScored_inner i s) s (seq 1 (length s - 1)).

Section visuals.

Context {std : GoStd} (env : Env).

(** [rand.Intn(n)] for [n > 0]. *)
Definition Intn (n : nat) : M nat :=
  t ← next; mret (env_rand env t mod n)%nat.

(** [for k, v := range m]: the entries, in the order of this visit. *)
Definition range_map {V} (m : gmap string V) : M (list (string * V)) :=
  t ← next; mret (shuffle (env_range env t) (map_to_list m)).

(** A subprocess: it fails when one of its input files does not exist;
    otherwise the oracle decides, and on success its output file
    exists. *)
Definition run_cmd (name : string) (args inputs : list string)
    (output : string) : M bool :=
  t ← next;
  emit (EvExec name args);;
  present ← inputs_exist inputs;
  if present && env_exit env t
  then add_file output;; mret true
  else mret false.

(** [os.WriteFile]. *)
Definition WriteFile (path : string) : M bool :=
  t ← next;
  emit (EvWrite path);;
  if env_write env t then add_file path;; mret true else mret false.

(** matchScore scores a clip against required tags + mood. *)
Definition matchScore (required clipTags : list string) (mood : string) : Z :=
  let clipTagSet :=
    foldl (λ m t, <[ToLower t := true]> m) (∅ : gmap string bool) clipTags in
  let score :=
    foldl (λ score req,
             if map_get clipTagSet (ToLower req) then score + 10 else score)
          0 required in
  if map_get clipTagSet (ToLower mood) then score + 15 else score.

(** [saveUsageLog]: both errors are dropped. *)
Definition saveUsageLog (am : AssetManager) : M unit :=
  WriteFile (ClipUsageLog (Paths (cfg am)));; mret tt.

(** The first loop of [Pick] over [am.tags]. *)
Definition score_candidates (am : AssetManager) (scene : ScriptScene)
    (entries : list (string * list string)) : list scored :=
  foldl (λ candidates '(f, clipTags),
           if map_get (usedInRun am) f then candidates
           else
             let sc := matchScore (AssetTags scene) clipTags (Mood scene) in
             if (sc >=? 0)%Z
             then candidates ++ [{| file := f; score := sc |}]
             else candidates)
        [] entries.

(** The second loop, run when the first one left no candidate. *)
Definition unused_candidates (am : AssetManager)
    (entries : list (string * list string)) : list scored :=
  foldl (λ candidates '(f, _),
           if negb (map_get (usedInRun am) f)
           then candidates ++ [{| file := f; score := 0 |}]
           else candidates)
        [] entries.

(** Everything of [Pick] up to [pick := candidates[rand.Intn(topN)]]:
    the sorted candidates and the index drawn, or the error returned. *)
Definition Pick_choose (am : AssetManager) (scene : ScriptScene)
    : M (result (list scored * nat)) :=
  if bool_decide (size (tags am) = 0%nat) then
    mret (Err ("no video assets found in " +:+ AssetsVideo (Paths (cfg am))))
  else
    entries ← range_map (tags am);
    let candidates := score_candidates am scene entries in
    candidates ←
      (if bool_decide (length candidates = 0%nat) then
         entries' ← range_map (tags am);
         mret (unused_candidates am entries')
       else mret candidates);
    if bool_decide (length candidates = 0%nat) then
      mret (Err ("all " +:+ Sprintf_d (Z.of_nat (size (tags am)))
                 +:+ " video clips have been used in this video"))
    else
      let candidates := sortScored candidates in
      let topN := if (length candidates <? 3)%nat then length candidates else 3%nat in
      r ← Intn topN;
      mret (Ok (candidates, r)).

(** Pick selects the best matching clip for a scene's asset tags.  The
    branch for an index out of range stands for the run-time panic of
    [candidates[...]]; [Pick_index_in_range] shows it is never taken. *)
Definition Pick (am : AssetManager) (scene : ScriptScene)
    : M (result string * AssetManager) :=
  c ← Pick_choose am scene;
  match c with
  | Err msg => mret (Err msg, am)
  | Ok (candidates, r) =>
      match candidates !! r with
      | None => mret (Err "panic: index out of range", am)
      | Some pick =>
          let am' :=
            {| cfg := cfg am; tags := tags am;
               usageLog :=
                 <[runID am := default [] (usageLog am !! runID am) ++ [file pick]]>
                   (usageLog am);
               runID := runID am;
               usedInRun := <[file pick := true]> (usedInRun am) |} in
          saveUsageLog am';;
          mret (Ok (filepath_Join (AssetsVideo (Paths (cfg am))) (file pick)), am')
      end
  end.

(** *** proof_scraper.go *)

Record ProofScraper := {
  serpAPIKey : string;
}.

(** [http.Client.Do] on a GET request. *)
Definition http_get (url : string) : M (option Response) :=
  t ← next; emit (EvGet url);; mret (env_http env t url).

(** [io.LimitReader(r, n)] read to its end. *)
Fixpoint limit_read (n : Z) (s : string) : string :=
  match s with
  | EmptyString => EmptyString
  | String c s' =>
      if (n <=? 0)%Z then EmptyString else String c (limit_read (n - 1) s')
  end.

Definition downloadFile (fileURL outPath : string) : M (result unit) :=
  if negb (url_ok fileURL) then mret (Err "invalid request") else
  resp ← http_get fileURL;
  match resp with
  | None => mret (Err "transport error")
  | Some resp =>
      if negb (StatusCode resp =? 200)%Z then
        mret (Err ("HTTP " +:+ Sprintf_d (StatusCode resp)))
      else
        match RespBody resp with
        | None => mret (Err "read error")
        | Some body =>
            let data := limit_read (10 * 1024 * 1024) body in   (* max 10MB *)
            if (String.length data <? 1000)%nat then
              mret (Err ("file too small (" +:+
                         Sprintf_d (Z.of_nat (String.length data)) +:+ " bytes)"))
            else
              ok ← WriteFile outPath;
              mret (if ok : bool then Ok tt else Err "write error")
        end
  end.

(** The cutset of [strings.Trim] in [extractSearchQuery]: full stop,
    comma, exclamation mark, question mark and the two quote characters. *)
Definition trim_cutset : string :=
  ".,!?" +:+ String (ascii_of_nat 34) "'".

Definition filler : list string :=
  [ "the"; "a"; "an"; "was"; "were"; "had"; "have"; "has";
    "her"; "his"; "their"; "they"; "she"; "he"; "it"; "this";
    "that"; "and"; "or"; "but"; "for"; "from"; "with"; "into";
    "nobody"; "somebody"; "everyone"; "anyone"; "three"; "two" ].

(** extractSearchQuery pulls key named entities from narration text. *)
Definition extractSearchQuery (text : string) : string :=
  let words := Fields text in
  let fillerSet :=
    foldl (λ m f, <[f := true]> m) (∅ : gmap string bool) filler in
  let kept :=
    foldl (λ (kept : list string) w,
             let clean := ToLower (Trim w trim_cutset) in
             if negb (map_get fillerSet clean) && (3 <? String.length clean)%nat
             then kept ++ [clean] else kept)
          [] words in
  (* Take first 4 meaningful words *)
  let kept := if (4 <? length kept)%nat then take 4 kept else kept in
  String.concat " " kept.

Definition searchWikipedia (narration outputDir : string) (sceneIndex : Z)
    : M (result string) :=
  let query := extractSearchQuery narration in
  if String.eqb query "" then mret (Err "no query extracted") else
  let searchURL :=
    "https://en.wikipedia.org/api/rest_v1/page/summary/" +:+ PathEscape query in
  resp ← http_get searchURL;
  match resp with
  | None => mret (Err "transport error")
  | Some resp =>
      if negb (StatusCode resp =? 200)%Z then
        mret (Err ("wikipedia returned " +:+ Sprintf_d (StatusCode resp)))
      else
        match RespBody resp ≫= decodeSummary with
        | None => mret (Err "decode error")
        | Some (originalimage, thumbnail) =>
            let imgURL := originalimage in
            let imgURL := if String.eqb imgURL "" then thumbnail else imgURL in
            if String.eqb imgURL "" then
              mret (Err "no image in Wikipedia result")
            else
              let outFile :=
                filepath_Join outputDir
                  ("proof_" +:+ Sprintf_0d 3 sceneIndex +:+ "_wiki.jpg") in
              r ← downloadFile imgURL outFile;
              match r with
              | Err msg => mret (Err msg)
              | Ok _ => mret (Ok outFile)
              end
        end
  end.

(** [for _, u := range urls { if downloadFile(u, out) == nil { return out } }]:
    the first URL that downloads wins; [None] when the loop runs out. *)
Fixpoint download_first (urls : list string) (outFile : string)
    : M (option string) :=
  match urls with
  | [] => mret None
  | u :: rest =>
      r ← downloadFile u outFile;
      match r with
      | Ok _ => mret (Some outFile)
      | Err _ => download_first rest outFile
      end
  end.

Definition searchGoogleImages (ps : ProofScraper)
    (narration storyTitle outputDir : string) (sceneIndex : Z)
    : M (result string) :=
  let query := storyTitle +:+ " " +:+ extractSearchQuery narration in
  let serpURL :=
    "https://serpapi.com/search.json?engine=google_images&q=" +:+
    QueryEscape query +:+ "&num=3&api_key=" +:+ serpAPIKey ps in
  resp ← http_get serpURL;
  match resp with
  | None => mret (Err "transport error")
  | Some resp =>
      match RespBody resp ≫= decodeImagesResults with
      | None => mret (Err "decode error")
      | Some ImagesResults =>
          if bool_decide (length ImagesResults = 0%nat) then
            mret (Err ("no Google Images results for scene " +:+
                       Sprintf_d sceneIndex))
          else
            let outFile :=
              filepath_Join outputDir
                ("proof_" +:+ Sprintf_0d 3 sceneIndex +:+ "_google.jpg") in
            r ← download_first (fst <$> ImagesResults) outFile;
            match r with
            | Some f => mret (Ok f)
            | None => mret (Err "all Google Images failed to download")
            end
      end
  end.

(** FetchProofImage downloads a proof image for a scene.  It tries the
    scene's existing URL first, then falls back to scraping. *)
Definition FetchProofImage (ps : ProofScraper) (scene : ScriptScene)
    (story : Story) (outputDir : string) : M (result string) :=
  let outFile :=
    filepath_Join outputDir ("proof_" +:+ Sprintf_0d 3 (Index scene) +:+ ".jpg") in
  (* Try scene's existing proof URL first *)
  r1 ←
    (if negb (String.eqb (ProofImageURL scene) "") then
       r ← downloadFile (ProofImageURL scene) outFile;
       mret (match r with Ok _ => Some outFile | Err _ => None end)
     else mret None);
  match r1 with
  | Some f => mret (Ok f)
  | None =>
      (* Try Wikipedia for images of people/places mentioned *)
      r2 ← searchWikipedia (Narration scene) outputDir (Index scene);
      match r2 with
      | Ok img => mret (Ok img)
      | Err _ =>
          (* Try story's existing image URLs *)
          r3 ← download_first (ImageURLs story) outFile;
          match r3 with
          | Some f => mret (Ok f)
          | None =>
              (* Try SerpAPI Google Images as last resort *)
              r4 ←
                (if negb (String.eqb (serpAPIKey ps) "") then
                   r ← searchGoogleImages ps (Narration scene) (Title story)
                         outputDir (Index scene);
                   mret (match r with Ok img => Some img | Err _ => None end)
                 else mret None);
              match r4 with
              | Some img => mret (Ok img)
              | None =>
                  mret (Err ("no proof image found for scene " +:+
                             Sprintf_d (Index scene)))
              end
          end
      end
  end.

(** *** The Pollinations fetcher *)

(** enhancePrompt adds true crime cinematic style modifiers to the base
    prompt. *)
Definition moodStyles : gmap string string :=
  list_to_map
    [ ("tense", "cinematic noir lighting, dark shadows, dramatic contrast, 4K photorealistic");
      ("reveal", "dramatic spotlight, high contrast, moody atmosphere, cinematic close-up");
      ("eerie", "dark foggy atmosphere, eerie lighting, desaturated colors, photorealistic");
      ("action", "dynamic composition, dramatic lighting, motion blur, cinematic");
      ("sad", "melancholic lighting, soft shadows, muted tones, emotionally heavy");
      ("hook", "extreme dramatic lighting, high contrast black and white, cinematic masterpiece") ].

Definition enhancePrompt (base mood : string) : string :=
  let style :=
    match moodStyles !! mood with
    | Some style => style
    | None => "cinematic, dramatic lighting, photorealistic, 4K, dark atmosphere"
    end in
  let safetyModifiers :=
    "no text, no watermark, no people's faces, environmental scene only" in
  base +:+ ", " +:+ style +:+ ", " +:+ safetyModifiers.

Definition downloadImage (imageURL outFile : string) : M (result unit) :=
  if negb (url_ok imageURL) then mret (Err "invalid request") else
  resp ← http_get imageURL;
  match resp with
  | None => mret (Err "transport error")
  | Some resp =>
      if negb (StatusCode resp =? 200)%Z then
        mret (Err ("HTTP " +:+ Sprintf_d (StatusCode resp) +:+ " from Pollinations"))
      else
        match RespBody resp with
        | None => mret (Err "read error")
        | Some data =>
            if (String.length data <? 100)%nat then
              mret (Err "response too small")
            else
              ok ← WriteFile outFile;
              mret (if ok : bool then Ok tt else Err "write error")
        end
  end.

(** [for attempt := 1; attempt <= 3; attempt++]: [err] is the error of
    the attempt before. *)
Fixpoint fetch_attempts (attempts : list Z) (imageURL outFile err : string)
    : M (result string) :=
  match attempts with
  | [] => mret (Err ("pollinations fetch failed after 3 attempts: " +:+ err))
  | attempt :: rest =>
      r ← downloadImage imageURL outFile;
      match r with
      | Ok _ => mret (Ok outFile)
      | Err e =>
          emit (EvSleep (attempt * 3));;
          fetch_attempts rest imageURL outFile e
      end
  end.

(** Fetch generates an image for a dramatic scene and saves it locally. *)
Definition Fetch (scene : ScriptScene) (outputDir : string) : M (result string) :=
  if String.eqb (ImagePrompt scene) "" then
    mret (Err ("scene " +:+ Sprintf_d (Index scene) +:+ " has no image prompt"))
  else
    let enhancedPrompt := enhancePrompt (ImagePrompt scene) (Mood scene) in
    let encodedPrompt := PathEscape enhancedPrompt in
    let imageURL :=
      "https://image.pollinations.ai/prompt/" +:+ encodedPrompt +:+
      "?width=1920&height=1080&nologo=true&model=flux&seed=" +:+
      Sprintf_d (Index scene * 42 + 7) in
    let outFile :=
      filepath_Join outputDir
        ("dramatic_" +:+ Sprintf_0d 3 (Index scene) +:+ ".jpg") in
    fetch_attempts [1; 2; 3] imageURL outFile "".

(** *** The Assembler *)

Record Assembler := {
  Assembler_cfg : Config;
  assetManager : AssetManager;
  proofScraper : ProofScraper;
}.

Definition set_assetManager (am : AssetManager) (a : Assembler) : Assembler :=
  {| Assembler_cfg := Assembler_cfg a; assetManager := am;
     proofScraper := proofScraper a |}.

(** Go's [int(f)]. *)
Definition float_to_int (f : float64) : Z :=
  match f with
  | Finite q => trunc q
  | _ => int_of_nonfinite
  end.

(** The first lines of both transforms:
    [duration := scene.AudioDurationSec; if duration <= 0 { duration = 5.0 }]. *)
Definition target_duration (scene : ScriptScene) : Q :=
  let duration := AudioDurationSec scene in
  if Qle_bool duration 0 then 5%Q else duration.

Definition getVideoDuration (path : string) : M (option Q) :=
  t ← next;
  emit (EvExec "ffprobe"
          ["-v"; "error"; "-show_entries"; "format=duration";
           "-of"; "default=noprint_wrappers=1:nokey=1"; path]);;
  present ← file_exists path;
  mret (if present : bool then env_probe env t path else None).

Definition scale_pad : string :=
  "scale=1920:1080:force_original_aspect_ratio=decrease,pad=1920:1080:(ow-iw)/2:(oh-ih)/2".

(** [loops := int(duration/clipDur) + 2] *)
Definition loop_count (duration clipDur : Q) : Z :=
  float_to_int (fdiv duration clipDur) + 2.

(** The arguments of the subprocess of [prepareVideoClip]. *)
Definition clip_args (clipPath outFile : string) (duration clipDur : Q)
    : list string :=
  if Qle_bool duration clipDur then
    (* Trim to exact duration *)
    ["-y"; "-i"; clipPath; "-t"; Sprintf_f 3 duration; "-vf"; scale_pad;
     "-c:v"; "libx264"; "-preset"; "fast"; "-crf"; "23"; "-an"; outFile]
  else
    (* Loop the clip to fill the duration *)
    let loops := loop_count duration clipDur in
    ["-y"; "-stream_loop"; Sprintf_d loops; "-i"; clipPath;
     "-t"; Sprintf_f 3 duration; "-vf"; scale_pad;
     "-c:v"; "libx264"; "-preset"; "fast"; "-crf"; "23"; "-an"; outFile].

(** prepareVideoClip trims or loops a video clip to match the scene's
    narration duration. *)
Definition prepareVideoClip (clipPath : string) (scene : ScriptScene)
    (outputDir : string) : M (result string) :=
  let outFile :=
    filepath_Join outputDir ("clip_" +:+ Sprintf_0d 3 (Index scene) +:+ ".mp4") in
  let duration := target_duration scene in
  probed ← getVideoDuration clipPath;
  let clipDur :=
    match probed with
    | Some d => d
    | None => duration   (* assume same length if we can't measure *)
    end in
  ok ← run_cmd "ffmpeg" (clip_args clipPath outFile duration clipDur)
         [clipPath] outFile;
  mret (if ok : bool then Ok outFile else Err "ffmpeg clip prep").

(** [totalFrames := int(duration * float64(fps))] *)
Definition totalFrames (cfg : Config) (duration : Q) : Z :=
  trunc (duration * inject_Z (FPS (Visuals cfg))).

(** [zoomStep := (zoom - 1.0) / float64(totalFrames)] *)
Definition zoomStep (cfg : Config) (duration : Q) : float64 :=
  fdiv (KenBurnsZoomFactor (Visuals cfg) - 1) (inject_Z (totalFrames cfg duration)).

Definition zoomFilter (cfg : Config) (duration : Q) : string :=
  "scale=3840:2160,zoompan=z='min(zoom+" +:+
  Sprintf_f64 6 (zoomStep cfg duration) +:+ "," +:+
  Sprintf_f 3 (KenBurnsZoomFactor (Visuals cfg)) +:+
  ")':x='iw/2-(iw/zoom/2)':y='ih/2-(ih/zoom/2)':d=" +:+
  Sprintf_d (totalFrames cfg duration) +:+ ":fps=" +:+
  Sprintf_d (FPS (Visuals cfg)) +:+ ",scale=1920:1080".

(** The arguments of the subprocess of [prepareImageWithKenBurns]. *)
Definition kenburns_args (cfg : Config) (imgPath outFile : string)
    (duration : Q) : list string :=
  ["-y"; "-loop"; "1"; "-i"; imgPath; "-vf"; zoomFilter cfg duration;
   "-t"; Sprintf_f 3 duration; "-c:v"; "libx264"; "-preset"; "fast";
   "-crf"; "23"; "-pix_fmt"; "yuv420p"; "-an"; outFile].

(** prepareImageWithKenBurns applies slow Ken Burns zoom to a still
    image. *)
Definition prepareImageWithKenBurns (a : Assembler) (imgPath : string)
    (scene : ScriptScene) (outputDir : string) : M (result string) :=
  let outFile :=
    filepath_Join outputDir
      ("kenburns_" +:+ Sprintf_0d 3 (Index scene) +:+ ".mp4") in
  let duration := target_duration scene in
  ok ← run_cmd "ffmpeg" (kenburns_args (Assembler_cfg a) imgPath outFile duration)
         [imgPath] outFile;
  mret (if ok : bool then Ok outFile else Err "ffmpeg ken burns").


(** [strings.ReplaceAll] of one character by a backslash and itself. *)
Fixpoint escape_char (c : ascii) (s : string) : string :=
  match s with
  | EmptyString => EmptyString
  | String d s' =>
      if Ascii.eqb c d then String "\" (String d (escape_char c s'))
      else String d (escape_char c s')
  end.

Definition escapeFFmpegText (s : string) : string :=
  let s := escape_char "'" s in
  let s := escape_char ":" s in
  s.

(** addSourceCredit burns a source credit overlay onto the proof image. *)
Definition addSourceCredit (imgPath : string) (scene : ScriptScene)
    (story : Story) (outputDir : string) : M (result string) :=
  let outFile :=
    filepath_Join outputDir
      ("proof_credited_" +:+ Sprintf_0d 3 (Index scene) +:+ ".jpg") in
  let credit := "Source: " +:+ Source story in
  let credit :=
    if negb (String.eqb (PublishedAt story) "")
       && (4 <=? String.length (PublishedAt story))%nat
    then credit +:+ ", " +:+ substring 0 4 (PublishedAt story)
    else credit in
  let drawtextFilter :=
    "scale=960:640,drawtext=text='" +:+ escapeFFmpegText credit +:+
    "':fontcolor=white:fontsize=18:box=1:boxcolor=black@0.6:boxborderw=5:x=w-tw-10:y=h-th-10" in
  ok ← run_cmd "ffmpeg"
         ["-y"; "-i"; imgPath; "-vf"; drawtextFilter; "-q:v"; "2"; outFile]
         [imgPath] outFile;
  mret (if ok : bool then Ok outFile else Err "ffmpeg source credit").

(** createFallbackFrame creates a solid dark frame when no visual is
    available.  The result of the subprocess is dropped. *)
Definition createFallbackFrame (outputDir : string) (sceneIndex : Z) : M string :=
  let outFile :=
    filepath_Join outputDir ("fallback_" +:+ Sprintf_0d 3 sceneIndex +:+ ".jpg") in
  run_cmd "ffmpeg"
    ["-y"; "-f"; "lavfi"; "-i"; "color=c=black:s=1920x1080:d=1";
     "-frames:v"; "1"; outFile]
    [] outFile;;
  mret outFile.

(** The body of the loop of [Run] for the scene at position [i]: the
    error returned from [Run], if any, the scene as it is left, and the
    Assembler with the asset manager as it is left. *)
Definition resolve_scene (a : Assembler) (i : Z) (scene : ScriptScene)
    (story : Story) (visualDir : string)
    : M (result unit * ScriptScene * Assembler) :=
  if String.eqb (SceneType scene) "cinematic" then
    '(r, am) ← Pick (assetManager a) scene;
    let a := set_assetManager am a in
    match r with
    | Err _ =>
        (* Fall through to dramatic *)
        let scene := set_SceneType "dramatic" scene in
        let scene :=
          if String.eqb (ImagePrompt scene) "" then
            set_ImagePrompt
              ("dark crime scene " +:+ Mood scene +:+ " atmosphere cinematic")
              scene
          else scene in
        f ← Fetch scene visualDir;
        match f with
        | Err e =>
            mret (Err ("scene " +:+ Sprintf_d i +:+
                       " visual fallback failed: " +:+ e), scene, a)
        | Ok img =>
            p ← prepareImageWithKenBurns a img scene visualDir;
            match p with
            | Err e => mret (Err e, scene, a)
            | Ok prepared => mret (Ok tt, set_VisualFile prepared scene, a)
            end
        end
    | Ok clip =>
        p ← prepareVideoClip clip scene visualDir;
        match p with
        | Err e =>
            mret (Err ("scene " +:+ Sprintf_d i +:+ " clip prep failed: " +:+ e),
                  scene, a)
        | Ok prepared => mret (Ok tt, set_VisualFile prepared scene, a)
        end
    end
  else if String.eqb (SceneType scene) "dramatic" then
    f ← Fetch scene visualDir;
    img ←
      match f with
      | Err _ =>
          (* Use a black frame as absolute fallback *)
          createFallbackFrame visualDir i
      | Ok img => mret img
      end;
    p ← prepareImageWithKenBurns a img scene visualDir;
    match p with
    | Err e => mret (Err e, scene, a)
    | Ok prepared => mret (Ok tt, set_VisualFile prepared scene, a)
    end
  else if String.eqb (SceneType scene) "proof" then
    f ← FetchProofImage (proofScraper a) scene story visualDir;
    match f with
    | Err _ =>
        (* Fall back to dramatic for this scene *)
        let scene := set_SceneType "dramatic" scene in
        let scene :=
          if String.eqb (ImagePrompt scene) "" then
            set_ImagePrompt
              "evidence document crime scene investigation cinematic" scene
          else scene in
        f2 ← Fetch scene visualDir;
        img2 ←
          match f2 with
          | Err _ => createFallbackFrame visualDir i
          | Ok img2 => mret img2
          end;
        p ← prepareImageWithKenBurns a img2 scene visualDir;
        match p with
        | Err e => mret (Err e, scene, a)
        | Ok prepared => mret (Ok tt, set_VisualFile prepared scene, a)
        end
    | Ok img =>
        (* Proof scene: add source credit overlay *)
        c ← addSourceCredit img scene story visualDir;
        let credited :=
          match c with
          | Err _ => img   (* use without credit if it fails *)
          | Ok credited => credited
          end in
        mret (Ok tt, set_VisualFile credited scene, a)
    end
  else mret (Ok tt, scene, a).

(** [for i := range script.Scenes], from position [i] on; an error
    leaves the loop and the scenes after it untouched. *)
Fixpoint Run_scenes (a : Assembler) (i : Z) (scenes : list ScriptScene)
    (story : Story) (visualDir : string)
    : M (result unit * list ScriptScene * Assembler) :=
  match scenes with
  | [] => mret (Ok tt, [], a)
  | scene :: rest =>
      '(r, scene', a') ← resolve_scene a i scene story visualDir;
      match r with
      | Err e => mret (Err e, scene' :: rest, a')
      | Ok _ =>
          '(r', rest', a'') ← Run_scenes a' (i + 1) rest story visualDir;
          mret (r', scene' :: rest', a'')
      end
  end.

(** [os.MkdirAll]. *)
Definition MkdirAll (path : string) : M bool :=
  t ← next; mret (env_write env t).

(** Run prepares all visual files for every scene.  The script is
    changed in place: the second component is the script as the caller
    finds it afterwards. *)
Definition Run (a : Assembler) (script : Script) (story : Story)
    (outputDir : string) : M (result unit * Script * Assembler) :=
  let visualDir := filepath_Join outputDir "visuals" in
  ok ← MkdirAll visualDir;
  if ok : bool then
    '(r, scenes, a') ← Run_scenes a 0 (Scenes script) story visualDir;
    mret (r, set_Scenes scenes script, a')
  else mret (Err "mkdir", script, a).

End visuals.

(** *** The constructors *)

Section loading.

Context {std : GoStd} {json : GoJson} (env : Env) (host : Host).

(** The loop of [loadTagsJSON] over the decoded object:
    keys that start with an underscore are skipped, and so are values
    that are not lists of strings. *)
Definition load_entries (entries : list (string * string))
    : gmap string (list string) :=
  foldl (λ result '(k, v),
           if String.prefix "_" k then result
           else
             match decodeStrings v with
             | None => result
             | Some tags => <[k := tags]> result
             end)
        ∅ entries.

Definition loadTagsJSON (path : string)
    : M (result (gmap string (list string))) :=
  match host_read host path with
  | NotExist =>
      (* Return empty map — user hasn't added clips yet *)
      mret (Ok ∅)
  | ReadError msg => mret (Err msg)
  | Contents data =>
      match decodeRawMap data with
      | None => mret (Err "json error")
      | Some raw =>
          entries ← range_map env raw;
          mret (Ok (load_entries entries))
      end
  end.

Definition loadUsageLog (path : string) : gmap string (list string) :=
  match host_read host path with
  | Contents data => decodeUsageLog data
  | _ => ∅
  end.

(** NewAssetManager loads tags and usage log. *)
Definition NewAssetManager (cfg : Config) (runID : string)
    : M (result AssetManager) :=
  r ← loadTagsJSON (VideoTags (Paths cfg));
  match r with
  | Err e => mret (Err ("load video tags: " +:+ e))
  | Ok tags =>
      let usageLog := loadUsageLog (ClipUsageLog (Paths cfg)) in
      mret (Ok {| cfg := cfg; tags := tags; usageLog := usageLog;
                  runID := runID; usedInRun := ∅ |})
  end.

Definition NewProofScraper : ProofScraper :=
  {| serpAPIKey := host_getenv host "SERPAPI_KEY" |}.

(** NewAssembler creates a new visual Assembler. *)
Definition NewAssembler (cfg : Config) (runID : string) : M (result Assembler) :=
  r ← NewAssetManager cfg runID;
  match r with
  | Err e => mret (Err e)
  | Ok am =>
      mret (Ok {| Assembler_cfg := cfg; assetManager := am;
                  proofScraper := NewProofScraper |})
  end.

End loading.

End visuals.

(** ** package render: the proof overlays of the Renderer *)

Module render.

Import types config.

Record Renderer := {
  cfg : Config;
}.

(** Proof image dimensions: 960x640 (3:2) centered on 1920x1080. *)
Definition proofW : Z := 960.
Definition proofH : Z := 640.
Definition centerX : Z := (1920 - proofW) / 2.
Definition centerY : Z := (1080 - proofH) / 2.

Section render.

Context {std : GoStd} (env : Env).

(** [holdDuration := scene.ProofDurationSec;
     if holdDuration <= 0 { holdDuration = r.cfg.Visuals.ProofHoldSecDefault }] *)
Definition holdDuration (r : Renderer) (scene : ScriptScene) : Q :=
  let holdDuration := ProofDurationSec scene in
  if Qle_bool holdDuration 0 then ProofHoldSecDefault (Visuals (cfg r))
  else holdDuration.

Definition animDur (r : Renderer) : Q :=
  ProofAnimationDurationSec (Visuals (cfg r)).

(** [endTime := startTime + holdDuration + animDur*2] *)
Definition endTime (r : Renderer) (scene : ScriptScene) : Q :=
  (TimestampStart scene + holdDuration r scene + animDur r * 2)%Q.

Definition slideInExpr (startTime animDur : Q) : Expr :=
  EIf (ELt (ESub ET (ENum 3 startTime)) (ENum 3 animDur))
     (EAdd (ELit 1920)
          (EMul (EParen (ESub (ENum 0 (inject_Z centerX)) (ELit 1920)))
               (EParen (EDiv (EParen (ESub ET (ENum 3 startTime))) (ENum 3 animDur)))))
     (ENum 0 (inject_Z centerX)).

(** [slideOutStart := startTime + animDur + holdDuration] *)
Definition slideOutStart (r : Renderer) (scene : ScriptScene) : Q :=
  (TimestampStart scene + animDur r + holdDuration r scene)%Q.

Definition xExpr (r : Renderer) (scene : ScriptScene) : Expr :=
  let startTime := TimestampStart scene in
  EIf (ELt ET (ENum 3 (startTime + animDur r)))
     (slideInExpr startTime (animDur r))
     (EIf (ELt ET (ENum 3 (slideOutStart r scene + animDur r)))
         (EAdd (ENum 0 (inject_Z centerX))
              (EMul (EParen (ESub (ELit 1920) (ENum 0 (inject_Z centerX))))
                   (EParen (EDiv (EParen (ESub ET (ENum 3 (slideOutStart r scene))))
                               (ENum 3 (animDur r))))))
         (ELit 1920)).

(** Dim background when proof is visible. *)
Definition brightnessExpr (r : Renderer) (scene : ScriptScene) : Expr :=
  EIf (EBetween ET (ENum 3 (TimestampStart scene)) (ENum 3 (endTime r scene)))
     (ENum 2 (BackgroundDimDuringProof (Visuals (cfg r))))
     (ENum 1 1).

(** The [enable] option of the overlay. *)
Definition enableExpr (r : Renderer) (scene : ScriptScene) : Expr :=
  EBetween ET (ENum 3 (TimestampStart scene)) (ENum 3 (endTime r scene)).

Definition proofFilter (r : Renderer) (scene : ScriptScene) : string :=
  "[1:v]scale=" +:+ Sprintf_d (proofW - 10) +:+ ":" +:+ Sprintf_d (proofH - 10) +:+
  ",pad=" +:+ Sprintf_d proofW +:+ ":" +:+ Sprintf_d proofH +:+
  ":5:5:black[proof_bordered];" +:+
  "[0:v]eq=brightness='" +:+ show (brightnessExpr r scene) +:+ "'[bg_dimmed];" +:+
  "[bg_dimmed][proof_bordered]overlay=x='" +:+ show (xExpr r scene) +:+
  "':y=" +:+ Sprintf_d centerY +:+
  ":enable='" +:+ show (enableExpr r scene) +:+ "'[out]".

(** applyOneProofOverlay adds a single proof image slide-in/slide-out
    animation. *)
Definition applyOneProofOverlay (r : Renderer) (videoFile : string)
    (scene : ScriptScene) (outputDir : string) (idx : Z) : M (result string) :=
  let outFile :=
    filepath_Join outputDir ("proof_overlay_" +:+ Sprintf_0d 2 idx +:+ ".mp4") in
  let scaledProof :=
    filepath_Join outputDir ("proof_scaled_" +:+ Sprintf_0d 2 idx +:+ ".jpg") in
  ok ← visuals.run_cmd env "ffmpeg"
         ["-y"; "-i"; VisualFile scene; "-vf";
          "scale=" +:+ Sprintf_d proofW +:+ ":" +:+ Sprintf_d proofH +:+
          ":force_original_aspect_ratio=decrease,pad=" +:+
          Sprintf_d proofW +:+ ":" +:+ Sprintf_d proofH +:+
          ":(ow-iw)/2:(oh-ih)/2:black";
          scaledProof]
         [VisualFile scene] scaledProof;
  if ok : bool then
    ok' ← visuals.run_cmd env "ffmpeg"
            ["-y"; "-i"; videoFile; "-i"; scaledProof;
             "-filter_complex"; proofFilter r scene; "-map"; "[out]";
             "-c:v"; "libx264"; "-preset"; "fast"; "-crf"; "22";
             "-pix_fmt"; "yuv420p"; "-an"; outFile]
            [videoFile; scaledProof] outFile;
    mret (if ok' : bool then Ok outFile else Err "ffmpeg proof overlay")
  else mret (Err "scale proof image").

(** Collect all proof scenes. *)
Definition proofScenes (script : Script) : list ScriptScene :=
  foldl (λ proofScenes scene,
           if String.eqb (SceneType scene) "proof"
              && negb (String.eqb (VisualFile scene) "")
           then proofScenes ++ [scene] else proofScenes)
        [] (Scenes script).

(** [for i, scene := range proofScenes]: a failed overlay is skipped and
    the video of the overlays before it is kept.  The scenes the loop
    has handed to [applyOneProofOverlay] are collected in [seen]. *)
Fixpoint overlay_loop (r : Renderer) (i : Z) (scenes : list ScriptScene)
    (currentVideo outputDir : string) (seen : list ScriptScene)
    : M (string * list ScriptScene) :=
  match scenes with
  | [] => mret (currentVideo, seen)
  | scene :: rest =>
      o ← applyOneProofOverlay r currentVideo scene outputDir i;
      match o with
      | Err _ => overlay_loop r (i + 1) rest currentVideo outputDir (seen ++ [scene])
      | Ok overlaid => overlay_loop r (i + 1) rest overlaid outputDir (seen ++ [scene])
      end
  end.

(** applyProofOverlays adds slide-in proof image animations over the
    main video.  Its error is always nil; the second component lists the
    scenes that were given the overlay treatment, in order. *)
Definition applyProofOverlays (r : Renderer) (script : Script)
    (videoFile outputDir : string) : M (string * list ScriptScene) :=
  let proofScenes := proofScenes script in
  if bool_decide (length proofScenes = 0%nat) then
    mret (videoFile, [])
  else
    overlay_loop r 0 proofScenes videoFile outputDir [].

(** The [lines] of [concatenateVisuals]: one for every scene with a
    visual file, in the order of the scenes. *)
Definition concat_lines (script : Script) : list string :=
  foldl (λ lines scene,
           if negb (String.eqb (VisualFile scene) "")
           then lines ++ ["file '" +:+ VisualFile scene +:+ "'"]
           else lines)
        [] (Scenes script).

(** concatenateVisuals joins all scene visual files in order.  The list
    file holds [strings.Join(lines, "\n")]. *)
Definition concatenateVisuals (r : Renderer) (script : Script)
    (outputDir : string) : M (result string) :=
  let listFile := filepath_Join outputDir "visuals_concat.txt" in
  let lines := concat_lines script in
  if bool_decide (length lines = 0%nat) then
    mret (Err "no visual files found in script scenes")
  else
    ok ← visuals.WriteFile env listFile;
    if ok : bool then
      let outFile := filepath_Join outputDir "visuals_raw.mp4" in
      ok' ← visuals.run_cmd env "ffmpeg"
              ["-y"; "-f"; "concat"; "-safe"; "0"; "-i"; listFile;
               "-c:v"; "libx264"; "-preset"; "fast"; "-crf"; "22";
               "-vf"; "scale=1920:1080:force_original_aspect_ratio=decrease,pad=1920:1080:(ow-iw)/2:(oh-ih)/2,setsar=1";
               "-r"; Sprintf_d (FPS (Visuals (cfg r)));
               "-pix_fmt"; "yuv420p"; "-an"; outFile]
              [listFile] outFile;
      mret (if ok' : bool then Ok outFile else Err "ffmpeg concat visuals")
    else mret (Err "write error").

(** The first loop of [mixAudio]: [sfxInputs], [sfxFilters] and
    [inputIdx] (0 is narration). *)
Definition sfx_loop (script : Script) : list string * list string * Z :=
  foldl (λ '(sfxInputs, sfxFilters, inputIdx) scene,
           if String.eqb (SFXFile scene) "" then
             (sfxInputs, sfxFilters, inputIdx)
           else
             (* Delay SFX to scene start time *)
             let delayMs := trunc (TimestampStart scene * 1000) in
             (sfxInputs ++ ["-i"; SFXFile scene],
              sfxFilters ++
                ["[" +:+ Sprintf_d inputIdx +:+ ":a]adelay=" +:+
                 Sprintf_d delayMs +:+ "|" +:+ Sprintf_d delayMs +:+
                 "[sfx" +:+ Sprintf_d inputIdx +:+ "]"],
              inputIdx + 1))
        ([], [], 1) (Scenes script).

(** [mixInputs]: the narration, then [for i := range sfxFilters]. *)
Definition mix_inputs (sfxFilters : list string) : list string :=
  foldl (λ mixInputs i,
           mixInputs ++ ["[sfx" +:+ Sprintf_d (Z.of_nat i + 1) +:+ "]"])
        ["[0:a]"] (seq 0 (length sfxFilters)).

Definition mix_filter (sfxFilters : list string) : string :=
  let mixInputs := mix_inputs sfxFilters in
  String.concat ";" sfxFilters +:+ ";" +:+ String.concat "" mixInputs +:+
  "amix=inputs=" +:+ Sprintf_d (Z.of_nat (length mixInputs)) +:+
  ":duration=first:normalize=0[aout]".

(** The files that a list of options with one value each names with
    [-i]. *)
Fixpoint dash_i (args : list string) : list string :=
  match args with
  | flag :: f :: rest =>
      if String.eqb flag "-i" then f :: dash_i rest else dash_i rest
  | _ => []
  end.

(** mixAudio merges narration audio with SFX tracks.  The result is
    Go's pair: the path and the error, if any. *)
Definition mixAudio (r : Renderer) (script : Script)
    (narrationFile outputDir : string) : M (string * option string) :=
  let '(sfxInputs, sfxFilters, _) := sfx_loop script in
  let outFile := filepath_Join outputDir "audio_mixed.mp3" in
  if bool_decide (length sfxInputs = 0%nat) then
    (* No SFX — just copy narration *)
    ok ← visuals.run_cmd env "ffmpeg"
           ["-y"; "-i"; narrationFile; "-c:a"; "copy"; outFile]
           [narrationFile] outFile;
    mret (outFile, if ok : bool then None else Some "exit status")
  else
    let args :=
      ["-y"; "-i"; narrationFile] ++ sfxInputs ++
      ["-filter_complex"; mix_filter sfxFilters; "-map"; "[aout]";
       "-c:a"; "libmp3lame"; "-q:a"; "2"; outFile] in
    ok ← visuals.run_cmd env "ffmpeg" args (narrationFile :: dash_i sfxInputs)
           outFile;
    mret (if ok : bool then (outFile, None) else ("", Some "ffmpeg audio mix")).

(** combineVideoAudio merges the final video and audio into one MP4. *)
Definition combineVideoAudio (r : Renderer) (videoFile audioFile outputDir : string)
    : M (result string) :=
  let outFile := filepath_Join outputDir "final_video.mp4" in
  ok ← visuals.run_cmd env "ffmpeg"
         ["-y"; "-i"; videoFile; "-i"; audioFile; "-c:v"; "copy";
          "-c:a"; "aac"; "-b:a"; "192k"; "-shortest";
          "-movflags"; "+faststart"; outFile]
         [videoFile; audioFile] outFile;
  mret (if ok : bool then Ok outFile else Err "ffmpeg combine").

(** The Renderer's [Run] builds the final video: visuals + audio +
    proof animations + SFX.  The error of [applyProofOverlays] is always
    nil, so its warning branch is never taken. *)
Definition Renderer_Run (r : Renderer) (script : Script)
    (audioFile outputDir : string) : M (result string) :=
  (* Step 1: Concatenate all scene visuals into one video (no audio) *)
  c ← concatenateVisuals r script outputDir;
  match c with
  | Err e => mret (Err ("concatenate visuals: " +:+ e))
  | Ok silentVideo =>
      (* Step 2: Overlay proof images as slide-in animations *)
      o ← applyProofOverlays r script silentVideo outputDir;
      let proofVideo := o.1 in
      (* Step 3: Mix narration audio + SFX *)
      '(mixed, err) ← mixAudio r script audioFile outputDir;
      let mixedAudio :=
        match err with
        | Some _ => audioFile   (* using narration only *)
        | None => mixed
        end in
      (* Step 4: Combine video + audio into final MP4 *)
      f ← combineVideoAudio r proofVideo mixedAudio outputDir;
      match f with
      | Err e => mret (Err ("combine video+audio: " +:+ e))
      | Ok finalVideo => mret (Ok finalVideo)
      end
  end.

End render.

End render.

(** ** package script: the timeline of a fresh script *)

Module script.

(** The raw JSON structure returned by the language model. *)
Record sceneJSON := {
  Narration : string;
  SceneType : string;
  Mood : string;
  ImagePrompt : string;
  AssetTags : list string;
  ProofImageURL : string;
  ProofDurationSec : Q;
}.

Record scriptJSON := {
  Title : string;
  Scenes : list sceneJSON;
}.

Section script.

Context {std : GoStd}.

(** The body of the loop of [convertToScript] for the raw scene [s] at
    position [i], with [elapsed] seconds before it: the scene, and the
    seconds elapsed after it. *)
Definition convert_scene (i : Z) (elapsed : Q) (s : sceneJSON)
    : types.ScriptScene * Q :=
  (* Estimate timing: ~130 words per minute *)
  let wordCount := length (Fields (Narration s)) in
  let duration := (inject_Z (Z.of_nat wordCount) / 130 * 60)%Q in
  let scene :=
    {| types.Index := i;
       types.TimestampStart := elapsed;
       types.TimestampEnd := (elapsed + duration)%Q;
       types.Narration := Narration s;
       types.SceneType := SceneType s;
       types.Mood := Mood s;
       types.ImagePrompt := ImagePrompt s;
       types.AssetTags := AssetTags s;
       types.ProofImageURL := ProofImageURL s;
       types.ProofImageLocal := "";
       types.ProofDurationSec := ProofDurationSec s;
       types.AudioFile := "";
       types.AudioDurationSec := duration;
       types.VisualFile := "";
       types.SFXFile := "" |} in
  (* Default proof duration *)
  let scene :=
    if String.eqb (types.SceneType scene) "proof"
       && Qeq_bool (types.ProofDurationSec scene) 0
    then types.set_ProofDurationSec 4 scene
    else scene in
  (scene, (elapsed + duration)%Q).

Definition convertToScript (storyID : string) (raw : scriptJSON) : types.Script :=
  let '(scenes, elapsed, _) :=
    foldl (λ '(scenes, elapsed, i) s,
             let '(scene, elapsed') := convert_scene i elapsed s in
             (scenes ++ [scene], elapsed', i + 1))
          ([], 0%Q, 0) (Scenes raw) in
  {| types.StoryID := storyID; types.ScriptTitle := Title raw;
     types.TotalSec := elapsed; types.Scenes := scenes |}.

End script.

End script.

(** ** package audio: the timeline after the narration is recorded *)

Module audio.

Import types.

(** recalcTimestamps updates scene timestamps based on real measured
    audio durations. *)
Definition recalcTimestamps (script : Script) : Script :=
  let '(scenes, elapsed) :=
    foldl (λ '(scenes, elapsed) scene,
             let scene := set_TimestampStart elapsed scene in
             let elapsed := (elapsed + AudioDurationSec scene)%Q in
             (scenes ++ [set_TimestampEnd elapsed scene], elapsed))
          ([], 0%Q) (Scenes script) in
  {| StoryID := StoryID script; ScriptTitle := ScriptTitle script;
     TotalSec := elapsed; Scenes := scenes |}.

End audio.

(** ** Specification-side definitions for the clip library *)

Module ClipSpec.

Import types config visuals.

(** Descending by score. *)
Definition desc (a b : scored) : Prop := (score b ≤ score a)%Z.

Section ClipSpec.

Context {std : GoStd}.

(** A tag is present in a clip's tag set, up to case. *)
Definition has_tag (clipTags : list string) (t : string) : Prop :=
  ToLower t ∈ ToLower <$> clipTags.

Global Instance has_tag_dec clipTags t : Decision (has_tag clipTags t).
Proof. unfold has_tag. apply _. Defined.

(** The score as the specification words it. *)
Definition spec_score (required clipTags : list string) (mood : string) : Z :=
  10 * Z.of_nat (length (filter (has_tag clipTags) required))
  + (if decide (has_tag clipTags mood) then 15 else 0).

(** A clip not yet marked used in this run. *)
Definition unused (am : AssetManager) (e : string * list string) : Prop :=
  map_get (usedInRun am) e.1 = false.

Global Instance unused_dec am e : Decision (unused am e).
Proof. unfold unused. apply _. Defined.

Definition scored_entry (scene : ScriptScene) (e : string * list string) : scored :=
  {| file := e.1; score := spec_score (AssetTags scene) e.2 (Mood scene) |}.

(** The candidates of a visit of the map in the order [entries]. *)
Definition candidates_of (am : AssetManager) (scene : ScriptScene)
    (entries : list (string * list string)) : list scored :=
  scored_entry scene <$> filter (unused am) entries.

(** The asset manager after [file] was picked. *)
Definition marked (am : AssetManager) (f : string) : AssetManager :=
  {| cfg := cfg am; tags := tags am;
     usageLog :=
       <[runID am := default [] (usageLog am !! runID am) ++ [f]]> (usageLog am);
     runID := runID am;
     usedInRun := <[f := true]> (usedInRun am) |}.

(** The paths of the successful results. *)
Definition oks {A} (rs : list (result A)) : list A :=
  omap (λ r, match r with Ok a => Some a | Err _ => None end) rs.

End ClipSpec.

Section ClipRun.

Context {std : GoStd} (env : Env).

(** A sequence of selections on one asset manager, that is within one
    run identifier.  Whatever else the process does between two
    selections is covered by letting every selection start in a world
    of its own. *)
Fixpoint pick_seq (am : AssetManager) (steps : list (ScriptScene * World))
    : list (result string) * AssetManager :=
  match steps with
  | [] => ([], am)
  | (scene, w) :: rest =>
      let '(r, am', _) := Pick env am scene w in
      let '(rs, am'') := pick_seq am' rest in
      (r :: rs, am'')
  end.

End ClipRun.

End ClipSpec.

(** ** Specification-side definitions for the evidence image source *)

Module EvidenceSpec.

Import types config visuals.

Section EvidenceSpec.

Context {std : GoStd} (env : Env).

(** An ordered fallback chain: the steps are tried in order, each one
    only if all the steps before it failed, and the first success is
    the result. *)
Fixpoint first_ok (steps : list (M (option string))) : M (option string) :=
  match steps with
  | [] => mret None
  | s :: rest =>
      r ← s;
      match r with
      | Some f => mret (Some f)
      | None => first_ok rest
      end
  end.

Definition as_option (m : M (result string)) : M (option string) :=
  r ← m; mret (match r with Ok f => Some f | Err _ => None end).

(** One download attempt as a step. *)
Definition try_download (url outFile : string) : M (option string) :=
  r ← downloadFile env url outFile;
  mret (match r with Ok _ => Some outFile | Err _ => None end).

Definition proof_file (scene : ScriptScene) (outputDir : string) : string :=
  filepath_Join outputDir ("proof_" +:+ Sprintf_0d 3 (Index scene) +:+ ".jpg").

(** Step 1: the scene's own URL, if present. *)
Definition step_declared (scene : ScriptScene) (outputDir : string)
    : M (option string) :=
  if String.eqb (ProofImageURL scene) "" then mret None
  else try_download (ProofImageURL scene) (proof_file scene outputDir).

(** Step 2: the knowledge-base lookup. *)
Definition step_knowledge (scene : ScriptScene) (outputDir : string)
    : M (option string) :=
  as_option (searchWikipedia env (Narration scene) outputDir (Index scene)).

(** Step 3: the story's image URLs, in order. *)
Definition step_story (scene : ScriptScene) (story : Story)
    (outputDir : string) : M (option string) :=
  first_ok ((λ u, try_download u (proof_file scene outputDir))
              <$> ImageURLs story).

(** Step 4: the image search, only with an API key. *)
Definition step_search (ps : ProofScraper) (scene : ScriptScene)
    (story : Story) (outputDir : string) : M (option string) :=
  if String.eqb (serpAPIKey ps) "" then mret None
  else as_option (searchGoogleImages env ps (Narration scene) (Title story)
                    outputDir (Index scene)).

(** A word that counts: not a filler word and longer than three
    bytes. *)
Definition content_word (w : string) : Prop :=
  (w ∉ filler) ∧ (3 < String.length w)%nat.

Global Instance content_word_dec w : Decision (content_word w).
Proof. unfold content_word. apply _. Defined.

(** The query as the specification words it: the first four content
    words of the text, trimmed and lower-cased, joined by spaces. *)
Definition spec_query (text : string) : string :=
  String.concat " "
    (take 4 (filter content_word
               ((λ w, ToLower (Trim w trim_cutset)) <$> Fields text))).

(** The steps of a chain all fail, one after the other, from world [w]
    to world [w']. *)
Fixpoint all_fail (steps : list (M (option string))) (w w' : World) : Prop :=
  match steps with
  | [] => w' = w
  | s :: rest => ∃ w1, s w = (None, w1) ∧ all_fail rest w1 w'
  end.

End EvidenceSpec.

End EvidenceSpec.

(** ** Specification-side definitions for the transforms and the overlay *)

Module TimelineSpec.

(** A number that [%.3f] prints without loss: it has at most three
    decimals. *)
Definition millis (q : Q) : Prop := (printed 3 q == q)%Q.

(** The numbers that an expression compares the time [t] with or
    subtracts from it. *)
Fixpoint t_refs (e : Expr) : list Q :=
  match e with
  | ELt ET (ENum _ q) => [q]
  | ESub ET (ENum _ q) => [q]
  | EBetween ET (ENum _ lo) (ENum _ hi) => [lo; hi]
  | EParen e => t_refs e
  | EAdd a b | ESub a b | EMul a b | EDiv a b | ELt a b => t_refs a ++ t_refs b
  | EBetween x lo hi => t_refs x ++ t_refs lo ++ t_refs hi
  | EIf c a b => t_refs c ++ t_refs a ++ t_refs b
  | _ => []
  end.

(** [t] lies in the closed window from [lo] to [hi]. *)
Definition within (lo hi t : Q) : bool := Qle_bool lo t && Qle_bool t hi.

End TimelineSpec.

(** ** Concrete data for the examples *)

Module Examples.

Import types config visuals.

(** An environment where the network is down and everything else
    works. *)
Definition env_offline : Env :=
  {| env_http := λ _ _, None;
     env_exit := λ _, true;
     env_probe := λ _ _, Some 2%Q;
     env_write := λ _, true;
     env_rand := λ n, n;
     env_range := λ a b, (a + b)%nat |}.

(** An environment where, in addition, no subprocess succeeds. *)
Definition env_broken : Env :=
  {| env_http := λ _ _, None;
     env_exit := λ _, false;
     env_probe := λ _ _, None;
     env_write := λ _, true;
     env_rand := λ n, n;
     env_range := λ a b, (a + b)%nat |}.

(** An environment where every request is answered with status 200 and
    a body of four bytes. *)
Definition env_tiny : Env :=
  {| env_http := λ _ _, Some {| StatusCode := 200; RespBody := Some "tiny" |};
     env_exit := λ _, true;
     env_probe := λ _ _, Some 2%Q;
     env_write := λ _, true;
     env_rand := λ n, n;
     env_range := λ a b, (a + b)%nat |}.

Definition world0 : World := {| now := 0; files := ∅; events := [] |}.

Definition cfg0 : Config :=
  {| Visuals :=
       {| FPS := 30;
          ProofAnimationDurationSec := 4 # 10;
          ProofHoldSecDefault := 3;
          BackgroundDimDuringProof := 4 # 10;
          KenBurnsZoomFactor := 108 # 100 |};
     Paths :=
       {| AssetsVideo := "assets/video";
          VideoTags := "assets/video/tags.json";
          ClipUsageLog := "assets/video/usage_log.json" |} |}.

Definition scene0 : ScriptScene :=
  {| Index := 0; TimestampStart := 0; TimestampEnd := 5;
     Narration := "The detective found nobody inside the abandoned house.";
     SceneType := "cinematic"; Mood := "tense"; ImagePrompt := "";
     AssetTags := ["Night"; "forest"]; ProofImageURL := "";
     ProofImageLocal := ""; ProofDurationSec := 0; AudioFile := "";
     AudioDurationSec := 5; VisualFile := ""; SFXFile := "" |}.

Definition story0 : Story :=
  {| ID := "s1"; Title := "The house"; Body := ""; Source := "Reddit";
     SourceURL := ""; Score := 0; PublishedAt := "2024-01-02";
     ImageURLs := []; Keywords := [] |}.

(** An asset manager with an empty pool, and one with four clips. *)
Definition am_empty : AssetManager :=
  {| cfg := cfg0; tags := ∅; usageLog := ∅; runID := "run1"; usedInRun := ∅ |}.

Definition am_four : AssetManager :=
  {| cfg := cfg0;
     tags := {[ "a.mp4" := ["night"; "city"];
                "b.mp4" := ["FOREST"; "night"; "tense"];
                "c.mp4" := [];
                "d.mp4" := ["tense"] ]};
     usageLog := ∅; runID := "run1"; usedInRun := ∅ |}.

Definition assembler0 : Assembler :=
  {| Assembler_cfg := cfg0; assetManager := am_empty;
     proofScraper := {| serpAPIKey := "" |} |}.

Definition script0 : Script :=
  {| StoryID := "s1"; ScriptTitle := "The house"; TotalSec := 5;
     Scenes := [scene0] |}.

(** A script of one [proof] scene and one of one [dramatic] scene. *)
Definition script_proof : Script :=
  {| StoryID := "s1"; ScriptTitle := "The house"; TotalSec := 5;
     Scenes := [set_SceneType "proof" scene0] |}.

Definition scene_dramatic : ScriptScene := set_SceneType "dramatic" scene0.

Definition renderer0 : render.Renderer := {| render.cfg := cfg0 |}.

(** A renderer whose configuration leaves the animation duration at
    zero. *)
Definition renderer_still : render.Renderer :=
  {| render.cfg :=
       {| Visuals :=
            {| FPS := 30;
               ProofAnimationDurationSec := 0;
               ProofHoldSecDefault := 3;
               BackgroundDimDuringProof := 4 # 10;
               KenBurnsZoomFactor := 108 # 100 |};
          Paths := Paths cfg0 |} |}.

End Examples.

(** ** Specification-side definitions for the resolver and the overlays *)

Module ResolverSpec.

Import types config visuals.

(** The scenes that get the overlay treatment: still typed [proof] and
    with a visual file. *)
Definition overlay_target (s : ScriptScene) : Prop :=
  SceneType s = "proof" ∧ VisualFile s ≠ "".

Global Instance overlay_target_dec s : Decision (overlay_target s).
Proof. unfold overlay_target. apply _. Defined.

(** A [cinematic] scene after its downgrade: typed [dramatic], with a
    prompt made from the mood if it had none. *)
Definition downgrade_clip (scene : ScriptScene) : ScriptScene :=
  let scene := set_SceneType "dramatic" scene in
  if String.eqb (ImagePrompt scene) "" then
    set_ImagePrompt
      ("dark crime scene " +:+ Mood scene +:+ " atmosphere cinematic") scene
  else scene.

(** A [proof] scene after its downgrade. *)
Definition downgrade_proof (scene : ScriptScene) : ScriptScene :=
  let scene := set_SceneType "dramatic" scene in
  if String.eqb (ImagePrompt scene) "" then
    set_ImagePrompt "evidence document crime scene investigation cinematic" scene
  else scene.

Section ResolverSpec.

Context {std : GoStd}.

Definition fallback_file (visualDir : string) (i : Z) : string :=
  filepath_Join visualDir ("fallback_" +:+ Sprintf_0d 3 i +:+ ".jpg").

Definition kenburns_file (visualDir : string) (scene : ScriptScene) : string :=
  filepath_Join visualDir
    ("kenburns_" +:+ Sprintf_0d 3 (Index scene) +:+ ".mp4").

End ResolverSpec.

Section StillTail.

Context {std : GoStd} (env : Env).

(** The tail shared by the paths that end in a still: the transform of
    the image, then the assignment of the visual file. *)
Definition still_tail (a : Assembler) (img : string) (scene : ScriptScene)
    (visualDir : string) : M (result unit * ScriptScene * Assembler) :=
  p ← prepareImageWithKenBurns env a img scene visualDir;
  match p with
  | Err e => mret (Err e, scene, a)
  | Ok prepared => mret (Ok tt, set_VisualFile prepared scene, a)
  end.

End StillTail.

End ResolverSpec.
(** ** Specification-side definitions for the further properties *)

Module LibrarySpec.

Import types config visuals ClipSpec.

(** The number of clips of the library not yet marked used. *)
Definition unused_count (am : AssetManager) : nat :=
  length (filter (unused am) (map_to_list (tags am))).


End LibrarySpec.

Module TraceSpec.

Import types config visuals.

(** The seconds slept and the URLs requested in a trace of events, in
    order. *)
Definition sleeps (evs : list Event) : list Z :=
  omap (λ ev, match ev with EvSleep s => Some s | _ => None end) evs.

Definition gets (evs : list Event) : list string :=
  omap (λ ev, match ev with EvGet u => Some u | _ => None end) evs.

Section TraceSpec.

Context {std : GoStd}.

(** The URL that [Fetch] requests for a scene, and the file it saves. *)
Definition pollinations_url (scene : ScriptScene) : string :=
  "https://image.pollinations.ai/prompt/" +:+
  PathEscape (enhancePrompt (ImagePrompt scene) (Mood scene)) +:+
  "?width=1920&height=1080&nologo=true&model=flux&seed=" +:+
  Sprintf_d (Index scene * 42 + 7).

Definition dramatic_file (scene : ScriptScene) (outputDir : string) : string :=
  filepath_Join outputDir ("dramatic_" +:+ Sprintf_0d 3 (Index scene) +:+ ".jpg").

(** The three files an evidence image can be saved as. *)
Definition wiki_file (scene : ScriptScene) (outputDir : string) : string :=
  filepath_Join outputDir
    ("proof_" +:+ Sprintf_0d 3 (Index scene) +:+ "_wiki.jpg").

Definition google_file (scene : ScriptScene) (outputDir : string) : string :=
  filepath_Join outputDir
    ("proof_" +:+ Sprintf_0d 3 (Index scene) +:+ "_google.jpg").

End TraceSpec.

End TraceSpec.

Module RunSpec.

Import types config visuals.

(** The fields of a scene that visual resolution has no business with:
    everything but the scene type, the image prompt and the visual
    file. *)
Definition same_but_visual (s s' : ScriptScene) : Prop :=
  Index s' = Index s
  ∧ TimestampStart s' = TimestampStart s
  ∧ TimestampEnd s' = TimestampEnd s
  ∧ Narration s' = Narration s
  ∧ Mood s' = Mood s
  ∧ AssetTags s' = AssetTags s
  ∧ ProofImageURL s' = ProofImageURL s
  ∧ ProofImageLocal s' = ProofImageLocal s
  ∧ ProofDurationSec s' = ProofDurationSec s
  ∧ AudioFile s' = AudioFile s
  ∧ AudioDurationSec s' = AudioDurationSec s
  ∧ SFXFile s' = SFXFile s.

(** One of the three scene types that [Run] knows. *)
Definition known_type (s : ScriptScene) : Prop :=
  SceneType s = "cinematic" ∨ SceneType s = "dramatic" ∨ SceneType s = "proof".

(** A computation that deletes no file. *)
Definition keeps_files {A} (m : M A) : Prop :=
  ∀ w, files w ⊆ files (m w).2.

End RunSpec.

Module TextSpec.

(** The two characters that [escapeFFmpegText] escapes: the single
    quote and the colon. *)
Definition special (c : ascii) : bool :=
  Ascii.eqb c "'" || Ascii.eqb c ":".

End TextSpec.

Module RenderSpec.

Import types config render.

(** A scene with a visual file, and one with a sound effect. *)
Definition has_visual (s : ScriptScene) : Prop := VisualFile s ≠ "".

Global Instance has_visual_dec s : Decision (has_visual s).
Proof. unfold has_visual. apply _. Defined.

Definition has_sfx (s : ScriptScene) : Prop := SFXFile s ≠ "".

Global Instance has_sfx_dec s : Decision (has_sfx s).
Proof. unfold has_sfx. apply _. Defined.

(** The line of the concat list for a scene. *)
Definition concat_line (s : ScriptScene) : string :=
  "file '" +:+ VisualFile s +:+ "'".



End RenderSpec.

Module ScriptTimeline.

Import types.

(** The seconds of narration before position [k]: the durations of the
    scenes before it, added up from the left as the code does. *)
Definition elapsed_before (k : nat) (scenes : list ScriptScene) : Q :=
  foldl Qplus 0%Q (AudioDurationSec <$> take k scenes).

(** The estimate of a narration of [n] words at 130 words a minute, in
    seconds. *)
Definition word_seconds (n : nat) : Q :=
  (inject_Z (Z.of_nat n) / 130 * 60)%Q.

(** Two scenes that differ at most in their two timestamps. *)
Definition same_but_times (s s' : ScriptScene) : Prop :=
  s' = set_TimestampEnd (TimestampEnd s')
         (set_TimestampStart (TimestampStart s') s).

(** The scenes that the loop of [recalcTimestamps] makes of [scenes]
    when [elapsed] seconds lie before them. *)
Fixpoint retimed (elapsed : Q) (scenes : list ScriptScene) : list ScriptScene :=
  match scenes with
  | [] => []
  | s :: rest =>
      set_TimestampEnd (elapsed + AudioDurationSec s)%Q
        (set_TimestampStart elapsed s)
      :: retimed (elapsed + AudioDurationSec s)%Q rest
  end.

Section ScriptTimeline.

Context {std : GoStd}.

(** The scenes that the loop of [convertToScript] makes of the raw
    scenes from position [i] on, with [elapsed] seconds before them. *)
Fixpoint converted (i : Z) (elapsed : Q) (raw : list script.sceneJSON)
    : list ScriptScene :=
  match raw with
  | [] => []
  | s :: rest =>
      (script.convert_scene i elapsed s).1
      :: converted (i + 1) (script.convert_scene i elapsed s).2 rest
  end.

End ScriptTimeline.

End ScriptTimeline.

(** ** Concrete data for the further examples *)

Module FurtherExamples.

Import types config visuals Examples.

(** A host without any file and without environment variables. *)
Definition host_bare : Host :=
  {| host_read := λ _, NotExist; host_getenv := λ _, "" |}.

(** A script of two [dramatic] scenes. *)
Definition script_two : Script :=
  {| StoryID := "s1"; ScriptTitle := "The house"; TotalSec := 10;
     Scenes := [scene_dramatic; scene_dramatic] |}.

(** Five selections for the same scene. *)
Definition five_picks : list (ScriptScene * World) :=
  replicate 5 (scene0, world0).

(** A world that holds a clip, and an environment where nothing can be
    measured but the transcoder works. *)
Definition world_clip : World :=
  {| now := 0; files := {[ "clip.mp4" ]}; events := [] |}.

Definition env_blind : Env :=
  {| env_http := λ _ _, None;
     env_exit := λ _, true;
     env_probe := λ _ _, None;
     env_write := λ _, true;
     env_rand := λ n, n;
     env_range := λ a b, (a + b)%nat |}.

(** A script whose scene is resolved, and a world that holds its
    narration. *)
Definition script_ready : Script :=
  {| StoryID := "s1"; ScriptTitle := "The house"; TotalSec := 5;
     Scenes := [set_VisualFile "kenburns_000.mp4" scene_dramatic] |}.

Definition world_audio : World :=
  {| now := 0; files := {[ "audio_final.mp3" ]}; events := [] |}.

(** A raw script of one [proof] scene without a proof duration. *)
Definition raw_proof : script.scriptJSON :=
  {| script.Title := "The house";
     script.Scenes :=
       [ {| script.Narration := "The letter was found in the kitchen drawer.";
            script.SceneType := "proof"; script.Mood := "reveal";
            script.ImagePrompt := ""; script.AssetTags := [];
            script.ProofImageURL := ""; script.ProofDurationSec := 0 |} ] |}.

(** An environment where every request is answered with status 200 and
    a body of 1200 bytes, and a [proof] scene that names its image. *)
Definition env_served : Env :=
  {| env_http := λ _ _,
       Some {| StatusCode := 200;
               RespBody := Some (String.concat "" (replicate 1200 "x")) |};
     env_exit := λ _, true;
     env_probe := λ _ _, Some 2%Q;
     env_write := λ _, true;
     env_rand := λ n, n;
     env_range := λ a b, (a + b)%nat |}.

Definition scene_evidence : ScriptScene :=
  {| Index := 0; TimestampStart := 0; TimestampEnd := 5;
     Narration := "The letter was found in the kitchen drawer.";
     SceneType := "proof"; Mood := "reveal"; ImagePrompt := "";
     AssetTags := []; ProofImageURL := "https://example.org/letter.jpg";
     ProofImageLocal := ""; ProofDurationSec := 4; AudioFile := "";
     AudioDurationSec := 5; VisualFile := ""; SFXFile := "" |}.

End FurtherExamples.

(** * Properties *)

(** ** Tactics for the state monad *)

Ltac munfold :=
  unfold mbind, mret, M_bind, M_ret, next, emit, add_file, file_exists,
    inputs_exist in *.

Lemma bind_run {A B} (m : M A) (k : A → M B) (w : World) :
  (m ≫= k) w = let (a, w') := m w in k a w'.
Proof. reflexivity. Qed.

Lemma ret_run {A} (a : A) (w : World) : (mret a : M A) w = (a, w).
Proof. reflexivity. Qed.

(** ** The visiting order of a map is a permutation of its entries *)

Lemma shuffle_go_perm {A} (code : nat → nat) (n : nat) (l : list A) :
  length l = n → shuffle_go n code l ≡ₚ l.
Proof.
  revert l. induction n as [|n IH]; intros l Hlen.
  - destruct l; [done | discriminate].
  - destruct l as [|x l]; [discriminate|].
    cbn [shuffle_go].
    set (i := (code n mod length (x :: l))%nat).
    assert (Hi : (i < length (x :: l))%nat).
    { apply Nat.mod_upper_bound. simpl. lia. }
    destruct (lookup_lt_is_Some_2 (x :: l) i Hi) as [y Hy].
    rewrite (nth_lookup_Some _ _ _ _ Hy).
    rewrite (delete_Permutation _ _ _ Hy) at 2.
    constructor. apply IH.
    rewrite length_delete by eauto. simpl in *. lia.
Qed.

Lemma shuffle_perm {A} (code : nat → nat) (l : list A) : shuffle code l ≡ₚ l.
Proof. by apply shuffle_go_perm. Qed.

(** ** sortScored sorts *)

Module SortScored.

Import visuals ClipSpec.

Lemma inner_spec (pre : list scored) :
  ∀ a post,
    StronglySorted desc pre →
    ∃ pre', sortScored_inner (length pre) (pre ++ a :: post) = pre' ++ post
            ∧ pre' ≡ₚ pre ++ [a]
            ∧ StronglySorted desc pre'.
Proof.
  induction pre as [|b p IH] using rev_ind; intros a post Hs.
  - exists [a]. simpl. split; [done|split; [done|]]. repeat constructor.
  - rewrite length_app. simpl. rewrite Nat.add_1_r. cbn [sortScored_inner].
    rewrite <- (assoc_L (++)). simpl.
    replace ((p ++ b :: a :: post) !! S (length p)) with (Some a); cycle 1.
    { rewrite lookup_app_r by lia.
      replace (S (length p) - length p)%nat with 1%nat by lia. done. }
    rewrite (list_lookup_middle p (a :: post) b (length p) eq_refl).
    apply StronglySorted_app in Hs as (Hpb & Hp & _).
    destruct (Z.gtb_spec (score a) (score b)) as [Hgt|Hle].
    + rewrite (insert_app_r_alt _ _ (S (length p))) by lia.
      replace (S (length p) - length p)%nat with 1%nat by lia.
      rewrite (insert_app_r_alt _ _ (length p)) by lia.
      rewrite Nat.sub_diag. simpl.
      destruct (IH a (b :: post) Hp) as (p' & Heq & Hperm & Hsorted).
      exists (p' ++ [b]). rewrite Heq, <- (assoc_L (++)). simpl.
      split; [done|split].
      * rewrite Hperm. rewrite <- !(assoc_L (++)). simpl.
        apply Permutation_app_head. constructor.
      * apply StronglySorted_app_2; [|done|repeat constructor].
        intros x1 x2 Hx1 Hx2. apply list_elem_of_singleton in Hx2 as ->.
        rewrite Hperm in Hx1. apply elem_of_app in Hx1 as [Hx1|Hx1].
        -- apply Hpb; [done | by apply list_elem_of_singleton].
        -- apply list_elem_of_singleton in Hx1 as ->. unfold desc. lia.
    + exists ((p ++ [b]) ++ [a]). rewrite <- !(assoc_L (++)). simpl.
      split; [done|split; [done|]].
      apply StronglySorted_app_2; [|done|].
      * intros x1 x2 Hx1 Hx2.
        assert (desc x1 b) by (apply Hpb; [done | by apply list_elem_of_singleton]).
        apply elem_of_cons in Hx2 as [->|Hx2]; [done|].
        apply list_elem_of_singleton in Hx2 as ->. unfold desc in *. lia.
      * repeat constructor. done.
Qed.

Lemma outer_spec (rest : list scored) :
  ∀ pre,
    StronglySorted desc pre →
    let s' := foldl (λ s i, sortScored_inner i s) (pre ++ rest)
                (seq (length pre) (length rest)) in
    s' ≡ₚ pre ++ rest ∧ StronglySorted desc s'.
Proof.
  induction rest as [|a rest IH]; intros pre Hs; simpl.
  - by rewrite app_nil_r.
  - destruct (inner_spec pre a rest Hs) as (pre' & Heq & Hperm & Hsorted).
    rewrite Heq.
    assert (Hlen : S (length pre) = length pre').
    { rewrite Hperm, length_app. simpl. lia. }
    rewrite Hlen.
    destruct (IH pre' Hsorted) as [Hp Hso]. split; [|done].
    rewrite Hp, Hperm, <- (assoc_L (++)). done.
Qed.

Lemma sortScored_spec (s : list scored) :
  sortScored s ≡ₚ s ∧ StronglySorted desc (sortScored s).
Proof.
  destruct s as [|x rest]; [split; [done | constructor]|].
  unfold sortScored. replace (length (x :: rest) - 1)%nat with (length rest) by (simpl; lia).
  apply (outer_spec rest [x]). repeat constructor.
Qed.

End SortScored.

(** ** The clip library: scoring, candidates, pick *)

Module ClipProofs.

Import types config visuals ClipSpec.

Section ClipProofs.

Context {std : GoStd} (env : Env).

Lemma clipTagSet_get (l : list string) (m0 : gmap string bool) (k : string) :
  map_get (foldl (λ m t, <[ToLower t := true]> m) m0 l) k
  = map_get m0 k || bool_decide (k ∈ ToLower <$> l).
Proof.
  revert m0. induction l as [|t l IH]; intros m0.
  - simpl. by rewrite orb_false_r.
  - cbn [foldl fmap list_fmap]. rewrite IH. unfold map_get at 1.
    destruct (decide (ToLower t = k)) as [->|Hne].
    + rewrite lookup_insert_eq. simpl.
      rewrite (bool_decide_eq_true_2 (k ∈ k :: _)) by left.
      by rewrite orb_true_r.
    + rewrite lookup_insert_ne by done. fold (map_get m0 k). f_equal.
      apply bool_decide_ext. rewrite elem_of_cons. split; [tauto|intros [?|?]; [congruence|done]].
Qed.

Lemma has_tag_get (clipTags : list string) (t : string) :
  map_get (foldl (λ m t, <[ToLower t := true]> m) (∅ : gmap string bool) clipTags)
          (ToLower t)
  = bool_decide (has_tag clipTags t).
Proof. rewrite clipTagSet_get. unfold map_get. by rewrite lookup_empty. Qed.

Lemma count_loop (f : string → bool) (P : string → Prop)
    `{!∀ x, Decision (P x)} (l : list string) (s0 : Z) :
  (∀ x, f x = bool_decide (P x)) →
  foldl (λ sc req, if f req then sc + 10 else sc) s0 l
  = s0 + 10 * Z.of_nat (length (filter P l)).
Proof.
  intros Hf. revert s0. induction l as [|x l IH]; intros s0; simpl; [lia|].
  rewrite IH, filter_cons, Hf.
  case_bool_decide; case_decide; try done; simpl; lia.
Qed.

Lemma matchScore_spec (required clipTags : list string) (mood : string) :
  matchScore required clipTags mood = spec_score required clipTags mood.
Proof.
  unfold matchScore, spec_score.
  rewrite has_tag_get.
  rewrite (count_loop _ (has_tag clipTags)) by (intros x; apply has_tag_get).
  case_bool_decide; case_decide; try done; lia.
Qed.

Lemma spec_score_nonneg (required clipTags : list string) (mood : string) :
  (0 ≤ spec_score required clipTags mood)%Z.
Proof. unfold spec_score. case_decide; lia. Qed.

Lemma score_candidates_acc (am : AssetManager) (scene : ScriptScene)
    (entries : list (string * list string)) (acc : list scored) :
  foldl (λ candidates '(f, clipTags),
           if map_get (usedInRun am) f then candidates
           else
             let sc := matchScore (AssetTags scene) clipTags (Mood scene) in
             if (sc >=? 0)%Z
             then candidates ++ [{| file := f; score := sc |}]
             else candidates)
        acc entries
  = acc ++ (scored_entry scene <$> filter (unused am) entries).
Proof.
  revert acc. induction entries as [|[f clipTags] entries IH]; intros acc; simpl.
  - by rewrite app_nil_r.
  - rewrite IH, filter_cons.
    destruct (decide (unused am (f, clipTags))) as [Hu|Hu];
      unfold unused in Hu; simpl in Hu.
    2:{ apply not_false_is_true in Hu. by rewrite Hu. }
    + rewrite Hu, matchScore_spec.
      pose proof (spec_score_nonneg (AssetTags scene) clipTags (Mood scene)).
      destruct (Z.geb_spec (spec_score (AssetTags scene) clipTags (Mood scene)) 0); [|lia].
      rewrite <- (assoc_L (++)). done.
Qed.

Lemma score_candidates_spec (am : AssetManager) (scene : ScriptScene)
    (entries : list (string * list string)) :
  score_candidates am scene entries
  = scored_entry scene <$> filter (unused am) entries.
Proof. unfold score_candidates. by rewrite score_candidates_acc. Qed.

Lemma unused_candidates_acc (am : AssetManager)
    (entries : list (string * list string)) (acc : list scored) :
  foldl (λ candidates '(f, _),
           if negb (map_get (usedInRun am) f)
           then candidates ++ [{| file := f; score := 0 |}]
           else candidates)
        acc entries
  = acc ++ ((λ e, {| file := e.1; score := 0 |}) <$> filter (unused am) entries).
Proof.
  revert acc. induction entries as [|[f clipTags] entries IH]; intros acc; simpl.
  - by rewrite app_nil_r.
  - rewrite IH, filter_cons.
    destruct (decide (unused am (f, clipTags))) as [Hu|Hu];
      unfold unused in Hu; simpl in Hu.
    + rewrite Hu. simpl. rewrite <- (assoc_L (++)). done.
    + apply not_false_is_true in Hu. by rewrite Hu.
Qed.

Lemma unused_candidates_spec (am : AssetManager)
    (entries : list (string * list string)) :
  unused_candidates am entries
  = (λ e, {| file := e.1; score := 0 |}) <$> filter (unused am) entries.
Proof. unfold unused_candidates. by rewrite unused_candidates_acc. Qed.

End ClipProofs.

End ClipProofs.

Module PickProofs.

Import types config visuals ClipSpec ClipProofs.

Section PickProofs.

Context {std : GoStd} (env : Env).

Lemma candidates_of_perm am scene e1 e2 :
  e1 ≡ₚ e2 → candidates_of am scene e1 ≡ₚ candidates_of am scene e2.
Proof. intros H. unfold candidates_of. by rewrite H. Qed.

Lemma topN_min (n : nat) :
  (if (n <? 3)%nat then n else 3%nat) = Nat.min 3 n.
Proof. destruct (Nat.ltb_spec n 3); lia. Qed.

(** [Pick_choose] in closed form. *)
Lemma Pick_choose_spec (am : AssetManager) (scene : ScriptScene) (w : World) :
  Pick_choose env am scene w =
    if bool_decide (size (tags am) = 0%nat) then
      (Err ("no video assets found in " +:+ AssetsVideo (Paths (cfg am))), w)
    else
      let entries := shuffle (env_range env (now w)) (map_to_list (tags am)) in
      let cands := sortScored (candidates_of am scene entries) in
      if bool_decide (length cands = 0%nat) then
        (Err ("all " +:+ Sprintf_d (Z.of_nat (size (tags am)))
              +:+ " video clips have been used in this video"),
         later 2 w)
      else
        (Ok (cands, (env_rand env (S (now w)) mod Nat.min 3 (length cands))%nat),
         later 2 w).
Proof.
  unfold Pick_choose. case_bool_decide as Hsz; [reflexivity|].
  unfold range_map, Intn. munfold. cbn -[Nat.min Nat.ltb Nat.modulo].
  rewrite score_candidates_spec. fold (candidates_of am scene (shuffle (env_range env (now w)) (map_to_list (tags am)))).
  set (entries := shuffle _ _).
  pose proof (proj1 (SortScored.sortScored_spec (candidates_of am scene entries))) as Hperm.
  assert (Hlen := Permutation_length Hperm).
  destruct (decide (length (candidates_of am scene entries) = 0%nat)) as [Hc|Hc].
  - rewrite (bool_decide_eq_true_2 _ Hc).
    rewrite (bool_decide_eq_true_2 (length (sortScored _) = 0%nat)) by lia.
    cbn. rewrite unused_candidates_spec.
    set (entries' := shuffle _ _).
    assert (He : length (filter (unused am) entries') = 0%nat).
    { assert (entries' ≡ₚ entries) as ->.
      { unfold entries', entries. by rewrite !shuffle_perm. }
      unfold candidates_of in Hc. by rewrite length_fmap in Hc. }
    rewrite length_fmap, He. cbn. reflexivity.
  - rewrite (bool_decide_eq_false_2 _ Hc).
    rewrite (bool_decide_eq_false_2 (length (sortScored _) = 0%nat)) by lia.
    rewrite <- topN_min.
    cbn -[Nat.min Nat.ltb Nat.modulo]. rewrite (bool_decide_eq_false_2 _ Hc). reflexivity.
Qed.

End PickProofs.

End PickProofs.

Module PickTheorems.

Import types config visuals ClipSpec ClipProofs PickProofs.

Section PickTheorems.

Context {std : GoStd} (env : Env).

Lemma sorted_candidates_elem (am : AssetManager) (scene : ScriptScene)
    (code : nat → nat) (pick : scored) :
  pick ∈ sortScored (candidates_of am scene (shuffle code (map_to_list (tags am)))) →
  map_get (usedInRun am) (file pick) = false ∧ is_Some (tags am !! file pick).
Proof.
  rewrite (proj1 (SortScored.sortScored_spec _)).
  unfold candidates_of. rewrite shuffle_perm.
  intros (e & -> & He)%list_elem_of_fmap.
  apply list_elem_of_filter in He as [Hu He]. split; [done|].
  destruct e as [f t]. apply elem_of_map_to_list in He. simpl. eauto.
Qed.

(** The index drawn is within the candidates. *)
Lemma Pick_index_in_range (am : AssetManager) (scene : ScriptScene)
    (w w' : World) (cands : list scored) (r : nat) :
  Pick_choose env am scene w = (Ok (cands, r), w') →
  (r < Nat.min 3 (length cands))%nat ∧ is_Some (cands !! r).
Proof.
  rewrite Pick_choose_spec. case_bool_decide; [done|]. cbn zeta.
  case_bool_decide as Hc; [done|]. intros [= <- <- <-].
  set (cands := sortScored _) in *.
  assert (Hn : Nat.min 3 (length cands) ≠ 0%nat) by lia.
  pose proof (Nat.mod_upper_bound (env_rand env (S (now w))) _ Hn) as Hr.
  set (r := (_ `mod` _)%nat) in *. clearbody r.
  split; [done|]. apply lookup_lt_is_Some_2. lia.
Qed.

(** [Pick] in terms of [Pick_choose]. *)
Lemma Pick_spec (am : AssetManager) (scene : ScriptScene) (w : World) :
  match Pick_choose env am scene w with
  | (Err msg, w') => Pick env am scene w = (Err msg, am, w')
  | (Ok (cands, r), w') =>
      ∃ pick w'',
        cands !! r = Some pick
        ∧ Pick env am scene w =
            (Ok (filepath_Join (AssetsVideo (Paths (cfg am))) (file pick)),
             marked am (file pick), w'')
  end.
Proof.
  destruct (Pick_choose env am scene w) as [[[cands r]|msg] w'] eqn:Hc.
  - destruct (Pick_index_in_range _ _ _ _ _ _ Hc) as [_ [pick Hp]].
    unfold Pick. munfold. rewrite Hc. cbn. rewrite Hp.
    unfold saveUsageLog, WriteFile. munfold. cbn.
    destruct (env_write env (now w')); cbn; eauto.
  - unfold Pick. munfold. by rewrite Hc.
Qed.

Lemma Pick_inv (am am' : AssetManager) (scene : ScriptScene) (w w' : World)
    (r : result string) :
  Pick env am scene w = (r, am', w') →
  match r with
  | Err _ => am' = am
  | Ok path =>
      ∃ f, path = filepath_Join (AssetsVideo (Paths (cfg am))) f
           ∧ am' = marked am f
           ∧ map_get (usedInRun am) f = false
           ∧ is_Some (tags am !! f)
  end.
Proof.
  intros HP. pose proof (Pick_spec am scene w) as Hs.
  destruct (Pick_choose env am scene w) as [[[cands i]|msg] w1] eqn:Hc.
  - destruct Hs as (pick & w2 & Hp & Heq). rewrite Heq in HP.
    injection HP as <- <- <-. exists (file pick). split; [done|]. split; [done|].
    revert Hc. rewrite Pick_choose_spec. case_bool_decide; [done|]. cbn zeta.
    case_bool_decide; [done|]. intros [= <- <- <-].
    eapply sorted_candidates_elem, list_elem_of_lookup_2, Hp.
  - rewrite Hs in HP. by injection HP as <- <- <-.
Qed.

(** C3.  The score of a clip is ten times the number of required tags
    found in the clip's tags, up to case, plus fifteen when the mood is
    among them.  Every clip not yet used is a candidate, whatever its
    score (a score of zero included).  When a choice is made, the
    candidates are the scored unused clips sorted by descending score,
    and the clip returned is the one at the position that
    [rand.Intn] draws among the first three of them (among all of them
    when there are fewer): the position is the raw random value reduced
    modulo that number, so it is uniform whenever the source is. *)
Theorem C3_score_and_top3_pick (am : AssetManager) (scene : ScriptScene)
    (w : World) :
  (∀ required clipTags mood,
      matchScore required clipTags mood = spec_score required clipTags mood)
  ∧ (∀ entries,
      score_candidates am scene entries
      = scored_entry scene <$> filter (unused am) entries)
  ∧ (∀ cands r w',
      Pick_choose env am scene w = (Ok (cands, r), w') →
      cands ≡ₚ scored_entry scene <$> filter (unused am) (map_to_list (tags am))
      ∧ StronglySorted desc cands
      ∧ r = (env_rand env (S (now w)) mod Nat.min 3 (length cands))%nat
      ∧ (r < Nat.min 3 (length cands))%nat
      ∧ ∃ pick,
          cands !! r = Some pick
          ∧ (Pick env am scene w).1.1
            = Ok (filepath_Join (AssetsVideo (Paths (cfg am))) (file pick))).
Proof.
  split; [apply matchScore_spec|]. split; [apply score_candidates_spec|].
  intros cands r w' Hc.
  pose proof (Pick_index_in_range _ _ _ _ _ _ Hc) as [Hr _].
  pose proof (Pick_spec am scene w) as Hs. rewrite Hc in Hs.
  destruct Hs as (pick & w2 & Hp & Heq).
  revert Hc. rewrite Pick_choose_spec. case_bool_decide; [done|]. cbn zeta.
  case_bool_decide; [done|]. intros [= <- <- <-].
  destruct (SortScored.sortScored_spec
              (candidates_of am scene
                 (shuffle (env_range env (now w)) (map_to_list (tags am)))))
    as [Hperm Hsorted].
  split. { rewrite Hperm. unfold candidates_of. by rewrite shuffle_perm. }
  split; [done|]. split; [done|]. split; [done|].
  exists pick. split; [done|]. by rewrite Heq.
Qed.

Lemma marked_get (am : AssetManager) (f g : string) :
  map_get (usedInRun (marked am f)) g
  = if decide (f = g) then true else map_get (usedInRun am) g.
Proof.
  unfold map_get, marked. simpl. rewrite lookup_insert.
  by destruct (decide (f = g)).
Qed.

Lemma marked_ledger (am : AssetManager) (f : string) :
  default [] (usageLog (marked am f) !! runID (marked am f))
  = default [] (usageLog am !! runID am) ++ [f].
Proof. unfold marked. simpl. by rewrite lookup_insert_eq. Qed.

(** The invariant of a sequence of selections. *)
Lemma pick_seq_files (steps : list (ScriptScene * World)) :
  ∀ am rs am',
    pick_seq env am steps = (rs, am') →
    ∃ files,
      NoDup files
      ∧ oks rs = filepath_Join (AssetsVideo (Paths (cfg am))) <$> files
      ∧ default [] (usageLog am' !! runID am')
        = default [] (usageLog am !! runID am) ++ files
      ∧ (∀ f, f ∈ files →
           map_get (usedInRun am) f = false ∧ is_Some (tags am !! f))
      ∧ (∀ f, map_get (usedInRun am') f = true ↔
              map_get (usedInRun am) f = true ∨ f ∈ files).
Proof.
  induction steps as [|[scene w] rest IH]; intros am rs am' Hrun.
  - injection Hrun as <- <-. exists []. split; [constructor|].
    split; [done|]. split; [by rewrite app_nil_r|].
    split; [by intros f Hf%elem_of_nil|].
    intros f. split; [auto|]. by intros [?|Hf%elem_of_nil].
  - cbn [pick_seq] in Hrun.
    destruct (Pick env am scene w) as [[r am1] w1] eqn:HP.
    destruct (pick_seq env am1 rest) as [rs1 am2] eqn:Hrest.
    injection Hrun as <- <-.
    destruct (IH _ _ _ Hrest) as (files & Hnd & Hoks & Hlog & Hfresh & Hused).
    apply Pick_inv in HP. destruct r as [path|msg].
    + destruct HP as (f & -> & -> & Hu & Ht).
      exists (f :: files).
      split.
      { constructor; [|done]. intros Hf. apply Hfresh in Hf as [Hf _].
        rewrite marked_get, decide_True in Hf by done. done. }
      split. { unfold oks in *. cbn. by rewrite Hoks. }
      split. { rewrite Hlog, marked_ledger, <- (assoc_L (++)). done. }
      split.
      { intros g [->|Hg]%elem_of_cons; [done|].
        apply Hfresh in Hg as [Hg Hg']. rewrite marked_get in Hg.
        by destruct (decide (f = g)). }
      intros g. rewrite Hused, marked_get, elem_of_cons.
      destruct (decide (f = g)); intuition congruence.
    + subst am1. exists files. done.
Qed.

(** C2.  In a sequence of selections on one asset manager, the clips
    of the successful selections are pairwise distinct: the paths
    returned are the asset directory joined with pairwise distinct
    file names, these names are what the run's entry of the usage
    ledger gains, in order, none of them was marked used before, and
    all of them are marked used afterwards (which keeps them out of
    every later candidate set, see [score_candidates_spec]). *)
Theorem C2_no_clip_twice (am : AssetManager)
    (steps : list (ScriptScene * World)) :
  ∃ files,
    NoDup files
    ∧ oks (pick_seq env am steps).1
      = filepath_Join (AssetsVideo (Paths (cfg am))) <$> files
    ∧ default [] (usageLog (pick_seq env am steps).2
                    !! runID (pick_seq env am steps).2)
      = default [] (usageLog am !! runID am) ++ files
    ∧ (∀ f, f ∈ files →
         map_get (usedInRun am) f = false
         ∧ map_get (usedInRun (pick_seq env am steps).2) f = true).
Proof.
  destruct (pick_seq env am steps) as [rs am'] eqn:Hrun.
  destruct (pick_seq_files steps am rs am' Hrun)
    as (files & Hnd & Hoks & Hlog & Hfresh & Hused).
  exists files. repeat split; try done.
  - by apply Hfresh.
  - apply Hused. by right.
Qed.

End PickTheorems.

End PickTheorems.

(** ** The evidence image source *)

Module EvidenceProofs.

Import types config visuals EvidenceSpec.

Section EvidenceProofs.

Context {std : GoStd} (env : Env).

Lemma first_ok_None (steps : list (M (option string))) (w w' : World) :
  first_ok steps w = (None, w') ↔ all_fail steps w w'.
Proof.
  revert w. induction steps as [|s rest IH]; intros w; simpl.
  - munfold. split; [by intros [= ->] | by intros ->].
  - munfold. destruct (s w) as [[f|] w1] eqn:Hs.
    + split; [done|]. by intros (? & [=] & _).
    + rewrite IH. split; [eauto|]. by intros (? & [= <-] & ?).
Qed.

Lemma download_first_chain (urls : list string) (outFile : string) (w : World) :
  download_first env urls outFile w
  = first_ok ((λ u, try_download env u outFile) <$> urls) w.
Proof.
  revert w. induction urls as [|u urls IH]; intros w; [reflexivity|].
  cbn [download_first first_ok fmap list_fmap].
  rewrite !bind_run. unfold try_download at 1. rewrite bind_run.
  destruct (downloadFile env u outFile w) as [[[]|msg] w1]; cbn; [reflexivity|].
  apply IH.
Qed.

(** [FetchProofImage] is the chain of its four steps. *)
Lemma FetchProofImage_chain (ps : ProofScraper) (scene : ScriptScene)
    (story : Story) (outputDir : string) (w : World) :
  FetchProofImage env ps scene story outputDir w
  = match first_ok [ step_declared env scene outputDir;
                     step_knowledge env scene outputDir;
                     step_story env scene story outputDir;
                     step_search env ps scene story outputDir ] w with
    | (Some f, w') => (Ok f, w')
    | (None, w') =>
        (Err ("no proof image found for scene " +:+ Sprintf_d (Index scene)), w')
    end.
Proof.
  unfold FetchProofImage, step_declared, step_knowledge, step_story,
    step_search, as_option, try_download, proof_file.
  cbn [first_ok]. munfold.
  destruct (String.eqb (ProofImageURL scene) ""); cbn.
  2:{ destruct (downloadFile env _ _ w) as [[[]|msg] w1]; cbn; [reflexivity|].
      destruct (searchWikipedia env _ _ _ w1) as [[img|msg2] w2]; cbn; [reflexivity|].
      rewrite download_first_chain.
      destruct (first_ok _ w2) as [[f|] w3]; cbn; [reflexivity|].
      destruct (String.eqb (serpAPIKey ps) ""); cbn; [reflexivity|].
      destruct (searchGoogleImages env _ _ _ _ _ w3) as [[img|msg3] w4]; reflexivity. }
  destruct (searchWikipedia env _ _ _ w) as [[img|msg2] w2]; cbn; [reflexivity|].
  rewrite download_first_chain.
  destruct (first_ok _ w2) as [[f|] w3]; cbn; [reflexivity|].
  destruct (String.eqb (serpAPIKey ps) ""); cbn; [reflexivity|].
  destruct (searchGoogleImages env _ _ _ _ _ w3) as [[img|msg3] w4]; reflexivity.
Qed.


Lemma filler_get (k : string) :
  map_get (foldl (λ m f, <[f := true]> m) (∅ : gmap string bool) filler) k
  = bool_decide (k ∈ filler).
Proof.
  generalize filler. intros l.
  assert (H : ∀ m0, map_get (foldl (λ m f, <[f := true]> m) m0 l) k
                    = map_get m0 k || bool_decide (k ∈ l)).
  { induction l as [|t l IH]; intros m0.
    - simpl. by rewrite orb_false_r.
    - cbn [foldl]. rewrite IH. unfold map_get at 1.
      destruct (decide (t = k)) as [->|Hne].
      + rewrite lookup_insert_eq. simpl.
        rewrite (bool_decide_eq_true_2 (k ∈ k :: _)) by left.
        by rewrite orb_true_r.
      + rewrite lookup_insert_ne by done. fold (map_get m0 k). f_equal.
        apply bool_decide_ext. rewrite elem_of_cons.
        split; [tauto|intros [?|?]; [congruence|done]]. }
  rewrite H. unfold map_get. by rewrite lookup_empty.
Qed.

Lemma kept_loop (words acc : list string) :
  foldl (λ (kept : list string) w,
           let clean := ToLower (Trim w trim_cutset) in
           if negb (map_get
                      (foldl (λ m f, <[f := true]> m) (∅ : gmap string bool) filler)
                      clean)
              && (3 <? String.length clean)%nat
           then kept ++ [clean] else kept)
        acc words
  = acc ++ filter content_word ((λ w, ToLower (Trim w trim_cutset)) <$> words).
Proof.
  revert acc. induction words as [|w words IH]; intros acc.
  - simpl. by rewrite app_nil_r.
  - cbn [foldl fmap list_fmap]. rewrite IH, filter_cons. cbn zeta.
    rewrite filler_get.
    destruct (decide (content_word (ToLower (Trim w trim_cutset)))) as [[H1 H2]|Hn].
    + rewrite bool_decide_eq_false_2 by done.
      apply Nat.ltb_lt in H2. rewrite H2. cbn. by rewrite <- (assoc_L (++)).
    + replace (negb _ && _) with false; [done|].
      symmetry. apply not_true_is_false. intros [H1 H2]%andb_true_iff.
      apply Hn. split.
      * apply negb_true_iff in H1. by apply bool_decide_eq_false in H1.
      * by apply Nat.ltb_lt.
Qed.

(** The query is made of the first four content words. *)
Lemma extractSearchQuery_spec (text : string) :
  extractSearchQuery text = spec_query text.
Proof.
  unfold extractSearchQuery, spec_query. cbn zeta. rewrite kept_loop. cbn [app].
  destruct (Nat.ltb_spec 4 (length (filter content_word
              ((λ w, ToLower (Trim w trim_cutset)) <$> Fields text)))); [done|].
  by rewrite take_ge by lia.
Qed.

Lemma limit_read_length (s : string) (n : Z) :
  (String.length (limit_read n s) ≤ String.length s)%nat.
Proof.
  revert n. induction s as [|c s IH]; intros n; simpl; [lia|].
  destruct (n <=? 0)%Z; simpl; [lia|]. specialize (IH (n - 1)%Z). lia.
Qed.

(** A download succeeds only on status 200 with a body of at least 1000
    bytes, and then the file is there. *)
Lemma downloadFile_Ok_inv (url out : string) (w w' : World) :
  downloadFile env url out w = (Ok tt, w') →
  ∃ resp body,
    env_http env (now w) url = Some resp
    ∧ StatusCode resp = 200%Z
    ∧ RespBody resp = Some body
    ∧ (1000 ≤ String.length body)%nat
    ∧ out ∈ files w'.
Proof.
  unfold downloadFile. destruct (url_ok url); cbn -[Nat.ltb]; [|done].
  unfold http_get. munfold. cbn -[Nat.ltb].
  destruct (env_http env (now w) url) as [resp|] eqn:Hr; [|done].
  destruct (Z.eqb_spec (StatusCode resp) 200) as [Hs|Hs]; cbn -[Nat.ltb]; [|done].
  destruct (RespBody resp) as [body|] eqn:Hb; [|done].
  pose proof (limit_read_length body (10 * 1024 * 1024)) as Hlim.
  revert Hlim. generalize (limit_read (10 * 1024 * 1024) body). intros data Hlim.
  destruct (Nat.ltb_spec (String.length data) 1000) as [Hl|Hl]; cbn -[Nat.ltb]; [done|].
  unfold WriteFile. munfold. cbn -[Nat.ltb].
  destruct (env_write env (S (now w))); cbn -[Nat.ltb]; [|done].
  intros [= <-]. exists resp, body. repeat split; try done; [lia|].
  cbn -[Nat.ltb]. set_solver.
Qed.

(** A body under 1000 bytes is rejected, and nothing is written. *)
Lemma downloadFile_small (url out : string) (w : World) (resp : Response)
    (body : string) :
  env_http env (now w) url = Some resp →
  RespBody resp = Some body →
  (String.length body < 1000)%nat →
  ∃ msg w', downloadFile env url out w = (Err msg, w') ∧ files w' = files w.
Proof.
  intros Hr Hb Hl. unfold downloadFile.
  destruct (url_ok url); cbn -[Nat.ltb]; [|eauto].
  unfold http_get. munfold. cbn -[Nat.ltb]. rewrite Hr.
  destruct (Z.eqb_spec (StatusCode resp) 200) as [Hs|Hs]; cbn -[Nat.ltb]; [|eauto].
  rewrite Hb.
  pose proof (limit_read_length body (10 * 1024 * 1024)) as Hlim.
  revert Hlim. generalize (limit_read (10 * 1024 * 1024) body). intros data Hlim.
  destruct (Nat.ltb_spec (String.length data) 1000) as [Hl'|Hl']; cbn -[Nat.ltb]; [eauto|lia].
Qed.

(** The knowledge-base lookup asks for the summary of the query, and
    its image comes through [downloadFile]. *)
Lemma searchWikipedia_inv (narration outputDir : string) (idx : Z)
    (w w' : World) (f : string) :
  searchWikipedia env narration outputDir idx w = (Ok f, w') →
  spec_query narration ≠ ""
  ∧ (∃ resp,
       env_http env (now w)
         ("https://en.wikipedia.org/api/rest_v1/page/summary/"
          +:+ PathEscape (spec_query narration)) = Some resp
       ∧ StatusCode resp = 200%Z)
  ∧ ∃ url w1, downloadFile env url f w1 = (Ok tt, w').
Proof.
  unfold searchWikipedia. rewrite extractSearchQuery_spec.
  destruct (String.eqb_spec (spec_query narration) "") as [He|He]; cbn; [done|].
  unfold http_get. munfold. cbn.
  destruct (env_http env (now w) _) as [resp|] eqn:Hr; cbn; [|done].
  destruct (Z.eqb_spec (StatusCode resp) 200) as [Hs|Hs]; cbn; [|done].
  destruct (option_bind _ _ _ _) as [[orig thumb]|]; cbn; [|done].
  destruct (String.eqb _ ""); cbn; [done|].
  match goal with
  | |- context [downloadFile env ?u ?o ?w0] =>
      destruct (downloadFile env u o w0) as [[[]|msg] w2] eqn:Hd
  end; [|done].
  intros [= <- <-]. split; [done|]. split; eauto.
Qed.

Lemma download_first_inv (urls : list string) (out f : string) (w w' : World) :
  download_first env urls out w = (Some f, w') →
  f = out ∧ ∃ url w1, url ∈ urls ∧ downloadFile env url out w1 = (Ok tt, w').
Proof.
  revert w. induction urls as [|u urls IH]; intros w; [done|].
  cbn [download_first]. rewrite bind_run.
  destruct (downloadFile env u out w) as [[[]|msg] w1] eqn:Hd.
  - intros [= <- <-]. split; [done|]. exists u, w. split; [left|done].
  - intros (-> & url & w2 & Hin & H)%IH. split; [done|].
    exists url, w2. split; [by right|done].
Qed.

(** The image search happens with an API key only, and its image comes
    through [downloadFile]. *)
Lemma searchGoogleImages_inv (ps : ProofScraper)
    (narration title outputDir : string) (idx : Z) (w w' : World) (f : string) :
  searchGoogleImages env ps narration title outputDir idx w = (Ok f, w') →
  ∃ url w1, downloadFile env url f w1 = (Ok tt, w').
Proof.
  unfold searchGoogleImages. unfold http_get. munfold. cbn.
  destruct (env_http env (now w) _) as [resp|]; cbn; [|done].
  destruct (option_bind _ _ _ _) as [results|]; cbn; [|done].
  case_bool_decide; cbn; [done|].
  match goal with
  | |- context [download_first env ?us ?o ?w0] =>
      destruct (download_first env us o w0) as [[g|] w2] eqn:Hd
  end; [|done].
  intros [= <- <-]. apply download_first_inv in Hd as (-> & url & w1 & _ & Hd).
  eauto.
Qed.

(** C4.  Fetching an evidence image is the ordered chain of four
    steps, each tried only if the ones before it failed: the scene's
    own URL if there is one; the knowledge-base lookup, keyed by the
    first four content words of the narration (trimmed, lower-cased,
    filler words and words of three bytes or fewer dropped); the story's
    image URLs in order, the first that downloads winning; the image
    search, only when an API key is configured.  Whatever image comes
    out of a step came through a download that got status 200 and at
    least 1000 bytes; a shorter body is rejected and nothing is
    written.  The result is the not-found error exactly when the four
    steps have all failed, one after the other. *)
Theorem C4_evidence_fallback_chain (ps : ProofScraper) (scene : ScriptScene)
    (story : Story) (outputDir : string) (w : World) :
  let chain := [ step_declared env scene outputDir;
                 step_knowledge env scene outputDir;
                 step_story env scene story outputDir;
                 step_search env ps scene story outputDir ] in
  (* the chain *)
  FetchProofImage env ps scene story outputDir w
  = (match first_ok chain w with
     | (Some f, w') => (Ok f, w')
     | (None, w') =>
         (Err ("no proof image found for scene " +:+ Sprintf_d (Index scene)), w')
     end)
  (* not found exactly when all four steps fail in turn *)
  ∧ (∀ w', (∃ msg, FetchProofImage env ps scene story outputDir w = (Err msg, w'))
           ↔ all_fail chain w w')
  (* the key of the knowledge-base lookup *)
  ∧ (∀ text, extractSearchQuery text = spec_query text)
  ∧ (∀ w0 w' f,
       step_knowledge env scene outputDir w0 = (Some f, w') →
       spec_query (Narration scene) ≠ ""
       ∧ ∃ resp,
           env_http env (now w0)
             ("https://en.wikipedia.org/api/rest_v1/page/summary/"
              +:+ PathEscape (spec_query (Narration scene))) = Some resp
           ∧ StatusCode resp = 200%Z)
  (* every image comes through a download that checks the size *)
  ∧ (∀ step w0 w' f,
       step ∈ chain → step w0 = (Some f, w') →
       ∃ url w1, downloadFile env url f w1 = (Ok tt, w'))
  ∧ (∀ url out w0 w',
       downloadFile env url out w0 = (Ok tt, w') →
       ∃ resp body,
         env_http env (now w0) url = Some resp
         ∧ StatusCode resp = 200%Z
         ∧ RespBody resp = Some body
         ∧ (1000 ≤ String.length body)%nat
         ∧ out ∈ files w')
  ∧ (∀ url out w0 resp body,
       env_http env (now w0) url = Some resp →
       RespBody resp = Some body →
       (String.length body < 1000)%nat →
       ∃ msg w', downloadFile env url out w0 = (Err msg, w')
                 ∧ files w' = files w0).
Proof.
  intros chain.
  split; [apply FetchProofImage_chain|].
  split.
  { intros w'. rewrite FetchProofImage_chain, <- first_ok_None.
    fold chain. destruct (first_ok chain w) as [[f|] w1].
    - split; [by intros [msg [=]] | done].
    - split; [by intros [msg [= _ <-]] | intros [= <-]; eauto]. }
  split; [apply extractSearchQuery_spec|].
  split.
  { intros w0 w' f. unfold step_knowledge, as_option. rewrite bind_run.
    destruct (searchWikipedia env _ _ _ w0) as [[g|msg] w1] eqn:Hs; [|done].
    intros [= <- <-]. apply searchWikipedia_inv in Hs as (? & ? & _). done. }
  split.
  { intros step w0 w' f Hin Hstep. unfold chain in Hin.
    repeat (apply elem_of_cons in Hin as [->|Hin]).
    - revert Hstep. unfold step_declared.
      destruct (String.eqb _ ""); [done|].
      unfold try_download. rewrite bind_run.
      destruct (downloadFile env _ _ w0) as [[[]|msg] w1] eqn:Hd; [|done].
      intros [= <- <-]. eauto.
    - revert Hstep. unfold step_knowledge, as_option. rewrite bind_run.
      destruct (searchWikipedia env _ _ _ w0) as [[g|msg] w1] eqn:Hs; [|done].
      intros [= <- <-]. by apply searchWikipedia_inv in Hs as (_ & _ & ?).
    - revert Hstep. unfold step_story. rewrite <- download_first_chain.
      intros (-> & url & w1 & _ & Hd)%download_first_inv. eauto.
    - revert Hstep. unfold step_search.
      destruct (String.eqb _ ""); [done|].
      unfold as_option. rewrite bind_run.
      destruct (searchGoogleImages env _ _ _ _ _ w0) as [[g|msg] w1] eqn:Hs; [|done].
      intros [= <- <-]. by apply searchGoogleImages_inv in Hs.
    - by apply elem_of_nil in Hin. }
  split; [apply downloadFile_Ok_inv | apply downloadFile_small].
Qed.

End EvidenceProofs.

End EvidenceProofs.

(** ** Rounding and printing *)

Module Numbers.

Import TimelineSpec.

Open Scope Q_scope.

Lemma round_half_even_int (q : Q) (z : Z) :
  q == inject_Z z → round_half_even q = z.
Proof.
  destruct q as [n d]. unfold Qeq, round_half_even. simpl. intros H.
  assert (Hn : (n = z * Z.pos d)%Z) by lia. subst n.
  rewrite Z.div_mul, Z.mod_mul by lia.
  change (2 * 0)%Z with 0%Z. destruct (Z.compare_spec 0 (Z.pos d)); lia.
Qed.

Lemma printed_3_unfold (q : Q) :
  printed 3 q = (round_half_even (q * inject_Z 1000) # 1000).
Proof. reflexivity. Qed.

Lemma millis_iff (q : Q) : millis q ↔ ∃ z : Z, q == z # 1000.
Proof.
  unfold millis. rewrite printed_3_unfold. split.
  - intros H. eexists. symmetry. exact H.
  - intros [z Hz]. rewrite (round_half_even_int _ z); [by symmetry|].
    rewrite Hz. unfold Qeq. simpl. lia.
Qed.

Lemma millis_add (a b : Q) : millis a → millis b → millis (a + b).
Proof.
  rewrite !millis_iff. intros [x Hx] [y Hy]. exists (x + y)%Z.
  rewrite Hx, Hy. unfold Qeq. simpl. lia.
Qed.

Lemma millis_double (a : Q) : millis a → millis (a * 2).
Proof.
  rewrite !millis_iff. intros [x Hx]. exists (x * 2)%Z.
  rewrite Hx. unfold Qeq. simpl. lia.
Qed.

Lemma printed_0_int (z : Z) : printed 0 (inject_Z z) == inject_Z z.
Proof.
  unfold printed. change (10 ^ Z.of_nat 0)%Z with 1%Z.
  rewrite (round_half_even_int _ z); [reflexivity|].
  unfold Qeq. simpl. lia.
Qed.

Lemma Qle_bool_false (x y : Q) : Qle_bool x y = false ↔ y < x.
Proof.
  rewrite <- not_true_iff_false, Qle_bool_iff. split.
  - apply Qnot_le_lt.
  - intros H1 H2. apply (Qlt_irrefl x). eapply Qle_lt_trans; eauto.
Qed.

Lemma Qeq_bool_false (x y : Q) : Qeq_bool x y = false ↔ ¬ x == y.
Proof. rewrite <- not_true_iff_false, Qeq_bool_iff. reflexivity. Qed.

(** Rounding to the nearest integer moves a number by at most a half. *)
Lemma round_half_even_error (q : Q) :
  q - (1 # 2) <= inject_Z (round_half_even q)
  ∧ inject_Z (round_half_even q) <= q + (1 # 2).
Proof.
  destruct q as [n d]. unfold round_half_even. cbn [Qnum Qden].
  pose proof (Z.div_mod n (Z.pos d) ltac:(lia)) as Hdm.
  pose proof (Z.mod_pos_bound n (Z.pos d) ltac:(lia)) as Hb.
  set (fl := (n / Z.pos d)%Z) in *. set (rm := (n mod Z.pos d)%Z) in *.
  assert (Hcases :
            ((2 * rm ≤ Z.pos d ∧ round_half_even (n # d) = fl)
             ∨ (Z.pos d ≤ 2 * rm ∧ round_half_even (n # d) = fl + 1))%Z).
  { unfold round_half_even. cbn [Qnum Qden]. fold fl rm.
    destruct (Z.compare_spec (2 * rm) (Z.pos d)); [|left; lia|right; lia].
    destruct (Z.even fl); [left|right]; lia. }
  change (match (2 * rm ?= Z.pos d)%Z with
          | Eq => if Z.even fl then fl else (fl + 1)%Z
          | Lt => fl
          | Gt => (fl + 1)%Z
          end) with (round_half_even (n # d)).
  destruct Hcases as [[H1 ->]|[H1 ->]]; unfold Qle; cbn; nia.
Qed.



Lemma pow10_pos (p : nat) : (0 < 10 ^ Z.of_nat p)%Z.
Proof. apply Z.pow_pos_nonneg; lia. Qed.

Lemma printed_as_quotient (p : nat) (q : Q) :
  printed p q
  == inject_Z (round_half_even (q * inject_Z (10 ^ Z.of_nat p)))
     / inject_Z (10 ^ Z.of_nat p).
Proof.
  unfold printed. pose proof (pow10_pos p) as Hp.
  generalize (round_half_even (q * inject_Z (10 ^ Z.of_nat p))). intros z.
  destruct (10 ^ Z.of_nat p)%Z as [|P|P] eqn:HP; try lia.
  unfold Qeq, Qdiv, Qmult, Qinv, inject_Z. cbn. lia.
Qed.

(** Printing with [p] decimals moves a number by at most half a unit
    of the last decimal. *)
Lemma printed_error (p : nat) (q : Q) :
  let u := 1 / inject_Z (2 * 10 ^ Z.of_nat p) in
  q - u <= printed p q ∧ printed p q <= q + u.
Proof.
  intros u. pose proof (pow10_pos p) as Hp.
  assert (HP : 0 < inject_Z (10 ^ Z.of_nat p)).
  { change 0 with (inject_Z 0). by rewrite <- Zlt_Qlt. }
  destruct (round_half_even_error (q * inject_Z (10 ^ Z.of_nat p))) as [H1 H2].
  rewrite printed_as_quotient.
  assert (Hu : u == (1 # 2) / inject_Z (10 ^ Z.of_nat p)).
  { unfold u. rewrite inject_Z_mult. field. lra. }
  rewrite Hu. clear Hu u.
  revert HP H1 H2.
  generalize (inject_Z (round_half_even (q * inject_Z (10 ^ Z.of_nat p)))).
  generalize (inject_Z (10 ^ Z.of_nat p)).
  intros P z HP H1 H2. split.
  - apply Qle_shift_div_l; [done|].
    assert (E : (q - (1 # 2) / P) * P == q * P - (1 # 2)) by (field; lra).
    by rewrite E.
  - apply Qle_shift_div_r; [done|].
    assert (E : (q + (1 # 2) / P) * P == q * P + (1 # 2)) by (field; lra).
    by rewrite E.
Qed.




End Numbers.

(** ** The evidence overlay *)

Module OverlayProofs.

Import types config render TimelineSpec Numbers Examples.

Open Scope Q_scope.

Section OverlayProofs.

Context (r : Renderer) (scene : ScriptScene).

(** On the millisecond grid the numbers of the overlay print without
    loss. *)
Lemma overlay_numbers_print :
  millis (TimestampStart scene) → millis (holdDuration r scene) →
  millis (animDur r) →
  printed 3 (TimestampStart scene + animDur r)
    == TimestampStart scene + animDur r
  ∧ printed 3 (slideOutStart r scene) == slideOutStart r scene
  ∧ printed 3 (slideOutStart r scene + animDur r)
    == slideOutStart r scene + animDur r
  ∧ printed 3 (endTime r scene) == endTime r scene.
Proof.
  intros Hs Hh Ha. unfold slideOutStart, endTime.
  repeat split; repeat first [apply millis_add | apply millis_double]; done.
Qed.

Lemma centerX_printed : printed 0 (inject_Z centerX) == 480.
Proof. rewrite printed_0_int. reflexivity. Qed.

(** C5, as the code has it.  The window ends at start + hold + 2 ×
    animation duration.  The overlay is enabled and the background
    dimmed at exactly the times of one and the same closed window, whose
    bounds are the start and the end as printed with three decimals,
    each within half a millisecond of its value.  When start, hold and
    animation duration are whole milliseconds, the animation duration
    is positive and the hold is not negative, that window is the one
    from start to end; the picture is at or beyond the right edge of the
    frame (x ≥ 1920) up to the start, at the edge at the start, and at
    the edge from the end on; and every time the three expressions
    compare [t] with lies in the window. *)
Theorem C5_overlay_window :
  let s := TimestampStart scene in
  let h := holdDuration r scene in
  let a := animDur r in
  let e := endTime r scene in
  e == s + h + 2 * a
  ∧ (∀ t, eval (enableExpr r scene) t
          = Some (of_bool (within (printed 3 s) (printed 3 e) t)))
  ∧ (∀ t, eval (brightnessExpr r scene) t
          = Some (if within (printed 3 s) (printed 3 e) t
                  then printed 2 (BackgroundDimDuringProof (Visuals (cfg r)))
                  else printed 1 1))
  ∧ (s - (1 # 2000) <= printed 3 s ∧ printed 3 s <= s + (1 # 2000))
  ∧ (e - (1 # 2000) <= printed 3 e ∧ printed 3 e <= e + (1 # 2000))
  ∧ (millis s → millis h → millis a → 0 < a → 0 <= h →
     (∀ t, within (printed 3 s) (printed 3 e) t = within s e t)
     ∧ (∃ v, eval (xExpr r scene) s = Some v ∧ v == 1920)
     ∧ (∀ t, t <= s → ∃ v, eval (xExpr r scene) t = Some v ∧ 1920 <= v)
     ∧ (∀ t, e <= t → eval (xExpr r scene) t = Some (inject_Z 1920))
     ∧ (∀ q, q ∈ t_refs (xExpr r scene) ++ t_refs (enableExpr r scene)
                 ++ t_refs (brightnessExpr r scene) →
             s <= q ∧ q <= e)).
Proof.
  intros s h a e.
  assert (Hend : e == s + h + 2 * a) by (unfold e, endTime; fold s h a; ring).
  split; [done|].
  split. { intros t. reflexivity. }
  split.
  { intros t. unfold brightnessExpr. cbn [eval mbind option_bind].
    fold s e. fold (within (printed 3 s) (printed 3 e) t).
    by destruct (within (printed 3 s) (printed 3 e) t). }
  split. { apply (printed_error 3 s). }
  split. { apply (printed_error 3 e). }
  intros Hs Hh Ha Hpos Hnn.
  destruct (overlay_numbers_print Hs Hh Ha) as (Hsa & Hsos & Hsosa & He).
  unfold millis in Hs, Hh, Ha.
  assert (Hsosv : slideOutStart r scene == s + a + h) by reflexivity.
  assert (Hbelow : ∀ t, t <= s → ∃ v, eval (xExpr r scene) t = Some v
                                  ∧ v == 1920 + (480 - 1920) * ((t - s) / a)).
  { intros t Ht. unfold xExpr, slideInExpr. cbn [eval mbind option_bind].
    fold s a.
    assert (H1 : Qle_bool (printed 3 (s + a)) t = false).
    { apply Qle_bool_false. unfold s, a. rewrite Hsa. fold s a. lra. }
    assert (H2 : Qle_bool (printed 3 a) (t - printed 3 s) = false).
    { apply Qle_bool_false. rewrite Hs, Ha. lra. }
    assert (H3 : Qeq_bool (printed 3 a) 0 = false).
    { apply Qeq_bool_false. rewrite Ha. lra. }
    rewrite H1, H2, H3. cbn. eexists. split; [reflexivity|].
    rewrite centerX_printed, Hs, Ha. reflexivity. }
  split. { intros t. unfold within. fold e in He. by rewrite Hs, He. }
  split.
  { destruct (Hbelow s) as (v & Hv & Hval); [lra|]. exists v. split; [done|].
    rewrite Hval. field. lra. }
  split.
  { intros t Ht. destruct (Hbelow t Ht) as (v & Hv & Hval).
    exists v. split; [done|]. rewrite Hval.
    assert ((t - s) / a <= 0).
    { apply Qle_shift_div_r; [done|]. lra. }
    lra. }
  split.
  { intros t Ht. unfold xExpr. cbn [eval mbind option_bind]. fold s a.
    assert (H1 : Qle_bool (printed 3 (s + a)) t = true).
    { apply Qle_bool_iff. unfold s, a. rewrite Hsa. fold s a. lra. }
    assert (H2 : Qle_bool (printed 3 (slideOutStart r scene + a)) t = true).
    { apply Qle_bool_iff. unfold a. rewrite Hsosa, Hsosv. fold a. lra. }
    rewrite H1, H2. reflexivity. }
  intros q Hq. cbn in Hq. fold s a in Hq.
  repeat (apply elem_of_cons in Hq as [->|Hq]);
    try (fold e; rewrite ?Hsosv; lra).
  by apply elem_of_nil in Hq.
Qed.

(** What the position expression gives during the hold, between the
    end of the slide-in and the start of the slide-out: the branch of
    the slide-out applies there already, so the position is left of the
    centre and reaches it only when the slide-out starts. *)
Lemma hold_phase_position (t : Q) :
  let s := TimestampStart scene in
  let h := holdDuration r scene in
  let a := animDur r in
  millis s → millis h → millis a → 0 < a →
  s + a <= t → t < s + a + h →
  ∃ v, eval (xExpr r scene) t = Some v
       ∧ v == 480 + (1920 - 480) * ((t - (s + a + h)) / a)
       ∧ v < 480.
Proof.
  intros s h a Hs Hh Ha Hpos Hlo Hhi.
  destruct (overlay_numbers_print Hs Hh Ha) as (Hsa & Hsos & Hsosa & He).
  unfold millis in Hs, Hh, Ha.
  assert (Hsosv : slideOutStart r scene == s + a + h) by reflexivity.
  unfold xExpr. cbn [eval mbind option_bind]. fold s a.
  assert (H1 : Qle_bool (printed 3 (s + a)) t = true).
  { apply Qle_bool_iff. unfold s, a. rewrite Hsa. fold s a. lra. }
  assert (H2 : Qle_bool (printed 3 (slideOutStart r scene + a)) t = false).
  { apply Qle_bool_false. unfold a. rewrite Hsosa, Hsosv. fold a. lra. }
  assert (H3 : Qeq_bool (printed 3 a) 0 = false).
  { apply Qeq_bool_false. rewrite Ha. lra. }
  rewrite H1, H2, H3. cbn. eexists. split; [reflexivity|].
  assert (Hv : printed 0 (inject_Z centerX)
               + (inject_Z 1920 - printed 0 (inject_Z centerX))
                 * ((t - printed 3 (slideOutStart r scene)) / printed 3 a)
               == 480 + (1920 - 480) * ((t - (s + a + h)) / a)).
  { rewrite centerX_printed, Hsos, Hsosv, Ha. reflexivity. }
  split; [exact Hv|]. rewrite Hv.
  assert ((t - (s + a + h)) / a < 0).
  { apply Qlt_shift_div_r; [done|]. lra. }
  lra.
Qed.

End OverlayProofs.

(** The claim fails for a start that is not a whole millisecond and for
    an animation duration of zero.  With a start of 1/32 s the window of
    both expressions begins at 0.031 s, before the start; with an
    animation duration of 0 the position at the start is a division by
    zero. *)
Lemma C5_counterexample :
  show (enableExpr renderer0 (set_TimestampStart (1 # 32) scene0))
  = "between(t,0.031,3.831)"
  ∧ eval (enableExpr renderer0 (set_TimestampStart (1 # 32) scene0)) (31 # 1000)
    = Some 1
  ∧ 31 # 1000 < TimestampStart (set_TimestampStart (1 # 32) scene0)
  ∧ eval (xExpr renderer_still scene0) (TimestampStart scene0) = None.
Proof. vm_compute. repeat split. Qed.

End OverlayProofs.

(** ** The transforms: trim or loop, zoom, default duration *)

Module TransformProofs.

Import types config visuals TimelineSpec Numbers.

Open Scope Q_scope.






End TransformProofs.

Module TransformTheorems.

Import types config visuals TimelineSpec Numbers TransformProofs Examples.

Open Scope Q_scope.

Section TransformTheorems.

Context {std : GoStd} (env : Env).


(** What [prepareVideoClip] runs. *)
Lemma prepareVideoClip_run (clipPath : string) (scene : ScriptScene)
    (outputDir : string) (w : World) :
  let outFile :=
    filepath_Join outputDir ("clip_" +:+ Sprintf_0d 3 (Index scene) +:+ ".mp4") in
  let duration := target_duration scene in
  let clipDur :=
    default duration
      (if bool_decide (clipPath ∈ files w)
       then env_probe env (now w) clipPath else None) in
  let ok := bool_decide (clipPath ∈ files w) && env_exit env (S (now w)) in
  ∃ w',
    prepareVideoClip env clipPath scene outputDir w
    = (if ok then Ok outFile else Err "ffmpeg clip prep", w')
    ∧ last (events w')
      = Some (EvExec "ffmpeg" (clip_args clipPath outFile duration clipDur))
    ∧ (ok = true → outFile ∈ files w').
Proof.
  intros outFile duration clipDur ok.
  unfold prepareVideoClip, getVideoDuration, run_cmd. munfold.
  cbn -[clip_args].
  fold outFile duration.
  assert (Hfa : bool_decide (Forall (λ f, f ∈ files w) [clipPath])
                = bool_decide (clipPath ∈ files w)).
  { apply bool_decide_ext. rewrite Forall_singleton. done. }
  rewrite Hfa.
  replace (match (if bool_decide (clipPath ∈ files w)
                  then env_probe env (now w) clipPath else None) with
           | Some d => d | None => duration end) with clipDur by done.
  fold ok. destruct ok; cbn -[clip_args]; eexists; (split; [reflexivity|]);
    (split; [cbn [events]; by rewrite last_snoc|]); cbn [files];
    [set_solver|done].
Qed.



(** What [prepareImageWithKenBurns] runs. *)
Lemma prepareImageWithKenBurns_run (a : Assembler) (imgPath : string)
    (scene : ScriptScene) (outputDir : string) (w : World) :
  let outFile :=
    filepath_Join outputDir
      ("kenburns_" +:+ Sprintf_0d 3 (Index scene) +:+ ".mp4") in
  let ok := bool_decide (imgPath ∈ files w) && env_exit env (now w) in
  ∃ w',
    prepareImageWithKenBurns env a imgPath scene outputDir w
    = (if ok then Ok outFile else Err "ffmpeg ken burns", w')
    ∧ last (events w')
      = Some (EvExec "ffmpeg"
                (kenburns_args (Assembler_cfg a) imgPath outFile
                   (target_duration scene)))
    ∧ (ok = true → outFile ∈ files w')
    ∧ (ok = false → files w' = files w).
Proof.
  intros outFile ok.
  unfold prepareImageWithKenBurns, run_cmd. munfold.
  cbn -[kenburns_args]. fold outFile.
  assert (Hfa : bool_decide (Forall (λ f, f ∈ files w) [imgPath])
                = bool_decide (imgPath ∈ files w)).
  { apply bool_decide_ext. rewrite Forall_singleton. done. }
  rewrite Hfa. fold ok.
  destruct ok; cbn -[kenburns_args]; eexists; (split; [reflexivity|]);
    (split; [cbn [events]; by rewrite last_snoc|]); cbn [files];
    (split; [|done]); [set_solver|done].
Qed.


(** C9.  A scene whose measured duration is zero or negative is
    transformed as if its duration were 5 seconds: both transforms do
    exactly what they do for the same scene with a duration of 5, so
    they fail only where that scene's transform fails (when the
    subprocess does), [-t] is 5.000 on both paths, the frame count of
    the still path is that of 5 seconds, and the target is positive and
    differs from the recorded duration. *)
Theorem C9_default_duration (a : Assembler) (clipPath imgPath : string)
    (scene : ScriptScene) (outputDir : string) (w : World) :
  AudioDurationSec scene <= 0 →
  let scene5 := set_AudioDurationSec 5 scene in
  target_duration scene = 5
  ∧ 0 < target_duration scene
  ∧ ¬ target_duration scene == AudioDurationSec scene
  ∧ prepareVideoClip env clipPath scene outputDir w
    = prepareVideoClip env clipPath scene5 outputDir w
  ∧ prepareImageWithKenBurns env a imgPath scene outputDir w
    = prepareImageWithKenBurns env a imgPath scene5 outputDir w
  ∧ (∀ out d, ∃ pre post,
       clip_args clipPath out (target_duration scene) d
       = pre ++ "-t" :: "5.000" :: post)
  ∧ (∀ out, ∃ pre post,
       kenburns_args (Assembler_cfg a) imgPath out (target_duration scene)
       = pre ++ "-t" :: "5.000" :: post)
  ∧ totalFrames (Assembler_cfg a) (target_duration scene)
    = trunc (5 * inject_Z (FPS (Visuals (Assembler_cfg a))))
  ∧ (clipPath ∈ files w → env_exit env (S (now w)) = true →
     is_Ok (prepareVideoClip env clipPath scene outputDir w).1 = true)
  ∧ (imgPath ∈ files w → env_exit env (now w) = true →
     is_Ok (prepareImageWithKenBurns env a imgPath scene outputDir w).1 = true).
Proof.
  intros Hd scene5.
  assert (Ht : target_duration scene = 5).
  { unfold target_duration. by rewrite (proj2 (Qle_bool_iff _ _) Hd). }
  assert (Ht5 : target_duration scene5 = 5) by reflexivity.
  split; [done|]. split; [by rewrite Ht|].
  split. { rewrite Ht. intros E. rewrite <- E in Hd. lra. }
  split.
  { unfold prepareVideoClip. rewrite Ht, Ht5. reflexivity. }
  split.
  { unfold prepareImageWithKenBurns. rewrite Ht, Ht5. reflexivity. }
  rewrite Ht.
  split.
  { intros out d. unfold clip_args. destruct (Qle_bool 5 d).
    - exists ["-y"; "-i"; clipPath]. eexists. reflexivity.
    - exists ["-y"; "-stream_loop"; Sprintf_d (loop_count 5 d); "-i"; clipPath].
      eexists. reflexivity. }
  split.
  { intros out. unfold kenburns_args.
    exists ["-y"; "-loop"; "1"; "-i"; imgPath; "-vf";
            zoomFilter (Assembler_cfg a) 5].
    eexists. reflexivity. }
  split; [done|].
  split.
  - intros Hin Hex.
    destruct (prepareVideoClip_run clipPath scene outputDir w) as (w' & -> & _).
    rewrite Hex, bool_decide_eq_true_2 by done. reflexivity.
  - intros Hin Hex.
    destruct (prepareImageWithKenBurns_run a imgPath scene outputDir w)
      as (w' & -> & _).
    rewrite Hex, bool_decide_eq_true_2 by done. reflexivity.
Qed.

End TransformTheorems.





Lemma C9_witness :
  target_duration (set_AudioDurationSec 0 scene0) = 5
  ∧ target_duration (set_AudioDurationSec (-3) scene0) = 5.
Proof.
  split.
  - apply (@C9_default_duration ascii_std env_offline assembler0 "c.mp4" "i.jpg"
             (set_AudioDurationSec 0 scene0) "out" world0).
    vm_compute. discriminate.
  - apply (@C9_default_duration ascii_std env_offline assembler0 "c.mp4" "i.jpg"
             (set_AudioDurationSec (-3) scene0) "out" world0).
    vm_compute. discriminate.
Defined.

End TransformTheorems.

(** ** The Assembler: resolution of one scene and of a script *)

Module AssemblerProofs.

Import types config visuals render Examples ResolverSpec TransformTheorems.

(** One step through monadic code: expose the next call, split on its
    result. *)
Ltac mstep :=
  first
    [ rewrite bind_run
    | rewrite ret_run
    | match goal with
      | |- context [let (_, _) := ?m in _] => destruct m as [? ?] eqn:?
      | |- context [match ?x with _ => _ end] =>
          lazymatch type of x with
          | string => fail
          | _ => destruct x eqn:?
          end
      | |- context [if ?b then _ else _] => destruct b eqn:?
      end ];
  cbn [fst snd].

Section AssemblerProofs.

Context {std : GoStd} (env : Env).

(** Resolution leaves the scene type alone or rewrites it to
    [dramatic]. *)
Lemma resolve_scene_type (a : Assembler) (i : Z) (scene : ScriptScene)
    (story : Story) (visualDir : string) (w : World) :
  let scene' := (resolve_scene env a i scene story visualDir w).1.1.2 in
  SceneType scene' = SceneType scene ∨ SceneType scene' = "dramatic".
Proof.
  unfold resolve_scene. repeat mstep; auto.
Qed.

(** A [proof] scene keeps its type exactly when an evidence image was
    found. *)
Lemma resolve_scene_proof_type (a : Assembler) (i : Z) (scene : ScriptScene)
    (story : Story) (visualDir : string) (w : World) :
  SceneType scene = "proof" →
  SceneType (resolve_scene env a i scene story visualDir w).1.1.2
  = if is_Ok (FetchProofImage env (proofScraper a) scene story visualDir w).1
    then "proof" else "dramatic".
Proof.
  intros Hp. unfold resolve_scene. rewrite Hp. cbn [String.eqb Ascii.eqb Bool.eqb].
  rewrite bind_run.
  destruct (FetchProofImage env _ scene story visualDir w) as [[img|msg] w1];
    cbn [fst is_Ok]; repeat mstep; auto.
Qed.

Lemma Run_scenes_positions (story : Story) (visualDir : string)
    (scenes : list ScriptScene) :
  ∀ a i w,
    let scenes' := (Run_scenes env a i scenes story visualDir w).1.1.2 in
    length scenes' = length scenes
    ∧ ∀ k s s',
        scenes !! k = Some s → scenes' !! k = Some s' →
        s' = s
        ∨ ∃ a0 w0,
            s' = (resolve_scene env a0 (i + Z.of_nat k) s story visualDir w0).1.1.2.
Proof.
  induction scenes as [|scene rest IH]; intros a i w.
  - cbn. split; [done|]. intros k s s' Hk. by rewrite lookup_nil in Hk.
  - cbn [Run_scenes]. rewrite bind_run.
    destruct (resolve_scene env a i scene story visualDir w)
      as [[[r scene1] a1] w1] eqn:Hres.
    destruct r as [[]|msg].
    + rewrite bind_run. specialize (IH a1 (i + 1)%Z w1).
      destruct (Run_scenes env a1 (i + 1) rest story visualDir w1)
        as [[[r2 rest2] a2] w2].
      cbn [fst snd] in *. destruct IH as [Hlen IH]. split; [cbn; lia|].
      intros [|k] s s' Hk Hk'.
      * cbn in Hk, Hk'. injection Hk as <-. injection Hk' as <-.
        right. exists a, w. rewrite Z.add_0_r, Hres. done.
      * cbn in Hk, Hk'. destruct (IH k s s' Hk Hk') as [->|(a0 & w0 & ->)]; [by left|].
        right. exists a0, w0. do 4 f_equal. lia.
    + cbn [fst snd]. split; [done|].
      intros [|k] s s' Hk Hk'.
      * cbn in Hk, Hk'. injection Hk as <-. injection Hk' as <-.
        right. exists a, w. rewrite Z.add_0_r, Hres. done.
      * cbn in Hk, Hk'. left. congruence.
Qed.

Lemma Run_positions (a : Assembler) (script : Script) (story : Story)
    (outputDir : string) (w : World) :
  let script' := (Run env a script story outputDir w).1.1.2 in
  length (Scenes script') = length (Scenes script)
  ∧ ∀ k s s',
      Scenes script !! k = Some s → Scenes script' !! k = Some s' →
      s' = s
      ∨ ∃ a0 w0 i,
          s' = (resolve_scene env a0 i s story
                  (filepath_Join outputDir "visuals") w0).1.1.2.
Proof.
  unfold Run, MkdirAll. munfold. cbn.
  destruct (env_write env (now w)).
  - match goal with
    | |- context [Run_scenes env a 0 ?ss story ?d ?w0] =>
        pose proof (Run_scenes_positions story d ss a 0%Z w0) as H;
        destruct (Run_scenes env a 0 ss story d w0) as [[[r ss'] a'] w']
    end.
    cbn in *. destruct H as [Hlen H]. split; [done|].
    intros k s s' Hk Hk'. destruct (H k s s' Hk Hk') as [->|(a0 & w0 & ->)]; eauto.
  - cbn. split; [done|]. intros k s s' Hk Hk'. left. congruence.
Qed.

(** The scenes with the overlay treatment. *)
Lemma proofScenes_filter (script : Script) :
  proofScenes script = filter overlay_target (Scenes script).
Proof.
  unfold proofScenes. generalize (Scenes script). intros l.
  assert (H : ∀ acc,
             foldl (λ ps scene,
                      if String.eqb (SceneType scene) "proof"
                         && negb (String.eqb (VisualFile scene) "")
                      then ps ++ [scene] else ps) acc l
             = acc ++ filter overlay_target l).
  { induction l as [|s l IH]; intros acc; cbn [foldl].
    - by rewrite app_nil_r.
    - rewrite IH, filter_cons.
      destruct (decide (overlay_target s)) as [[H1 H2]|Hn].
      + rewrite H1. apply String.eqb_neq in H2. rewrite H2. cbn.
        by rewrite <- (assoc_L (++)).
      + replace (_ && _) with false; [done|].
        symmetry. apply not_true_is_false. intros [H1 H2]%andb_true_iff.
        apply Hn. split; [by apply String.eqb_eq|].
        apply negb_true_iff in H2. by apply String.eqb_neq. }
  apply (H []).
Qed.

Lemma overlay_loop_seen (r : Renderer) (outputDir : string)
    (scenes : list ScriptScene) :
  ∀ i cur seen w,
    (overlay_loop env r i scenes cur outputDir seen w).1.2 = seen ++ scenes.
Proof.
  induction scenes as [|s rest IH]; intros i cur seen w.
  - cbn. by rewrite app_nil_r.
  - cbn [overlay_loop]. rewrite bind_run.
    destruct (applyOneProofOverlay env r cur s outputDir i w) as [[v|msg] w1];
      rewrite IH, <- (assoc_L (++)); done.
Qed.

Lemma applyProofOverlays_seen (r : Renderer) (script : Script)
    (videoFile outputDir : string) (w : World) :
  (applyProofOverlays env r script videoFile outputDir w).1.2
  = filter overlay_target (Scenes script).
Proof.
  unfold applyProofOverlays. rewrite proofScenes_filter.
  case_bool_decide as Hl.
  - cbn. by destruct (filter overlay_target (Scenes script)).
  - by rewrite overlay_loop_seen.
Qed.

(** C8.  The overlay step treats exactly the scenes that, after
    resolution, are still typed [proof] and have a visual file, in
    order.  A scene declared [proof] is afterwards typed [proof] or
    [dramatic]; it is rewritten to [dramatic] exactly when no evidence
    image was found for it, and such a scene is not among the scenes
    treated. *)
Theorem C8_overlays_skip_downgraded (a : Assembler) (r : Renderer)
    (script : Script) (story : Story) (outputDir videoFile renderDir : string)
    (w w2 : World) :
  let script' := (Run env a script story outputDir w).1.1.2 in
  let seen := (applyProofOverlays env r script' videoFile renderDir w2).1.2 in
  seen = filter overlay_target (Scenes script')
  ∧ (∀ s', s' ∈ seen ↔ s' ∈ Scenes script' ∧ SceneType s' = "proof"
                         ∧ VisualFile s' ≠ "")
  ∧ (∀ k s s',
       Scenes script !! k = Some s → Scenes script' !! k = Some s' →
       SceneType s = "proof" →
       (SceneType s' = "proof" ∨ SceneType s' = "dramatic")
       ∧ (SceneType s' = "dramatic" → s' ∉ seen))
  ∧ (∀ a0 i s w0,
       SceneType s = "proof" →
       SceneType (resolve_scene env a0 i s story
                    (filepath_Join outputDir "visuals") w0).1.1.2
       = if is_Ok (FetchProofImage env (proofScraper a0) s story
                     (filepath_Join outputDir "visuals") w0).1
         then "proof" else "dramatic").
Proof.
  intros script' seen.
  assert (Hseen : seen = filter overlay_target (Scenes script')).
  { apply applyProofOverlays_seen. }
  split; [done|].
  split.
  { intros s'. rewrite Hseen, list_elem_of_filter. unfold overlay_target. tauto. }
  split.
  { intros k s s' Hk Hk' Hp.
    destruct (Run_positions a script story outputDir w) as [_ Hpos].
    assert (Hty : SceneType s' = "proof" ∨ SceneType s' = "dramatic").
    { destruct (Hpos k s s' Hk Hk') as [->|(a0 & w0 & i & ->)]; [by left|].
      destruct (resolve_scene_type a0 i s story
                  (filepath_Join outputDir "visuals") w0) as [H|H].
      - left. by rewrite H.
      - by right. }
    split; [done|]. intros Hd. rewrite Hseen, list_elem_of_filter.
    unfold overlay_target. intros [[Hpr _] _]. congruence. }
  intros a0 i s w0 Hp. by apply resolve_scene_proof_type.
Qed.

End AssemblerProofs.

End AssemblerProofs.

(** ** The fallback frame and the hard failures of the resolver *)

Module FallbackProofs.

Import types config visuals Examples ResolverSpec TransformTheorems
  AssemblerProofs.

Section FallbackProofs.

Context {std : GoStd} (env : Env).

(** [createFallbackFrame] returns its path whatever the subprocess did;
    the file is created only if the subprocess succeeded. *)
Lemma createFallbackFrame_run (visualDir : string) (i : Z) (w : World) :
  ∃ w',
    createFallbackFrame env visualDir i w = (fallback_file visualDir i, w')
    ∧ now w' = S (now w)
    ∧ files w'
      = (if env_exit env (now w)
         then {[fallback_file visualDir i]} ∪ files w else files w).
Proof.
  unfold createFallbackFrame, run_cmd. munfold. cbn.
  fold (fallback_file visualDir i).
  destruct (env_exit env (now w)); cbn; eexists; split; done.
Qed.

(** A [dramatic] scene whose generation fails gets the fallback frame
    and goes on to the transform. *)
Lemma resolve_dramatic_fallback (a : Assembler) (i : Z) (scene : ScriptScene)
    (story : Story) (visualDir : string) (w w1 : World) (e : string) :
  SceneType scene = "dramatic" →
  Fetch env scene visualDir w = (Err e, w1) →
  resolve_scene env a i scene story visualDir w
  = (let (img, w2) := createFallbackFrame env visualDir i w1 in
     still_tail env a img scene visualDir w2).
Proof.
  intros Ht Hf. unfold resolve_scene, still_tail. rewrite Ht.
  cbn [String.eqb Ascii.eqb Bool.eqb]. rewrite !bind_run, Hf. reflexivity.
Qed.

(** A [proof] scene with no evidence image is downgraded; when the
    generation fails too it gets the fallback frame. *)
Lemma resolve_proof_fallback (a : Assembler) (i : Z) (scene : ScriptScene)
    (story : Story) (visualDir : string) (w w1 w2 : World) (e e2 : string) :
  SceneType scene = "proof" →
  FetchProofImage env (proofScraper a) scene story visualDir w = (Err e, w1) →
  Fetch env (downgrade_proof scene) visualDir w1 = (Err e2, w2) →
  resolve_scene env a i scene story visualDir w
  = (let (img, w3) := createFallbackFrame env visualDir i w2 in
     still_tail env a img (downgrade_proof scene) visualDir w3).
Proof.
  intros Ht Hp Hf. unfold resolve_scene, still_tail. rewrite Ht.
  cbn [String.eqb Ascii.eqb Bool.eqb]. rewrite !bind_run, Hp.
  fold (downgrade_proof scene). rewrite !bind_run, Hf. reflexivity.
Qed.

(** The tail sets the visual file to the output of a transform that
    succeeded, and that file exists. *)
Lemma still_tail_Ok (a : Assembler) (img : string) (scene scene' : ScriptScene)
    (visualDir : string) (a' : Assembler) (w w' : World) :
  still_tail env a img scene visualDir w = (Ok tt, scene', a', w') →
  scene' = set_VisualFile (kenburns_file visualDir scene) scene
  ∧ VisualFile scene' ∈ files w'
  ∧ img ∈ files w.
Proof.
  unfold still_tail. rewrite bind_run.
  destruct (prepareImageWithKenBurns_run env a img scene visualDir w)
    as (w1 & -> & _ & Hok & _).
  destruct (bool_decide (img ∈ files w) && env_exit env (now w)) eqn:Hb;
    [|done].
  intros [= <- <- <-]. split; [done|]. split; [by apply Hok|].
  apply andb_true_iff in Hb as [Hb _]. by apply bool_decide_eq_true in Hb.
Qed.

(** Without the image the tail fails, and leaves the scene as it is. *)
Lemma still_tail_missing (a : Assembler) (img : string) (scene : ScriptScene)
    (visualDir : string) (w : World) :
  img ∉ files w →
  ∃ w', still_tail env a img scene visualDir w
        = (Err "ffmpeg ken burns", scene, a, w')
        ∧ files w' = files w.
Proof.
  intros Hm. unfold still_tail. rewrite bind_run.
  destruct (prepareImageWithKenBurns_run env a img scene visualDir w)
    as (w1 & -> & _ & _ & Hf).
  assert (Hb : bool_decide (img ∈ files w) && env_exit env (now w) = false).
  { by rewrite bool_decide_eq_false_2. }
  rewrite Hb. eexists. split; [reflexivity|]. by apply Hf.
Qed.

(** C1, where the code departs from the claim.  A [cinematic] scene
    for which no clip can be picked is downgraded to [dramatic]; when
    the image generation then fails, [Run] returns the error "visual
    fallback failed" at once: no fallback frame is made (the world is
    left as the failed generation left it) and the visual file of the
    scene is not set. *)
Theorem C1_clip_downgrade_hard_failure (a : Assembler) (i : Z)
    (scene : ScriptScene) (story : Story) (visualDir : string)
    (w w1 w2 : World) (am1 : AssetManager) (e1 e2 : string) :
  SceneType scene = "cinematic" →
  Pick env (assetManager a) scene w = (Err e1, am1, w1) →
  Fetch env (downgrade_clip scene) visualDir w1 = (Err e2, w2) →
  resolve_scene env a i scene story visualDir w
  = (Err ("scene " +:+ Sprintf_d i +:+ " visual fallback failed: " +:+ e2),
     downgrade_clip scene, set_assetManager am1 a, w2)
  ∧ VisualFile (downgrade_clip scene) = VisualFile scene
  ∧ SceneType (downgrade_clip scene) = "dramatic".
Proof.
  intros Ht Hp Hf. split.
  - unfold resolve_scene. rewrite Ht. cbn [String.eqb Ascii.eqb Bool.eqb].
    rewrite !bind_run, Hp. fold (downgrade_clip scene).
    rewrite !bind_run, Hf. reflexivity.
  - unfold downgrade_clip. cbn. by destruct (String.eqb (ImagePrompt scene) "").
Qed.

(** C10, as the code has it.  [createFallbackFrame] drops the result
    of its subprocess and always returns the path, so the path may name
    a file that was never created.  The visual file of the scene is not
    that path: on the paths through the fallback frame it is the output
    of the still transform, set only when the transform succeeded, and
    then the file exists; when the frame is missing the transform fails,
    [Run] returns its error and the scene is left without a visual
    file. *)
Theorem C10_fallback_frame_unchecked (a : Assembler) (i : Z)
    (scene : ScriptScene) (story : Story) (visualDir : string) (w : World) :
  (* the path is returned whatever happened *)
  (createFallbackFrame env visualDir i w).1 = fallback_file visualDir i
  ∧ (env_exit env (now w) = false →
     files (createFallbackFrame env visualDir i w).2 = files w)
  (* the dramatic path through the fallback frame *)
  ∧ (∀ e w1,
       SceneType scene = "dramatic" →
       Fetch env scene visualDir w = (Err e, w1) →
       (∀ scene' a' w',
          resolve_scene env a i scene story visualDir w = (Ok tt, scene', a', w') →
          VisualFile scene' = kenburns_file visualDir scene
          ∧ VisualFile scene' ∈ files w')
       ∧ (fallback_file visualDir i ∉ files w1 → env_exit env (now w1) = false →
          ∃ w',
            resolve_scene env a i scene story visualDir w
            = (Err "ffmpeg ken burns", scene, a, w')))
  (* the downgraded proof path through the fallback frame *)
  ∧ (∀ e e2 w1 w2,
       SceneType scene = "proof" →
       FetchProofImage env (proofScraper a) scene story visualDir w = (Err e, w1) →
       Fetch env (downgrade_proof scene) visualDir w1 = (Err e2, w2) →
       (∀ scene' a' w',
          resolve_scene env a i scene story visualDir w = (Ok tt, scene', a', w') →
          VisualFile scene' = kenburns_file visualDir (downgrade_proof scene)
          ∧ VisualFile scene' ∈ files w')
       ∧ (fallback_file visualDir i ∉ files w2 → env_exit env (now w2) = false →
          ∃ w',
            resolve_scene env a i scene story visualDir w
            = (Err "ffmpeg ken burns", downgrade_proof scene, a, w'))).
Proof.
  split.
  { by destruct (createFallbackFrame_run visualDir i w) as (w' & -> & _). }
  split.
  { intros Hex. destruct (createFallbackFrame_run visualDir i w) as (w' & -> & _ & Hf).
    by rewrite Hex in Hf. }
  split.
  - intros e w1 Ht Hf. rewrite (resolve_dramatic_fallback a i scene story _ _ _ _ Ht Hf).
    destruct (createFallbackFrame_run visualDir i w1) as (w2 & -> & _ & Hfiles).
    split.
    + intros scene' a' w' (-> & Hin & _)%still_tail_Ok. done.
    + intros Hm Hex. rewrite Hex in Hfiles.
      destruct (still_tail_missing a (fallback_file visualDir i) scene visualDir w2)
        as (w' & -> & _); [by rewrite Hfiles|]. eauto.
  - intros e e2 w1 w2 Ht Hp Hf.
    rewrite (resolve_proof_fallback a i scene story _ _ _ _ _ _ Ht Hp Hf).
    destruct (createFallbackFrame_run visualDir i w2) as (w3 & -> & _ & Hfiles).
    split.
    + intros scene' a' w' (-> & Hin & _)%still_tail_Ok. done.
    + intros Hm Hex. rewrite Hex in Hfiles.
      destruct (still_tail_missing a (fallback_file visualDir i)
                  (downgrade_proof scene) visualDir w3)
        as (w' & -> & _); [by rewrite Hfiles|]. eauto.
Qed.

End FallbackProofs.

(** The claim fails: no scene resolved through the fallback frame,
    be it declared [dramatic] or downgraded from [proof], ends with a
    visual file that does not exist. *)
Lemma C10_counterexample :
  ¬ ∃ (std : GoStd) (env : Env) (a : Assembler) (i : Z) (scene : ScriptScene)
      (story : Story) (visualDir : string) (w w1 w2 : World) (e e2 : string)
      (scene' : ScriptScene) (a' : Assembler) (w' : World),
      ((SceneType scene = "dramatic"
        ∧ Fetch env scene visualDir w = (Err e, w1))
       ∨ (SceneType scene = "proof"
          ∧ FetchProofImage env (proofScraper a) scene story visualDir w
            = (Err e, w1)
          ∧ Fetch env (downgrade_proof scene) visualDir w1 = (Err e2, w2)))
      ∧ resolve_scene env a i scene story visualDir w = (Ok tt, scene', a', w')
      ∧ VisualFile scene' ≠ ""
      ∧ VisualFile scene' ∉ files w'.
Proof.
  intros (std & env & a & i & scene & story & visualDir & w & w1 & w2 & e & e2
          & scene' & a' & w' & Hpath & Hr & _ & Hn).
  destruct Hpath as [[Ht Hf]|(Ht & Hp & Hf)].
  - rewrite (@resolve_dramatic_fallback std env a i scene story _ _ _ _ Ht Hf) in Hr.
    destruct (@createFallbackFrame_run std env visualDir i w1) as (w3 & Hc & _).
    rewrite Hc in Hr. apply still_tail_Ok in Hr as (_ & Hin & _). done.
  - rewrite (@resolve_proof_fallback std env a i scene story _ _ _ _ _ _ Ht Hp Hf)
      in Hr.
    destruct (@createFallbackFrame_run std env visualDir i w2) as (w3 & Hc & _).
    rewrite Hc in Hr. apply still_tail_Ok in Hr as (_ & Hin & _). done.
Qed.

End FallbackProofs.

(** ** The theorems at concrete inputs *)

Module Witnesses.

Import types config visuals render Examples ClipSpec EvidenceSpec TimelineSpec
  ResolverSpec PickTheorems EvidenceProofs OverlayProofs TransformTheorems
  AssemblerProofs FallbackProofs.

Open Scope Q_scope.

#[local] Existing Instance ascii_std.

(** The empty pool and a dead generation endpoint: the run stops at the
    first scene, which is left without a visual file. *)
Lemma C1_witness :
  resolve_scene env_offline assembler0 0 scene0 story0 "out/visuals" world0
  = (Err "scene 0 visual fallback failed: pollinations fetch failed after 3 attempts: transport error",
     downgrade_clip scene0, assembler0,
     {| now := 3; files := ∅;
        events := events (Fetch env_offline (downgrade_clip scene0)
                            "out/visuals" world0).2 |})
  ∧ VisualFile (downgrade_clip scene0) = "".
Proof.
  edestruct (@C1_clip_downgrade_hard_failure ascii_std env_offline assembler0 0
               scene0 story0 "out/visuals" world0) as (H1 & H2 & _).
  - reflexivity.
  - vm_compute. reflexivity.
  - vm_compute. reflexivity.
  - split; [|exact H2]. rewrite H1. vm_compute. reflexivity.
Defined.

Example Run_stops_on_clip_downgrade :
  let '(r, script', _, _) :=
    Run env_offline assembler0 script0 story0 "out" world0 in
  r = Err "scene 0 visual fallback failed: pollinations fetch failed after 3 attempts: transport error"
  ∧ VisualFile <$> Scenes script' = [""]
  ∧ SceneType <$> Scenes script' = ["dramatic"].
Proof. vm_compute. repeat split. Qed.

(** The sibling path: a [dramatic] scene in the same environment gets
    the fallback frame and a visual file. *)
Example Run_dramatic_falls_back :
  let '(r, script', _, w') :=
    Run env_offline assembler0 (set_Scenes [scene_dramatic] script0)
      story0 "out" world0 in
  r = Ok tt
  ∧ VisualFile <$> Scenes script' = ["out/visuals/kenburns_000.mp4"]
  ∧ "out/visuals/fallback_000.jpg" ∈ files w'.
Proof. vm_compute. repeat split. Qed.

Lemma C2_witness :
  ∃ files,
    NoDup files
    ∧ oks (pick_seq env_offline am_four
             [(scene0, world0); (scene0, world0); (scene0, world0);
              (scene0, world0); (scene0, world0)]).1
      = filepath_Join "assets/video" <$> files
    ∧ length files = 4%nat.
Proof.
  destruct (@C2_no_clip_twice ascii_std env_offline am_four
              [(scene0, world0); (scene0, world0); (scene0, world0);
               (scene0, world0); (scene0, world0)])
    as (files & Hnd & Hoks & _).
  exists files. split; [exact Hnd|]. split; [exact Hoks|].
  apply (f_equal length) in Hoks. rewrite length_fmap in Hoks.
  rewrite <- Hoks. vm_compute. reflexivity.
Defined.

Lemma C3_witness :
  ∃ pick,
    (Pick env_offline am_four scene0 world0).1.1
    = Ok (filepath_Join "assets/video" (file pick))
    ∧ score pick = 15%Z.
Proof.
  destruct (@C3_score_and_top3_pick ascii_std env_offline am_four scene0 world0)
    as (_ & _ & H).
  edestruct H as (_ & _ & _ & _ & pick & Hp & HP).
  - vm_compute. reflexivity.
  - exists pick. split; [exact HP|].
    vm_compute in Hp. injection Hp as <-. reflexivity.
Defined.

Lemma C4_witness :
  ∃ msg w',
    downloadFile env_tiny "http://example.org/a.jpg" "out.jpg" world0
    = (Err msg, w')
    ∧ files w' = files world0.
Proof.
  destruct (@C4_evidence_fallback_chain ascii_std env_tiny
              {| serpAPIKey := "" |} scene0 story0 "out" world0)
    as (_ & _ & _ & _ & _ & _ & H).
  eapply H.
  - reflexivity.
  - reflexivity.
  - vm_compute. lia.
Defined.

Lemma C5_witness :
  endTime renderer0 scene0 == 0 + 3 + 2 * (4 # 10)
  ∧ eval (xExpr renderer0 scene0) (38 # 10) = Some (inject_Z 1920).
Proof.
  destruct (C5_overlay_window renderer0 scene0) as (H1 & _ & _ & _ & _ & H).
  destruct H as (_ & _ & _ & H2 & _).
  - vm_compute. reflexivity.
  - vm_compute. reflexivity.
  - vm_compute. reflexivity.
  - reflexivity.
  - vm_compute. discriminate.
  - split; [exact H1|]. apply H2. vm_compute. discriminate.
Defined.

Lemma C8_witness :
  ∃ s',
    Scenes (Run env_offline assembler0 script_proof story0 "out" world0).1.1.2
      !! 0%nat = Some s'
    ∧ SceneType s' = "dramatic"
    ∧ s' ∉ (applyProofOverlays env_offline renderer0
              (Run env_offline assembler0 script_proof story0 "out" world0).1.1.2
              "visuals_raw.mp4" "out" world0).1.2.
Proof.
  destruct (@C8_overlays_skip_downgraded ascii_std env_offline assembler0
              renderer0 script_proof story0 "out" "visuals_raw.mp4" "out"
              world0 world0) as (_ & _ & H & _).
  edestruct (H 0%nat) as [_ Hn].
  - reflexivity.
  - vm_compute. reflexivity.
  - reflexivity.
  - eexists. split; [vm_compute; reflexivity|]. split; [reflexivity|].
    apply Hn. reflexivity.
Defined.

Lemma C10_witness :
  ∃ w',
    resolve_scene env_broken assembler0 0 scene_dramatic story0 "out/visuals"
      world0
    = (Err "ffmpeg ken burns", scene_dramatic, assembler0, w').
Proof.
  destruct (@C10_fallback_frame_unchecked ascii_std env_broken assembler0 0
              scene_dramatic story0 "out/visuals" world0) as (_ & _ & H & _).
  edestruct H as [_ Hm].
  - reflexivity.
  - vm_compute. reflexivity.
  - apply Hm; [|reflexivity]. cbn. apply not_elem_of_empty.
Defined.

(** The text of the filter graph of an overlay, for a scene starting at
    0 s with the default hold of 3 s and an animation of 0.4 s. *)
Example proofFilter_text :
  proofFilter renderer0 scene0
  = "[1:v]scale=950:630,pad=960:640:5:5:black[proof_bordered];[0:v]eq=brightness='if(between(t,0.000,3.800), 0.40, 1.0)'[bg_dimmed];[bg_dimmed][proof_bordered]overlay=x='if(lt(t,0.400), if(lt(t-0.000,0.400), 1920+(480-1920)*((t-0.000)/0.400), 480), if(lt(t,3.800), 480+(1920-480)*((t-3.400)/0.400), 1920))':y=220:enable='between(t,0.000,3.800)'[out]".
Proof. vm_compute. reflexivity. Qed.

Example extractSearchQuery_text :
  @extractSearchQuery ascii_std
    "The detective found nobody inside the abandoned house, near Springfield."
  = "detective found inside abandoned".
Proof. vm_compute. reflexivity. Qed.

End Witnesses.
(** * Further properties of the code *)

(** ** The clip library *)

Module ClipLibrary.

Import types config visuals ClipSpec ClipProofs PickProofs PickTheorems
  LibrarySpec.

(** One insertion of [sortScored]: the element moves left past exactly
    the entries with a strictly lower score. *)
Lemma inner_insert (pre : list scored) :
  ∀ a post,
    ∃ p1 p2,
      pre = p1 ++ p2
      ∧ sortScored_inner (length pre) (pre ++ a :: post) = p1 ++ a :: p2 ++ post
      ∧ Forall (λ b, (score b < score a)%Z) p2.
Proof.
  induction pre as [|b p IH] using rev_ind; intros a post.
  - exists [], []. done.
  - rewrite length_app. simpl. rewrite Nat.add_1_r. cbn [sortScored_inner].
    rewrite <- (assoc_L (++)). simpl.
    replace ((p ++ b :: a :: post) !! S (length p)) with (Some a); cycle 1.
    { rewrite lookup_app_r by lia.
      replace (S (length p) - length p)%nat with 1%nat by lia. done. }
    rewrite (list_lookup_middle p (a :: post) b (length p) eq_refl).
    destruct (Z.gtb_spec (score a) (score b)) as [Hgt|Hle].
    + rewrite (insert_app_r_alt _ _ (S (length p))) by lia.
      replace (S (length p) - length p)%nat with 1%nat by lia.
      rewrite (insert_app_r_alt _ _ (length p)) by lia.
      rewrite Nat.sub_diag. simpl.
      destruct (IH a (b :: post)) as (p1 & p2 & -> & Heq & Hlow).
      exists p1, (p2 ++ [b]). rewrite Heq, <- !(assoc_L (++)). simpl.
      split; [done|split; [done|]].
      apply Forall_app. split; [done|]. repeat constructor. lia.
    + exists (p ++ [b]), []. rewrite app_nil_r, <- !(assoc_L (++)). done.
Qed.

Lemma filter_none {A} (P : A → Prop) `{!∀ x, Decision (P x)} (l : list A) :
  (∀ x, x ∈ l → ¬ P x) → filter P l = [].
Proof.
  induction l as [|x l IH]; intros Hl; [done|].
  rewrite filter_cons. destruct (decide (P x)) as [HP|_].
  - destruct (Hl x); [left | done].
  - apply IH. intros y Hy. apply Hl. by right.
Qed.

Lemma filter_score_insert (k : Z) (a : scored) (p1 p2 : list scored) :
  Forall (λ b, (score b < score a)%Z) p2 →
  filter (λ x, score x = k) (p1 ++ a :: p2)
  = filter (λ x, score x = k) ((p1 ++ p2) ++ [a]).
Proof.
  intros Hlow. rewrite !filter_app, !filter_cons, filter_nil.
  destruct (decide (score a = k)) as [Hk|Hk]; [|by rewrite app_nil_r].
  assert (filter (λ x, score x = k) p2 = []) as ->.
  { induction Hlow as [|b p2 Hb _ IH]; [done|].
    rewrite filter_cons. destruct (decide (score b = k)); [lia|done]. }
  by rewrite app_nil_r.
Qed.

Lemma outer_stable (k : Z) (rest : list scored) :
  ∀ pre,
    filter (λ x, score x = k)
      (foldl (λ s i, sortScored_inner i s) (pre ++ rest)
         (seq (length pre) (length rest)))
    = filter (λ x, score x = k) (pre ++ rest).
Proof.
  induction rest as [|a rest IH]; intros pre; simpl; [done|].
  destruct (inner_insert pre a rest) as (p1 & p2 & Hpre & Heq & Hlow).
  rewrite Heq.
  replace (p1 ++ a :: p2 ++ rest) with ((p1 ++ a :: p2) ++ rest)
    by (by rewrite <- (assoc_L (++))).
  replace (S (length pre)) with (length (p1 ++ a :: p2))
    by (rewrite Hpre, !length_app; simpl; lia).
  rewrite IH, (filter_app _ (p1 ++ a :: p2) rest).
  rewrite (filter_score_insert k a p1 p2 Hlow), <- Hpre.
  rewrite !filter_app, !filter_cons, filter_nil, <- !(assoc_L (++)).
  by destruct (decide (score a = k)).
Qed.

(** X1.  [sortScored] is a stable sort by descending score: the result
    is a rearrangement of the input, no entry is followed by one with a
    higher score, and the entries of any one score keep the order they
    came in. *)
Theorem sortScored_stable (s : list scored) :
  sortScored s ≡ₚ s
  ∧ StronglySorted desc (sortScored s)
  ∧ ∀ k, filter (λ x, score x = k) (sortScored s) = filter (λ x, score x = k) s.
Proof.
  destruct (SortScored.sortScored_spec s) as [Hp Hs].
  split; [done|split; [done|]]. intros k.
  destruct s as [|x rest]; [done|].
  unfold sortScored.
  replace (length (x :: rest) - 1)%nat with (length rest) by (simpl; lia).
  apply (outer_stable k rest [x]).
Qed.

Section ClipLibrary.

Context {std : GoStd} (env : Env).

Lemma no_candidate_iff (am : AssetManager) (scene : ScriptScene)
    (code : nat → nat) :
  length (sortScored (candidates_of am scene
                        (shuffle code (map_to_list (tags am))))) = 0%nat
  ↔ ∀ f, is_Some (tags am !! f) → map_get (usedInRun am) f = true.
Proof.
  destruct (SortScored.sortScored_spec
              (candidates_of am scene (shuffle code (map_to_list (tags am)))))
    as [Hp _].
  rewrite Hp. unfold candidates_of. rewrite length_fmap.
  rewrite length_zero_iff_nil. split.
  - intros Hnil f [t Ht].
    destruct (map_get (usedInRun am) f) eqn:Hu; [done|].
    assert (Hin : (f, t) ∈ filter (unused am)
                    (shuffle code (map_to_list (tags am)))).
    { apply list_elem_of_filter. split; [done|].
      rewrite shuffle_perm. by apply elem_of_map_to_list. }
    rewrite Hnil in Hin. by apply elem_of_nil in Hin.
  - intros Hall. apply filter_none. intros [f t] Hin Hun.
    rewrite shuffle_perm in Hin. apply elem_of_map_to_list in Hin.
    unfold unused in Hun. simpl in Hun.
    rewrite Hall in Hun; [done | by exists t].
Qed.

(** [Pick] succeeds exactly when a clip is unused. *)
Lemma Pick_succeeds_iff_unused_aux (am : AssetManager) (scene : ScriptScene)
    (w : World) :
  is_Ok (Pick env am scene w).1.1 = true
  ↔ ∃ f, is_Some (tags am !! f) ∧ map_get (usedInRun am) f = false.
Proof.
  pose proof (Pick_spec env am scene w) as Hspec.
  pose proof (Pick_choose_spec env am scene w) as Hch.
  pose proof (no_candidate_iff am scene (env_range env (now w))) as Hnone.
  cbv zeta in Hch. rewrite Hch in Hspec. clear Hch.
  destruct (bool_decide (size (tags am) = 0%nat)) eqn:Hsz.
  - apply bool_decide_eq_true, map_size_empty_iff in Hsz.
    rewrite Hspec. simpl. split; [done|].
    intros (f & [t Ht] & _). rewrite Hsz in Ht. by rewrite lookup_empty in Ht.
  - destruct (bool_decide _) eqn:Hlen in Hspec.
    + apply bool_decide_eq_true in Hlen. rewrite Hspec. simpl.
      split; [done|]. intros (f & Hf & Hu).
      rewrite (proj1 Hnone Hlen f Hf) in Hu. done.
    + destruct Hspec as (pick & w'' & Hpick & ->). simpl. split; [|done].
      intros _. exists (file pick).
      apply list_elem_of_lookup_2 in Hpick.
      by destruct (sorted_candidates_elem am scene _ pick Hpick).
Qed.

(** X2.  [Pick] succeeds exactly when the library holds a clip that is
    not yet marked used in this run.  With an empty library it fails with
    [no video assets found in <dir>] and touches nothing; with every clip
    used it fails with [all <n> video clips have been used in this
    video], writes no file and leaves the asset manager as it was. *)
Theorem Pick_succeeds_iff_unused (am : AssetManager) (scene : ScriptScene)
    (w : World) :
  let r := (Pick env am scene w).1.1 in
  let am' := (Pick env am scene w).1.2 in
  let w' := (Pick env am scene w).2 in
  (is_Ok r = true
   ↔ ∃ f, is_Some (tags am !! f) ∧ map_get (usedInRun am) f = false)
  ∧ (tags am = ∅ →
     r = Err ("no video assets found in " +:+ AssetsVideo (Paths (cfg am)))
     ∧ am' = am ∧ w' = w)
  ∧ (tags am ≠ ∅ →
     (∀ f, is_Some (tags am !! f) → map_get (usedInRun am) f = true) →
     r = Err ("all " +:+ Sprintf_d (Z.of_nat (size (tags am)))
              +:+ " video clips have been used in this video")
     ∧ am' = am ∧ files w' = files w ∧ events w' = events w).
Proof.
  intros r am' w'. subst r am' w'.
  pose proof (Pick_spec env am scene w) as Hspec.
  pose proof (Pick_choose_spec env am scene w) as Hch.
  pose proof (no_candidate_iff am scene (env_range env (now w))) as Hnone.
  cbv zeta in Hch. rewrite Hch in Hspec. clear Hch.
  destruct (decide (tags am = ∅)) as [Hempty|Hne].
  - assert (Hsz : size (tags am) = 0%nat) by (by apply map_size_empty_iff).
    rewrite bool_decide_eq_true_2 in Hspec by done.
    rewrite Hspec. simpl. split; [|split; [done|done]].
    split; [done|]. intros (f & [t Ht] & _). rewrite Hempty in Ht.
    by rewrite lookup_empty in Ht.
  - assert (Hsz : size (tags am) ≠ 0%nat)
      by (by rewrite map_size_empty_iff).
    rewrite bool_decide_eq_false_2 in Hspec by done.
    split; [|split; [done|]].
    + destruct (bool_decide _) eqn:Hlen in Hspec.
      * apply bool_decide_eq_true in Hlen. rewrite Hspec. simpl.
        split; [done|]. intros (f & Hf & Hu).
        rewrite (proj1 Hnone Hlen f Hf) in Hu. done.
      * apply bool_decide_eq_false in Hlen.
        destruct Hspec as (pick & w'' & Hpick & ->). simpl. split; [|done].
        intros _. exists (file pick).
        apply list_elem_of_lookup_2 in Hpick.
        by destruct (sorted_candidates_elem am scene _ pick Hpick).
    + intros _ Hall. apply Hnone in Hall.
      rewrite bool_decide_eq_true_2 in Hspec by done.
      rewrite Hspec. done.
Qed.


Lemma unused_after_mark (am : AssetManager) (f : string)
    (l : list (string * list string)) :
  NoDup l.*1 →
  map_get (usedInRun am) f = false →
  length (filter (unused am) l)
  = (length (filter (unused (marked am f)) l)
     + (if decide (f ∈ l.*1) then 1 else 0))%nat.
Proof.
  intros Hnd Hf. induction l as [|[g t] l IH]; [done|].
  rewrite fmap_cons in Hnd. cbn [fst] in Hnd.
  apply NoDup_cons in Hnd as [Hg Hnd]. specialize (IH Hnd).
  rewrite fmap_cons. cbn [fst].
  pose proof (elem_of_cons (l.*1) f g) as Hiff.
  rewrite !filter_cons.
  destruct (decide (unused am (g, t))) as [Hu|Hu];
    destruct (decide (unused (marked am f) (g, t))) as [Hm|Hm];
    unfold unused in Hu, Hm; cbn [fst] in Hu, Hm;
    rewrite marked_get in Hm;
    destruct (decide (f = g)) as [Hfg|Hfg]; try subst g;
    match goal with
    | |- context [decide (f ∈ ?x :: l.*1)] =>
        destruct (decide (f ∈ x :: l.*1)) as [Hin|Hin]
    end;
    destruct (decide (f ∈ l.*1)) as [Hin'|Hin'];
    cbn [length] in *; try lia; try congruence; try tauto.
Qed.

Lemma unused_count_marked (am : AssetManager) (f : string) :
  map_get (usedInRun am) f = false → is_Some (tags am !! f) →
  unused_count am = S (unused_count (marked am f)).
Proof.
  intros Hf [t Ht]. unfold unused_count.
  rewrite (unused_after_mark am f _ (NoDup_fst_map_to_list _) Hf).
  change (tags (marked am f)) with (tags am).
  destruct (decide _) as [_|Hn]; [lia|].
  destruct Hn. apply list_elem_of_fmap. exists (f, t). split; [done|].
  by apply elem_of_map_to_list.
Qed.

Lemma unused_count_pos (am : AssetManager) :
  (0 < unused_count am)%nat
  ↔ ∃ f, is_Some (tags am !! f) ∧ map_get (usedInRun am) f = false.
Proof.
  unfold unused_count. split.
  - destruct (filter _ _) as [|[f t] l] eqn:Hfl; [simpl; lia|]. intros _.
    assert (Hin : (f, t) ∈ filter (unused am) (map_to_list (tags am)))
      by (rewrite Hfl; left).
    apply list_elem_of_filter in Hin as [Hun Hin].
    apply elem_of_map_to_list in Hin. exists f. split; [by exists t | done].
  - intros (f & [t Ht] & Hf).
    assert (Hin : (f, t) ∈ filter (unused am) (map_to_list (tags am))).
    { apply list_elem_of_filter. split; [done | by apply elem_of_map_to_list]. }
    destruct (filter _ _); [by apply elem_of_nil in Hin | simpl; lia].
Qed.

Lemma Pick_ok_iff (am : AssetManager) (scene : ScriptScene) (w : World) :
  is_Ok (Pick env am scene w).1.1 = bool_decide (0 < unused_count am)%nat.
Proof.
  pose proof (Pick_succeeds_iff_unused_aux am scene w) as Hiff.
  rewrite <- unused_count_pos in Hiff.
  destruct (is_Ok _); symmetry.
  - apply bool_decide_eq_true. by apply Hiff.
  - apply bool_decide_eq_false. intros H. apply Hiff in H. done.
Qed.

(** X3.  Within one run the selections that succeed are the first ones:
    if [n] clips are unused at the start, the first [n] calls of [Pick]
    succeed and every later call fails, whatever the scenes ask for. *)
Theorem pick_seq_prefix (steps : list (ScriptScene * World)) :
  ∀ am k r,
    (pick_seq env am steps).1 !! k = Some r →
    is_Ok r = bool_decide (k < unused_count am)%nat.
Proof.
  induction steps as [|[scene w] rest IH]; intros am k r; [done|].
  simpl.
  pose proof (Pick_ok_iff am scene w) as Hok.
  destruct (Pick env am scene w) as [[r0 am'] w'] eqn:HP.
  pose proof (Pick_inv env am am' scene w w' r0 HP) as Hinv. simpl in *.
  specialize (IH am').
  destruct (pick_seq env am' rest) as [rs am''] eqn:Hseq. simpl in *.
  destruct k as [|k]; simpl.
  - intros [= <-]. done.
  - intros Hk. rewrite (IH k r Hk).
    destruct r0 as [path|msg]; simpl in *.
    + destruct Hinv as (f & _ & -> & Hf & Htag).
      rewrite (unused_count_marked am f Hf Htag).
      apply bool_decide_ext. lia.
    + subst am'. symmetry in Hok. apply bool_decide_eq_false in Hok.
      rewrite !bool_decide_eq_false_2; [done | lia | lia].
Qed.


End ClipLibrary.

End ClipLibrary.
(** ** Loading the clip library *)

Module Loading.

Import types config visuals ClipSpec ResolverSpec AssemblerProofs.

Section Loading.

Context {std : GoStd} {json : GoJson} (env : Env) (host : Host).

(** The loop over the decoded object, entry by entry. *)
Lemma load_loop_lookup (l : list (string * string)) :
  NoDup l.*1 →
  ∀ (acc : gmap string (list string)) (k : string),
    foldl (λ result '(k, v),
             if String.prefix "_" k then result
             else
               match decodeStrings v with
               | None => result
               | Some tags => <[k := tags]> result
               end)
          acc l !! k
    = match (list_to_map l : gmap string string) !! k with
      | Some v =>
          if String.prefix "_" k then acc !! k
          else
            match decodeStrings v with
            | Some tags => Some tags
            | None => acc !! k
            end
      | None => acc !! k
      end.
Proof.
  induction l as [|[k0 v0] l IH]; intros Hnd acc k.
  - simpl. by rewrite lookup_empty.
  - rewrite fmap_cons in Hnd. cbn [fst] in Hnd.
    apply NoDup_cons in Hnd as [Hk0 Hnd].
    cbn [foldl list_to_map foldr uncurry]. rewrite (IH Hnd). clear IH.
    destruct (decide (k = k0)) as [->|Hne].
    + rewrite lookup_insert_eq. cbn [fst snd].
      rewrite (not_elem_of_list_to_map_1 l k0 Hk0).
      destruct (String.prefix "_" k0); [done|].
      cbn [fst snd].
      destruct (decodeStrings v0); [by rewrite lookup_insert_eq | done].
    + cbn [fst snd]. rewrite (lookup_insert_ne _ k0 k) by done.
      destruct (String.prefix "_" k0); [done|].
      destruct (decodeStrings v0); [|done].
      by rewrite (lookup_insert_ne _ k0 k).
Qed.

Lemma load_entries_lookup (raw : gmap string string) (code : nat → nat)
    (k : string) :
  load_entries (shuffle code (map_to_list raw)) !! k
  = if String.prefix "_" k then None else raw !! k ≫= decodeStrings.
Proof.
  unfold load_entries.
  assert (Hp : shuffle code (map_to_list raw) ≡ₚ map_to_list raw)
    by apply shuffle_perm.
  assert (Hnd : NoDup (shuffle code (map_to_list raw)).*1).
  { rewrite Hp. apply NoDup_fst_map_to_list. }
  rewrite (load_loop_lookup _ Hnd).
  rewrite (list_to_map_proper _ _ Hnd Hp), list_to_map_to_list, lookup_empty.
  destruct (raw !! k) as [v|]; simpl; [|by destruct (String.prefix "_" k)].
  destruct (String.prefix "_" k); [done|]. by destruct (decodeStrings v).
Qed.

(** X5.  What [loadTagsJSON] makes of the tags file.  A missing file is
    an empty library and no error; a file that cannot be read or is not
    a JSON object is an error; otherwise the library holds exactly the
    entries whose key does not start with an underscore and whose value
    decodes as a list of strings, whatever the order in which the
    entries are visited. *)
Theorem loadTagsJSON_contents (path : string) (w : World) :
  match host_read host path with
  | NotExist => loadTagsJSON env host path w = (Ok ∅, w)
  | ReadError msg => loadTagsJSON env host path w = (Err msg, w)
  | Contents data =>
      match decodeRawMap data with
      | None => ∃ msg, loadTagsJSON env host path w = (Err msg, w)
      | Some raw =>
          ∃ tags w',
            loadTagsJSON env host path w = (Ok tags, w')
            ∧ files w' = files w ∧ events w' = events w
            ∧ ∀ k, tags !! k
                   = if String.prefix "_" k then None
                     else raw !! k ≫= decodeStrings
      end
  end.
Proof.
  unfold loadTagsJSON. destruct (host_read host path) as [|msg|data]; try done.
  destruct (decodeRawMap data) as [raw|]; [|by eexists].
  unfold range_map. munfold. simpl. eexists _, _.
  split; [done|split; [done|split; [done|]]].
  intros k. apply load_entries_lookup.
Qed.

(** X6.  Without a tags file the Assembler is still created, with an
    empty library: every [Pick] on it fails with [no video assets found
    in <dir>] and touches nothing, and every [cinematic] scene it
    resolves comes out typed [dramatic]. *)
Theorem NewAssembler_without_tags (cfg : Config) (runID : string) (w : World) :
  host_read host (VideoTags (Paths cfg)) = NotExist →
  ∃ a,
    NewAssembler env host cfg runID w = (Ok a, w)
    ∧ Assembler_cfg a = cfg
    ∧ tags (assetManager a) = ∅
    ∧ (∀ scene w1,
         Pick env (assetManager a) scene w1
         = (Err ("no video assets found in " +:+ AssetsVideo (Paths cfg)),
            assetManager a, w1))
    ∧ (∀ i scene story visualDir w1,
         SceneType scene = "cinematic" →
         SceneType (resolve_scene env a i scene story visualDir w1).1.1.2
         = "dramatic").
Proof.
  intros Hread. unfold NewAssembler, NewAssetManager, loadTagsJSON.
  rewrite Hread. munfold. simpl. eexists. split; [done|]. simpl.
  split; [done|split; [done|]].
  assert (HP : ∀ scene w1,
             Pick env
               {| visuals.cfg := cfg; tags := ∅;
                  usageLog := loadUsageLog host (ClipUsageLog (Paths cfg));
                  runID := runID; usedInRun := ∅ |} scene w1
             = (Err ("no video assets found in " +:+ AssetsVideo (Paths cfg)),
                {| visuals.cfg := cfg; tags := ∅;
                   usageLog := loadUsageLog host (ClipUsageLog (Paths cfg));
                   runID := runID; usedInRun := ∅ |}, w1)).
  { intros scene w1. unfold Pick, Pick_choose. simpl.
    rewrite map_size_empty. simpl. by rewrite bind_run, !ret_run. }
  split; [done|].
  intros i scene story visualDir w1 Ht.
  unfold resolve_scene. rewrite Ht. simpl. rewrite bind_run, HP.
  repeat mstep; simpl; try done;
    by destruct (String.eqb (ImagePrompt scene) "").
Qed.

End Loading.

End Loading.
(** ** Fetching images *)

Module Fetching.

Import types config visuals EvidenceSpec TraceSpec AssemblerProofs.

Section Fetching.

Context {std : GoStd} (env : Env).

Lemma WriteFile_run (path : string) (w : World) :
  ∃ w', WriteFile env path w = (env_write env (now w), w')
        ∧ events w' = events w ++ [EvWrite path]
        ∧ files w' = (if env_write env (now w) then {[path]} ∪ files w
                      else files w).
Proof.
  unfold WriteFile. munfold. simpl.
  destruct (env_write env (now w)); simpl; eexists; done.
Qed.

(** One download by the image generator's client: what it returns, what
    it requests and what it writes. *)
Lemma downloadImage_run (url out : string) (w : World) :
  ∃ r w' new,
    downloadImage env url out w = (r, w')
    ∧ events w' = events w ++ new
    ∧ sleeps new = []
    ∧ (gets new = [] ∨ gets new = [url])
    ∧ files w' = (if is_Ok r then {[out]} ∪ files w else files w).
Proof.
  unfold downloadImage.
  destruct (url_ok url); simpl.
  2:{ eexists _, _, []. rewrite ret_run, app_nil_r. eauto 10. }
  unfold http_get. munfold. simpl.
  destruct (env_http env (now w) url) as [resp|]; simpl.
  2:{ eexists _, _, [EvGet url]. simpl. eauto 10. }
  destruct (StatusCode resp =? 200)%Z; simpl.
  2:{ eexists _, _, [EvGet url]. simpl. eauto 10. }
  destruct (RespBody resp) as [data|]; simpl.
  2:{ eexists _, _, [EvGet url]. simpl. eauto 10. }
  destruct (String.length data <? 100)%nat; simpl.
  { eexists _, _, [EvGet url]. simpl. eauto 10. }
  match goal with
  | |- context [WriteFile env out ?w0] =>
      destruct (WriteFile_run out w0) as (w1 & -> & Hev & Hfi)
  end.
  simpl in *. eexists _, w1, [EvGet url; EvWrite out].
  split; [done|]. rewrite Hev, Hfi, <- (assoc_L (++)). simpl.
  destruct (env_write env _); simpl; eauto 10.
Qed.

(** The retry loop from attempt [k] on. *)
Lemma fetch_attempts_run (url out : string) (attempts : list Z) :
  ∀ err w,
    ∃ r w' new,
      fetch_attempts env attempts url out err w = (r, w')
      ∧ events w' = events w ++ new
      ∧ (∀ u, u ∈ gets new → u = url)
      ∧ (length (gets new) ≤ length attempts)%nat
      ∧ match r with
        | Ok f =>
            f = out ∧ files w' = {[out]} ∪ files w
            ∧ ∃ n, (n < length attempts)%nat
                   ∧ sleeps new = (λ a, a * 3) <$> take n attempts
        | Err e =>
            files w' = files w
            ∧ sleeps new = (λ a, a * 3) <$> attempts
            ∧ ∃ last, e = "pollinations fetch failed after 3 attempts: " +:+ last
        end.
Proof.
  induction attempts as [|a rest IH]; intros err w.
  - simpl. rewrite ret_run. eexists _, _, []. rewrite app_nil_r.
    split; [done|split; [done|split]].
    { intros u Hu. by apply elem_of_nil in Hu. }
    split; [done|]. split; [done|split; [done|by eexists]].
  - cbn [fetch_attempts]. rewrite bind_run.
    destruct (downloadImage_run url out w) as (r & w1 & new1 & -> & Hev1 & Hs1 & Hg1 & Hf1).
    destruct r as [[]|e]; simpl in Hf1.
    + rewrite ret_run. eexists _, _, new1. split; [done|split; [done|]].
      split. { intros u Hu. destruct Hg1 as [Hg|Hg]; rewrite Hg in Hu.
               - by apply elem_of_nil in Hu.
               - by apply list_elem_of_singleton in Hu. }
      split. { destruct Hg1 as [-> | ->]; simpl; lia. }
      split; [done|split; [done|]]. exists 0%nat. simpl. split; [lia|done].
    + rewrite bind_run. unfold emit at 1.
      match goal with
      | |- context [fetch_attempts env rest url out e ?w0] =>
          destruct (IH e w0) as (r & w2 & new2 & -> & Hev2 & Hg2 & Hl2 & Hr2)
      end.
      simpl in Hev2.
      eexists r, w2, (new1 ++ EvSleep (a * 3) :: new2).
      split; [done|]. split.
      { rewrite Hev2, Hev1, <- !(assoc_L (++)). done. }
      assert (Hgets : gets (new1 ++ EvSleep (a * 3) :: new2)
                      = gets new1 ++ gets new2).
      { unfold gets. by rewrite omap_app. }
      assert (Hsl : sleeps (new1 ++ EvSleep (a * 3) :: new2)
                    = a * 3 :: sleeps new2).
      { unfold sleeps in *. rewrite omap_app, Hs1. done. }
      split.
      { intros u. rewrite Hgets, elem_of_app. intros [Hu|Hu]; [|by apply Hg2].
        destruct Hg1 as [Hg|Hg]; rewrite Hg in Hu.
        - by apply elem_of_nil in Hu.
        - by apply list_elem_of_singleton in Hu. }
      split.
      { rewrite Hgets, length_app. simpl.
        destruct Hg1 as [-> | ->]; simpl; lia. }
      simpl in Hr2. rewrite Hf1 in Hr2.
      destruct r as [f|e2].
      * destruct Hr2 as (-> & Hfi & n & Hn & Hsn).
        split; [done|split; [done|]]. exists (S n). simpl.
        split; [lia|]. by rewrite Hsl, Hsn.
      * destruct Hr2 as (Hfi & Hsn & Hlast).
        split; [done|split; [|done]]. by rewrite Hsl, Hsn.
Qed.

(** X7.  The retry protocol of [Fetch].  A scene without a prompt fails
    at once and nothing happens.  Otherwise at most three requests are
    made, all for the same URL, and no file but the scene's image file
    is written; a failed attempt number [k] is followed by a sleep of
    [3k] seconds, also the third one, so a complete failure has slept 3,
    6 and 9 seconds; a success returns the scene's image file, which
    then exists. *)
Theorem Fetch_retry_protocol (scene : ScriptScene) (outputDir : string)
    (w : World) :
  (ImagePrompt scene = "" →
   Fetch env scene outputDir w
   = (Err ("scene " +:+ Sprintf_d (Index scene) +:+ " has no image prompt"), w))
  ∧ (ImagePrompt scene ≠ "" →
     ∃ r w' new,
       Fetch env scene outputDir w = (r, w')
       ∧ events w' = events w ++ new
       ∧ (∀ u, u ∈ gets new → u = pollinations_url scene)
       ∧ (length (gets new) ≤ 3)%nat
       ∧ files w ⊆ files w'
       ∧ files w' ⊆ {[dramatic_file scene outputDir]} ∪ files w
       ∧ match r with
         | Ok f =>
             f = dramatic_file scene outputDir
             ∧ f ∈ files w'
             ∧ (sleeps new = [] ∨ sleeps new = [3] ∨ sleeps new = [3; 6])
         | Err e =>
             sleeps new = [3; 6; 9]
             ∧ ∃ last, e = "pollinations fetch failed after 3 attempts: " +:+ last
         end).
Proof.
  unfold Fetch. split.
  - intros ->. done.
  - intros Hp. apply String.eqb_neq in Hp. rewrite Hp.
    destruct (fetch_attempts_run (pollinations_url scene)
                (dramatic_file scene outputDir) [1; 2; 3] "" w)
      as (r & w' & new & Hrun & Hev & Hg & Hl & Hr).
    exists r, w', new. split; [exact Hrun|].
    split; [done|split; [done|split; [done|]]].
    destruct r as [f|e].
    + destruct Hr as (-> & Hfi & n & Hn & Hs). rewrite Hfi.
      split; [apply union_subseteq_r|]. split; [done|].
      split; [done|]. split; [apply elem_of_union_l; by apply elem_of_singleton|].
      simpl in Hn. rewrite Hs.
      destruct n as [|[|[|n]]]; simpl; auto. lia.
    + destruct Hr as (Hfi & Hs & Hlast). rewrite Hfi.
      split; [done|]. split; [apply union_subseteq_r|]. done.
Qed.

(** One download by the evidence client: a file appears exactly when it
    succeeds. *)
Lemma downloadFile_files (url out : string) (w : World) :
  files (downloadFile env url out w).2
  = if is_Ok (downloadFile env url out w).1 then {[out]} ∪ files w
    else files w.
Proof.
  unfold downloadFile.
  destruct (url_ok url); simpl; [|done].
  unfold http_get. munfold. simpl.
  destruct (env_http env (now w) url) as [resp|]; simpl; [|done].
  destruct (StatusCode resp =? 200)%Z; simpl; [|done].
  destruct (RespBody resp) as [body|]; simpl; [|done].
  destruct (_ <? _)%nat; simpl; [done|].
  match goal with
  | |- context [WriteFile env out ?w0] =>
      destruct (WriteFile_run out w0) as (w1 & -> & _ & Hfi)
  end.
  simpl in *. rewrite Hfi. by destruct (env_write env _).
Qed.

Lemma download_first_files (urls : list string) (out : string) :
  ∀ w,
    match (download_first env urls out w).1 with
    | Some f => f = out ∧ files (download_first env urls out w).2 = {[out]} ∪ files w
    | None => files (download_first env urls out w).2 = files w
    end.
Proof.
  induction urls as [|u rest IH]; intros w; [done|].
  cbn [download_first]. rewrite bind_run.
  pose proof (downloadFile_files u out w) as Hd.
  destruct (downloadFile env u out w) as [[[]|e] w1]; simpl in *.
  - done.
  - specialize (IH w1). rewrite Hd in IH. done.
Qed.

Lemma searchWikipedia_files (narration outputDir : string) (idx : Z) (w : World) :
  match (searchWikipedia env narration outputDir idx w).1 with
  | Ok f =>
      f = filepath_Join outputDir ("proof_" +:+ Sprintf_0d 3 idx +:+ "_wiki.jpg")
      ∧ files (searchWikipedia env narration outputDir idx w).2 = {[f]} ∪ files w
  | Err _ => files (searchWikipedia env narration outputDir idx w).2 = files w
  end.
Proof.
  unfold searchWikipedia.
  destruct (String.eqb _ ""); cbn; [done|].
  unfold http_get. munfold. cbn.
  destruct (env_http env (now w) _) as [resp|]; cbn; [|done].
  destruct (StatusCode resp =? 200)%Z; cbn; [|done].
  destruct (option_bind _ _ _ _) as [[orig thumb]|]; cbn; [|done].
  destruct (String.eqb _ ""); cbn; [done|].
  match goal with
  | |- context [downloadFile env ?u ?o ?w0] =>
      pose proof (downloadFile_files u o w0) as Hd;
      destruct (downloadFile env u o w0) as [[[]|e] w1]
  end; cbn in *; done.
Qed.

Lemma searchGoogleImages_files (ps : ProofScraper)
    (narration title outputDir : string) (idx : Z) (w : World) :
  match (searchGoogleImages env ps narration title outputDir idx w).1 with
  | Ok f =>
      f = filepath_Join outputDir ("proof_" +:+ Sprintf_0d 3 idx +:+ "_google.jpg")
      ∧ files (searchGoogleImages env ps narration title outputDir idx w).2
        = {[f]} ∪ files w
  | Err _ =>
      files (searchGoogleImages env ps narration title outputDir idx w).2 = files w
  end.
Proof.
  unfold searchGoogleImages.
  unfold http_get. munfold. cbn.
  destruct (env_http env (now w) _) as [resp|]; cbn; [|done].
  destruct (option_bind _ _ _ _) as [res|]; cbn; [|done].
  destruct (bool_decide _); cbn; [done|].
  match goal with
  | |- context [download_first env ?us ?o ?w0] =>
      pose proof (download_first_files us o w0) as Hd;
      destruct (download_first env us o w0) as [[f|] w1]
  end; cbn in *; [|done].
  by destruct Hd as [-> ->].
Qed.

(** The files of [FetchProofImage]. *)
Lemma FetchProofImage_outcome (ps : ProofScraper) (scene : ScriptScene)
    (story : Story) (outputDir : string) (w : World) :
  match (FetchProofImage env ps scene story outputDir w).1 with
  | Ok f =>
      f ∈ [proof_file scene outputDir; wiki_file scene outputDir;
           google_file scene outputDir]
      ∧ files (FetchProofImage env ps scene story outputDir w).2
        = {[f]} ∪ files w
  | Err e =>
      e = "no proof image found for scene " +:+ Sprintf_d (Index scene)
      ∧ files (FetchProofImage env ps scene story outputDir w).2 = files w
  end.
Proof.
  unfold FetchProofImage. fold (proof_file scene outputDir).
  rewrite bind_run.
  assert (H1 : ∃ r1 w1,
             (if negb (String.eqb (ProofImageURL scene) "") then
                r ← downloadFile env (ProofImageURL scene)
                      (proof_file scene outputDir);
                mret (match r with
                      | Ok _ => Some (proof_file scene outputDir)
                      | Err _ => None
                      end)
              else mret None) w = (r1, w1)
             ∧ match r1 with
               | Some f => f = proof_file scene outputDir
                           ∧ files w1 = {[f]} ∪ files w
               | None => files w1 = files w
               end).
  { destruct (negb _); [|by eexists _, _].
    rewrite bind_run.
    pose proof (downloadFile_files (ProofImageURL scene)
                  (proof_file scene outputDir) w) as Hd.
    destruct (downloadFile env _ _ w) as [[[]|e] w1]; simpl in *;
      eexists _, _; (split; [done|]); done. }
  destruct H1 as (r1 & w1 & -> & Hr1).
  destruct r1 as [f|].
  { destruct Hr1 as [-> Hf]. rewrite ret_run. simpl. split; [left | done]. }
  rewrite bind_run.
  pose proof (searchWikipedia_files (Narration scene) outputDir (Index scene) w1)
    as H2.
  destruct (searchWikipedia env _ _ _ w1) as [[f|e2] w2]; simpl in H2.
  { destruct H2 as [-> Hf]. rewrite ret_run. simpl. rewrite Hf, Hr1.
    split; [right; left | done]. }
  rewrite bind_run.
  pose proof (download_first_files (ImageURLs story)
                (proof_file scene outputDir) w2) as H3.
  destruct (download_first env _ _ w2) as [[f|] w3]; simpl in H3.
  { destruct H3 as [-> Hf]. rewrite ret_run. simpl. rewrite Hf, H2, Hr1.
    split; [left | done]. }
  rewrite bind_run.
  destruct (negb (String.eqb (serpAPIKey ps) "")).
  2:{ rewrite !ret_run. simpl. by rewrite H3, H2, Hr1. }
  rewrite bind_run.
  pose proof (searchGoogleImages_files ps (Narration scene) (Title story)
                outputDir (Index scene) w3) as H4.
  destruct (searchGoogleImages env ps _ _ _ _ w3) as [[f|e4] w4]; simpl in H4;
    rewrite !ret_run; simpl.
  - destruct H4 as [-> Hf]. rewrite Hf, H3, H2, Hr1.
    split; [right; right; left | done].
  - by rewrite H4, H3, H2, Hr1.
Qed.

(** X8.  What [FetchProofImage] leaves behind.  It writes no file but
    the scene's three evidence files (the plain one, the knowledge-base
    one, the search one) and deletes none; on success the image it
    returns is one of the three and exists; on failure the error is [no
    proof image found for scene <index>]. *)
Theorem FetchProofImage_files (ps : ProofScraper) (scene : ScriptScene)
    (story : Story) (outputDir : string) (w : World) :
  let r := (FetchProofImage env ps scene story outputDir w).1 in
  let w' := (FetchProofImage env ps scene story outputDir w).2 in
  let evidence := [proof_file scene outputDir; wiki_file scene outputDir;
                   google_file scene outputDir] in
  files w ⊆ files w'
  ∧ (∀ f, f ∈ files w' → f ∈ files w ∨ f ∈ evidence)
  ∧ match r with
    | Ok f => f ∈ evidence ∧ f ∈ files w'
    | Err e => e = "no proof image found for scene " +:+ Sprintf_d (Index scene)
    end.
Proof.
  intros r w' evidence. subst r w'.
  pose proof (FetchProofImage_outcome ps scene story outputDir w) as Ho.
  destruct (FetchProofImage env ps scene story outputDir w) as [[f|e] w'];
    simpl in *.
  - destruct Ho as [Hf ->]. split; [apply union_subseteq_r|]. split; [|split].
    + intros g [Hg|Hg]%elem_of_union; [|by left].
      apply elem_of_singleton in Hg as ->. by right.
    + done.
    + apply elem_of_union_l. by apply elem_of_singleton.
  - destruct Ho as [-> ->]. split; [done|]. split; [by left | done].
Qed.

End Fetching.

End Fetching.
(** ** The Assembler *)

Module AssemblerRun.

Import types config visuals ResolverSpec RunSpec AssemblerProofs Fetching.

Create HintDb keeps discriminated.

Lemma keeps_ret {A} (a : A) : keeps_files (mret a : M A).
Proof. intros w. done. Qed.

Lemma keeps_bind {A B} (m : M A) (k : A → M B) :
  keeps_files m → (∀ a, keeps_files (k a)) → keeps_files (m ≫= k).
Proof.
  intros Hm Hk w. rewrite bind_run.
  specialize (Hm w). destruct (m w) as [a w1]. simpl in Hm.
  specialize (Hk a w1). set_solver.
Qed.

Lemma keeps_next : keeps_files next.
Proof. intros w. done. Qed.

Lemma keeps_emit (ev : Event) : keeps_files (emit ev).
Proof. intros w. done. Qed.

Lemma keeps_add_file (p : string) : keeps_files (add_file p).
Proof. intros w. simpl. set_solver. Qed.

Lemma keeps_file_exists (p : string) : keeps_files (file_exists p).
Proof. intros w. done. Qed.

Lemma keeps_inputs_exist (ps : list string) : keeps_files (inputs_exist ps).
Proof. intros w. done. Qed.

#[export] Hint Resolve keeps_ret keeps_next keeps_emit keeps_add_file
  keeps_file_exists keeps_inputs_exist : keeps.

(** Splits a computation along its binds and its case distinctions. *)
Ltac keeps :=
  repeat first
    [ progress intros
    | solve [auto with keeps]
    | apply keeps_bind
    | match goal with
      | |- keeps_files (match ?x with _ => _ end) => destruct x
      | |- keeps_files (let (_, _) := ?x in _) => destruct x
      end ].

Section AssemblerRun.

Context {std : GoStd} (env : Env).

Lemma keeps_run_cmd name args inputs output :
  keeps_files (run_cmd env name args inputs output).
Proof. unfold run_cmd. keeps. Qed.

Lemma keeps_WriteFile path : keeps_files (WriteFile env path).
Proof. unfold WriteFile. keeps. Qed.

Lemma keeps_http_get url : keeps_files (http_get env url).
Proof. unfold http_get. keeps. Qed.

Lemma keeps_Intn n : keeps_files (Intn env n).
Proof. unfold Intn. keeps. Qed.

Lemma keeps_range_map {V} (m : gmap string V) : keeps_files (range_map env m).
Proof. unfold range_map. keeps. Qed.

Hint Resolve keeps_run_cmd keeps_WriteFile keeps_http_get keeps_Intn
  keeps_range_map : keeps.

Lemma keeps_Pick am scene : keeps_files (Pick env am scene).
Proof. unfold Pick, Pick_choose, saveUsageLog. keeps. Qed.

Lemma keeps_downloadFile url out : keeps_files (downloadFile env url out).
Proof. unfold downloadFile. keeps. Qed.

Lemma keeps_downloadImage url out : keeps_files (downloadImage env url out).
Proof. unfold downloadImage. keeps. Qed.

Hint Resolve keeps_Pick keeps_downloadFile keeps_downloadImage : keeps.

Lemma keeps_download_first urls out : keeps_files (download_first env urls out).
Proof. induction urls; cbn [download_first]; keeps. Qed.

Lemma keeps_fetch_attempts attempts url out err :
  keeps_files (fetch_attempts env attempts url out err).
Proof. revert err. induction attempts; intros err; cbn [fetch_attempts]; keeps. Qed.

Hint Resolve keeps_download_first keeps_fetch_attempts : keeps.

Lemma keeps_searchWikipedia narration dir idx :
  keeps_files (searchWikipedia env narration dir idx).
Proof. unfold searchWikipedia. keeps. Qed.

Lemma keeps_searchGoogleImages ps narration title dir idx :
  keeps_files (searchGoogleImages env ps narration title dir idx).
Proof. unfold searchGoogleImages. keeps. Qed.

Hint Resolve keeps_searchWikipedia keeps_searchGoogleImages : keeps.

Lemma keeps_FetchProofImage ps scene story dir :
  keeps_files (FetchProofImage env ps scene story dir).
Proof. unfold FetchProofImage. keeps. Qed.

Lemma keeps_Fetch scene dir : keeps_files (Fetch env scene dir).
Proof. unfold Fetch. keeps. Qed.

Lemma keeps_getVideoDuration path : keeps_files (getVideoDuration env path).
Proof. unfold getVideoDuration. keeps. Qed.

Hint Resolve keeps_FetchProofImage keeps_Fetch keeps_getVideoDuration : keeps.

Lemma keeps_prepareVideoClip clip scene dir :
  keeps_files (prepareVideoClip env clip scene dir).
Proof. unfold prepareVideoClip. keeps. Qed.

Lemma keeps_prepareImageWithKenBurns a img scene dir :
  keeps_files (prepareImageWithKenBurns env a img scene dir).
Proof. unfold prepareImageWithKenBurns. keeps. Qed.

Lemma keeps_addSourceCredit img scene story dir :
  keeps_files (addSourceCredit env img scene story dir).
Proof. unfold addSourceCredit. keeps. Qed.

Lemma keeps_createFallbackFrame dir i :
  keeps_files (createFallbackFrame env dir i).
Proof. unfold createFallbackFrame. keeps. Qed.

Hint Resolve keeps_prepareVideoClip keeps_prepareImageWithKenBurns
  keeps_addSourceCredit keeps_createFallbackFrame : keeps.

Lemma keeps_resolve_scene a i scene story dir :
  keeps_files (resolve_scene env a i scene story dir).
Proof. unfold resolve_scene. keeps. Qed.


Lemma run_cmd_true name args inputs output (w w' : World) :
  run_cmd env name args inputs output w = (true, w') → output ∈ files w'.
Proof.
  unfold run_cmd. munfold. simpl.
  destruct (_ && _); intros [= <-]; simpl. set_solver.
Qed.

Lemma prepareVideoClip_Ok clip scene dir (w w' : World) (p : string) :
  prepareVideoClip env clip scene dir w = (Ok p, w') → p ∈ files w'.
Proof.
  unfold prepareVideoClip. rewrite !bind_run.
  destruct (getVideoDuration env clip w) as [probed w1].
  rewrite ?bind_run.
  match goal with
  | |- context [run_cmd env ?n ?ar ?i ?o ?w0] =>
      destruct (run_cmd env n ar i o w0) as [[] w2] eqn:Hrun
  end; rewrite ret_run; intros [= <- <-]. by apply run_cmd_true in Hrun.
Qed.

Lemma prepareImageWithKenBurns_Ok a img scene dir (w w' : World) (p : string) :
  prepareImageWithKenBurns env a img scene dir w = (Ok p, w') → p ∈ files w'.
Proof.
  unfold prepareImageWithKenBurns. rewrite !bind_run.
  match goal with
  | |- context [run_cmd env ?n ?ar ?i ?o ?w0] =>
      destruct (run_cmd env n ar i o w0) as [[] w2] eqn:Hrun
  end; rewrite ret_run; intros [= <- <-]. by apply run_cmd_true in Hrun.
Qed.

Lemma addSourceCredit_Ok img scene story dir (w w' : World) (p : string) :
  addSourceCredit env img scene story dir w = (Ok p, w') → p ∈ files w'.
Proof.
  unfold addSourceCredit. rewrite !bind_run.
  match goal with
  | |- context [run_cmd env ?n ?ar ?i ?o ?w0] =>
      destruct (run_cmd env n ar i o w0) as [[] w2] eqn:Hrun
  end; rewrite ret_run; intros [= <- <-]. by apply run_cmd_true in Hrun.
Qed.

Lemma FetchProofImage_Ok ps scene story dir (w w' : World) (img : string) :
  FetchProofImage env ps scene story dir w = (Ok img, w') → img ∈ files w'.
Proof.
  intros H. pose proof (FetchProofImage_outcome env ps scene story dir w) as Ho.
  rewrite H in Ho. simpl in Ho. destruct Ho as [_ ->]. set_solver.
Qed.

(** The tail shared by the paths that end in a still. *)
Lemma still_Ok a img scene dir (w : World) :
  ∀ r scene' a' w',
    (p ← prepareImageWithKenBurns env a img scene dir;
     match p with
     | Err e => mret (Err e, scene, a)
     | Ok prepared => mret (Ok tt, set_VisualFile prepared scene, a)
     end) w = (r, scene', a', w') →
    (is_Ok r = true → VisualFile scene' ∈ files w')
    ∧ (is_Ok r = false → scene' = scene).
Proof.
  intros r scene' a' w'. rewrite bind_run.
  destruct (prepareImageWithKenBurns env a img scene dir w) as [[p|e] w1] eqn:Hp;
    rewrite ret_run; intros [= <- <- <- <-]; simpl.
  - split; [|done]. intros _. by apply prepareImageWithKenBurns_Ok in Hp.
  - done.
Qed.

(** A scene of a known type that [Run] resolved has a visual file that
    exists. *)
Lemma resolve_scene_Ok a i scene story dir (w w' : World) scene' a' :
  resolve_scene env a i scene story dir w = (Ok tt, scene', a', w') →
  known_type scene → VisualFile scene' ∈ files w'.
Proof.
  unfold resolve_scene.
  destruct (String.eqb_spec (SceneType scene) "cinematic") as [Hc|Hc].
  { rewrite bind_run. destruct (Pick env _ scene w) as [[[clip|e] am] w1].
    - rewrite bind_run.
      destruct (prepareVideoClip env clip scene dir w1) as [[p|e] w2] eqn:Hp;
        rewrite ret_run; intros [= <- <- <-] _; simpl.
      by apply prepareVideoClip_Ok in Hp.
    - rewrite bind_run.
      destruct (Fetch env _ dir w1) as [[img|e1] w2]; [|by rewrite ret_run].
      intros H _. by apply still_Ok in H as [H _]; apply H. }
  destruct (String.eqb_spec (SceneType scene) "dramatic") as [Hd|Hd].
  { rewrite bind_run. destruct (Fetch env scene dir w) as [[img|e1] w1].
    - rewrite bind_run, ret_run.
      intros H _. by apply still_Ok in H as [H _]; apply H.
    - rewrite bind_run.
      destruct (createFallbackFrame env dir i w1) as [img w2].
      intros H _. by apply still_Ok in H as [H _]; apply H. }
  destruct (String.eqb_spec (SceneType scene) "proof") as [Hp|Hp].
  { rewrite bind_run.
    destruct (FetchProofImage env _ scene story dir w) as [[img|e1] w1] eqn:HF.
    - rewrite bind_run.
      pose proof (keeps_addSourceCredit img scene story dir w1) as Hk.
      destruct (addSourceCredit env img scene story dir w1) as [[c|e] w2] eqn:Hc';
        rewrite ret_run; intros [= <- <- <-] _; simpl in *.
      + by apply addSourceCredit_Ok in Hc'.
      + apply FetchProofImage_Ok in HF. set_solver.
    - rewrite bind_run.
      destruct (Fetch env _ dir w1) as [[img|e2] w2].
      + rewrite bind_run, ret_run.
        intros H _. by apply still_Ok in H as [H _]; apply H.
      + rewrite bind_run.
        destruct (createFallbackFrame env dir i w2) as [img w3].
        intros H _. by apply still_Ok in H as [H _]; apply H. }
  intros _ [|[|]]; done.
Qed.

(** A scene of no known type is passed over: nothing happens. *)
Lemma resolve_scene_unknown a i scene story dir (w : World) :
  ¬ known_type scene →
  resolve_scene env a i scene story dir w = (Ok tt, scene, a, w).
Proof.
  intros Hn. unfold resolve_scene, known_type in *.
  destruct (String.eqb_spec (SceneType scene) "cinematic"); [tauto|].
  destruct (String.eqb_spec (SceneType scene) "dramatic"); [tauto|].
  destruct (String.eqb_spec (SceneType scene) "proof"); [tauto|]. done.
Qed.

(** What resolution may change of a scene. *)
Lemma resolve_scene_frame a i scene story dir (w : World) :
  let scene' := (resolve_scene env a i scene story dir w).1.1.2 in
  same_but_visual scene scene'
  ∧ (ImagePrompt scene ≠ "" → ImagePrompt scene' = ImagePrompt scene)
  ∧ (SceneType scene' = SceneType scene
     ∨ SceneType scene' = "dramatic"
       ∧ (SceneType scene = "cinematic" ∨ SceneType scene = "proof")).
Proof.
  unfold resolve_scene, same_but_visual.
  destruct (String.eqb_spec (SceneType scene) "cinematic") as [Hc|Hc];
    [|destruct (String.eqb_spec (SceneType scene) "dramatic") as [Hd|Hd];
      [|destruct (String.eqb_spec (SceneType scene) "proof") as [Hp|Hp]]];
    repeat mstep; simpl;
    (split; [done|]);
    (split; [intros Hne; try done;
             try (apply String.eqb_eq in Heqb; done)
            | auto 6]).
Qed.


(** The loop of [Run]: the scenes before the first failure are
    resolved, the scenes after it are not looked at. *)
Lemma Run_scenes_progress (story : Story) (dir : string)
    (scenes : list ScriptScene) :
  ∀ a i w r scenes' a' w',
    Run_scenes env a i scenes story dir w = (r, scenes', a', w') →
    files w ⊆ files w'
    ∧ ∃ n,
        (n ≤ length scenes)%nat
        ∧ (∀ k s s',
             (k < n)%nat → scenes !! k = Some s → scenes' !! k = Some s' →
             known_type s → VisualFile s' ∈ files w')
        ∧ (is_Ok r = true → n = length scenes)
        ∧ (is_Ok r = false →
           (n < length scenes)%nat
           ∧ ∀ k, (n < k)%nat → scenes' !! k = scenes !! k).
Proof.
  induction scenes as [|scene rest IH]; intros a i w r scenes' a' w'.
  - cbn. intros [= <- <- <- <-]. split; [done|]. exists 0%nat.
    split; [done|]. split; [intros; lia|]. split; [done|]. done.
  - cbn [Run_scenes]. rewrite bind_run.
    pose proof (keeps_resolve_scene a i scene story dir w) as Hkeep.
    destruct (resolve_scene env a i scene story dir w)
      as [[[r1 scene1] a1] w1] eqn:Hres. simpl in Hkeep.
    destruct r1 as [[]|msg].
    + rewrite bind_run.
      destruct (Run_scenes env a1 (i + 1) rest story dir w1)
        as [[[r2 rest2] a2] w2] eqn:Hrest.
      rewrite ret_run. intros [= <- <- <- <-].
      destruct (IH _ _ _ _ _ _ _ Hrest) as (Hsub & n & Hn & Hvis & Hok & Herr).
      split; [by etrans|]. exists (S n). split; [simpl; lia|].
      split; [|split].
      * intros [|k] s s' Hk Hs Hs' Hknown; simpl in Hs, Hs'.
        -- injection Hs as <-. injection Hs' as <-.
           pose proof (resolve_scene_Ok _ _ _ _ _ _ _ _ _ Hres Hknown).
           by eapply elem_of_weaken.
        -- apply (Hvis k s s'); [lia|done..].
      * intros Hr. simpl. by rewrite Hok.
      * intros Hr. destruct (Herr Hr) as [Hlt Hsame]. split; [simpl; lia|].
        intros [|k] Hk; [lia|]. simpl. apply Hsame. lia.
    + rewrite ret_run. intros [= <- <- <- <-].
      split; [done|]. exists 0%nat. split; [lia|].
      split; [intros; lia|]. split; [done|]. intros _. split; [simpl; lia|].
      intros [|k] Hk; [lia|]. done.
Qed.

(** X9.  After a successful [Run] every scene of one of the three
    known types has a visual file that exists on disk; a scene of any
    other type is passed over and left exactly as it was. *)
Theorem Run_success_visuals (a : Assembler) (script : Script) (story : Story)
    (outputDir : string) (w : World) (script' : Script) (a' : Assembler)
    (w' : World) :
  Run env a script story outputDir w = (Ok tt, script', a', w') →
  length (Scenes script') = length (Scenes script)
  ∧ ∀ k s s',
      Scenes script !! k = Some s → Scenes script' !! k = Some s' →
      (known_type s → VisualFile s' ∈ files w')
      ∧ (¬ known_type s → s' = s).
Proof.
  intros HRun.
  pose proof (Run_positions env a script story outputDir w) as Hpos.
  rewrite HRun in Hpos. cbn [fst snd] in Hpos. destruct Hpos as [Hlen Hpos].
  split; [done|]. intros k s s' Hs Hs'. split.
  - revert HRun. unfold Run. rewrite bind_run.
    destruct (MkdirAll env _ w) as [[] w1]; [|by rewrite ret_run].
    rewrite bind_run.
    destruct (Run_scenes env a 0 (Scenes script) story _ w1)
      as [[[r scenes'] a2] w2] eqn:Hrs.
    rewrite ret_run. intros [= -> <- <- <-]. simpl in Hs'.
    destruct (Run_scenes_progress _ _ _ _ _ _ _ _ _ _ Hrs)
      as (_ & n & _ & Hvis & Hok & _).
    specialize (Hok eq_refl). subst n.
    apply (Hvis k s s'); [|done..]. by apply lookup_lt_Some in Hs.
  - intros Hun. destruct (Hpos k s s' Hs Hs') as [->|(a0 & w0 & i & ->)]; [done|].
    by rewrite resolve_scene_unknown.
Qed.

(** X10.  [Run] stops at the first scene that fails: the scenes before
    it are resolved (those of a known type have a visual file that
    exists), the scenes after it are exactly as they were given. *)
Theorem Run_stops_at_first_failure (a : Assembler) (script : Script)
    (story : Story) (outputDir : string) (w : World) (e : string)
    (script' : Script) (a' : Assembler) (w' : World) :
  Run env a script story outputDir w = (Err e, script', a', w') →
  ∃ n,
    (∀ k s s',
       (k < n)%nat →
       Scenes script !! k = Some s → Scenes script' !! k = Some s' →
       known_type s → VisualFile s' ∈ files w')
    ∧ (∀ k, (n < k)%nat → Scenes script' !! k = Scenes script !! k).
Proof.
  unfold Run. rewrite bind_run.
  destruct (MkdirAll env _ w) as [[] w1].
  - rewrite bind_run.
    destruct (Run_scenes env a 0 (Scenes script) story _ w1)
      as [[[r scenes'] a2] w2] eqn:Hrs.
    rewrite ret_run. intros [= -> <- <- <-]. simpl.
    destruct (Run_scenes_progress _ _ _ _ _ _ _ _ _ _ Hrs)
      as (_ & n & _ & Hvis & _ & Herr).
    exists n. split; [done|]. by apply Herr.
  - rewrite ret_run. intros [= _ <- <- <-]. exists 0%nat.
    split; [intros; lia | done].
Qed.

(** X11.  What [Run] may change of a script.  The title, the story,
    the total duration and the number of scenes stay; of a scene,
    everything but the type, the image prompt and the visual file
    stays, in particular its place on the timeline and its narration;
    the type is kept or rewritten to [dramatic], the latter only for a
    [cinematic] or a [proof] scene; an image prompt that was given is
    kept. *)
Theorem Run_frame (a : Assembler) (script : Script) (story : Story)
    (outputDir : string) (w : World) :
  let script' := (Run env a script story outputDir w).1.1.2 in
  StoryID script' = StoryID script
  ∧ ScriptTitle script' = ScriptTitle script
  ∧ TotalSec script' = TotalSec script
  ∧ length (Scenes script') = length (Scenes script)
  ∧ ∀ k s s',
      Scenes script !! k = Some s → Scenes script' !! k = Some s' →
      same_but_visual s s'
      ∧ (ImagePrompt s ≠ "" → ImagePrompt s' = ImagePrompt s)
      ∧ (SceneType s' = SceneType s
         ∨ SceneType s' = "dramatic"
           ∧ (SceneType s = "cinematic" ∨ SceneType s = "proof")).
Proof.
  intros script'.
  pose proof (Run_positions env a script story outputDir w) as [Hlen Hpos].
  fold script' in Hlen, Hpos.
  assert (Hhead : StoryID script' = StoryID script
                  ∧ ScriptTitle script' = ScriptTitle script
                  ∧ TotalSec script' = TotalSec script).
  { subst script'. unfold Run. rewrite bind_run.
    destruct (MkdirAll env _ w) as [[] w1]; [|by rewrite ret_run].
    rewrite bind_run.
    by destruct (Run_scenes env a 0 (Scenes script) story _ w1)
      as [[[r scenes'] a2] w2]. }
  destruct Hhead as (H1 & H2 & H3).
  split; [done|split; [done|split; [done|split; [done|]]]].
  intros k s s' Hs Hs'.
  destruct (Hpos k s s' Hs Hs') as [->|(a0 & w0 & i & ->)].
  - unfold same_but_visual. auto 20.
  - apply resolve_scene_frame.
Qed.


(** X22.  An evidence image that was found never fails the scene.  A
    [proof] scene whose image was fetched is resolved whatever the
    credit overlay does: its visual file is the credited image if the
    overlay succeeded and the image as fetched if it failed, the file
    exists, and the scene stays a [proof] scene. *)
Theorem resolve_proof_found (a : Assembler) (i : Z) (scene : ScriptScene)
    (story : Story) (visualDir : string) (w w1 : World) (img : string) :
  SceneType scene = "proof" →
  FetchProofImage env (proofScraper a) scene story visualDir w = (Ok img, w1) →
  let c := addSourceCredit env img scene story visualDir w1 in
  let f := match c.1 with Ok credited => credited | Err _ => img end in
  resolve_scene env a i scene story visualDir w
  = (Ok tt, set_VisualFile f scene, a, c.2)
  ∧ f ∈ files c.2
  ∧ (is_Ok c.1 = true →
     f = filepath_Join visualDir
           ("proof_credited_" +:+ Sprintf_0d 3 (Index scene) +:+ ".jpg")).
Proof.
  intros Hp HF c f. subst c f. unfold resolve_scene. rewrite Hp.
  cbn [String.eqb Ascii.eqb Bool.eqb]. rewrite bind_run, HF, bind_run.
  pose proof (keeps_addSourceCredit img scene story visualDir w1) as Hk.
  destruct (addSourceCredit env img scene story visualDir w1) as [[c|e] w2] eqn:Hc;
    rewrite ret_run; simpl in *.
  - split; [done|]. split; [by apply addSourceCredit_Ok in Hc|]. intros _.
    revert Hc. unfold addSourceCredit. rewrite bind_run.
    match goal with
    | |- context [run_cmd env ?n ?ar ?ins ?o ?w0] =>
        destruct (run_cmd env n ar ins o w0) as [[] w3]
    end; rewrite ret_run; by intros [= <- _].
  - split; [done|]. split; [|done].
    apply FetchProofImage_Ok in HF. by eapply elem_of_weaken.
Qed.

Lemma still_Err a img scene dir (w : World) e scene' a' w' :
  (p ← prepareImageWithKenBurns env a img scene dir;
   match p with
   | Err e => mret (Err e, scene, a)
   | Ok prepared => mret (Ok tt, set_VisualFile prepared scene, a)
   end) w = (Err e, scene', a', w') →
  scene' = scene
  ∧ prepareImageWithKenBurns env a img scene dir w = (Err e, w').
Proof.
  rewrite bind_run.
  destruct (prepareImageWithKenBurns env a img scene dir w) as [[p|e0] w1];
    rewrite ret_run; intros [= <- <- <- <-]; done.
Qed.

(** X23.  The errors of resolving a scene.  A scene fails in one of
    three ways only: the clip of a [cinematic] scene could not be
    prepared ([scene <i> clip prep failed]), the image for a [cinematic]
    scene without a clip could not be fetched ([scene <i> visual
    fallback failed]), or the still transform failed, whose error is
    returned as it is.  A scene that failed has no new visual file. *)
Theorem resolve_scene_errors (a : Assembler) (i : Z) (scene : ScriptScene)
    (story : Story) (visualDir : string) (w : World) (e : string)
    (scene' : ScriptScene) (a' : Assembler) (w' : World) :
  resolve_scene env a i scene story visualDir w = (Err e, scene', a', w') →
  VisualFile scene' = VisualFile scene
  ∧ ((SceneType scene = "cinematic"
      ∧ ∃ cause,
          e = "scene " +:+ Sprintf_d i +:+ " clip prep failed: " +:+ cause
          ∨ e = "scene " +:+ Sprintf_d i +:+ " visual fallback failed: "
                +:+ cause)
     ∨ ∃ a0 img scene0 w0 w1,
         prepareImageWithKenBurns env a0 img scene0 visualDir w0 = (Err e, w1)).
Proof.
  unfold resolve_scene.
  destruct (String.eqb_spec (SceneType scene) "cinematic") as [Hc|Hc].
  { rewrite bind_run. destruct (Pick env _ scene w) as [[[clip|e0] am] w1].
    - rewrite bind_run.
      destruct (prepareVideoClip env clip scene visualDir w1) as [[p|e1] w2];
        rewrite ret_run; intros [= <- <- <- <-].
      split; [done|]. left. split; [done|]. eexists. by left.
    - rewrite bind_run.
      destruct (Fetch env _ visualDir w1) as [[img|e1] w2].
      + intros H. apply still_Err in H as [-> H].
        split; [by destruct (String.eqb (ImagePrompt _) "")|].
        right. by eexists _, _, _, _, _.
      + rewrite ret_run. intros [= <- <- <- <-].
        split; [by destruct (String.eqb (ImagePrompt _) "")|].
        left. split; [done|]. eexists. by right. }
  destruct (String.eqb_spec (SceneType scene) "dramatic") as [Hd|Hd].
  { rewrite bind_run. destruct (Fetch env scene visualDir w) as [[img|e1] w1].
    - rewrite bind_run, ret_run.
      intros H. apply still_Err in H as [-> H].
      split; [done|]. right. by eexists _, _, _, _, _.
    - rewrite bind_run.
      destruct (createFallbackFrame env visualDir i w1) as [img w2].
      intros H. apply still_Err in H as [-> H].
      split; [done|]. right. by eexists _, _, _, _, _. }
  destruct (String.eqb_spec (SceneType scene) "proof") as [Hp|Hp]; [|done].
  rewrite bind_run.
  destruct (FetchProofImage env _ scene story visualDir w) as [[img|e1] w1].
  - rewrite bind_run.
    by destruct (addSourceCredit env img scene story visualDir w1)
      as [[c|e2] w2].
  - rewrite bind_run.
    destruct (Fetch env _ visualDir w1) as [[img|e2] w2].
    + rewrite bind_run, ret_run.
      intros H. apply still_Err in H as [-> H].
      split; [by destruct (String.eqb (ImagePrompt _) "")|].
      right. by eexists _, _, _, _, _.
    + rewrite bind_run.
      destruct (createFallbackFrame env visualDir i w2) as [img w3].
      intros H. apply still_Err in H as [-> H].
      split; [by destruct (String.eqb (ImagePrompt _) "")|].
      right. by eexists _, _, _, _, _.
Qed.

End AssemblerRun.

End AssemblerRun.
(** ** Text escaping and clip preparation *)

Module TextAndClips.

Import types config visuals TextSpec TransformTheorems.

Lemma escape_step (c : ascii) (s : string) :
  escapeFFmpegText (String c s)
  = if special c then String "\" (String c (escapeFFmpegText s))
    else String c (escapeFFmpegText s).
Proof.
  unfold escapeFFmpegText, special. cbn [escape_char].
  destruct (Ascii.eqb_spec "'" c) as [<-|H1]; [done|].
  destruct (Ascii.eqb_spec ":" c) as [<-|H2]; [done|].
  destruct (Ascii.eqb_spec c "'") as [->|_]; [done|].
  destruct (Ascii.eqb_spec c ":") as [->|_]; [done|].
  cbn [escape_char orb].
  destruct (Ascii.eqb_spec ":" c) as [<-|_]; done.
Qed.

Lemma escape_head (s : string) (c : ascii) (r : string) :
  escapeFFmpegText s = String c r → special c = false.
Proof.
  destruct s as [|d s]; [done|]. rewrite escape_step.
  destruct (special d) eqn:Hd; intros [= <- _]; done.
Qed.

(** X12.  [escapeFFmpegText] leaves no single quote and no colon
    without a backslash right before it, changes nothing else (a text
    without these two characters comes back as it is), and loses
    nothing: two different texts are escaped to different texts. *)
Theorem escapeFFmpegText_escapes (s : string) :
  (∀ i c,
     String.get i (escapeFFmpegText s) = Some c → special c = true →
     ∃ j, i = S j ∧ String.get j (escapeFFmpegText s) = Some "\"%char)
  ∧ ((∀ i c, String.get i s = Some c → special c = false) →
     escapeFFmpegText s = s)
  ∧ (∀ s', escapeFFmpegText s = escapeFFmpegText s' → s = s').
Proof.
  split; [|split].
  - induction s as [|d s IH]; intros i c; [by destruct i|].
    rewrite escape_step. destruct (special d) eqn:Hd.
    + destruct i as [|[|i]]; simpl.
      * intros [= <-]. done.
      * intros [= <-] _. by exists 0%nat.
      * intros Hc Hs. destruct (IH i c Hc Hs) as (j & -> & Hj).
        by exists (S (S j)).
    + destruct i as [|i]; simpl.
      * intros [= <-]. congruence.
      * intros Hc Hs. destruct (IH i c Hc Hs) as (j & -> & Hj).
        by exists (S j).
  - induction s as [|d s IH]; intros Hs; [done|].
    rewrite escape_step, (Hs 0%nat d eq_refl). f_equal. apply IH.
    intros i c Hc. apply (Hs (S i) c Hc).
  - induction s as [|d s IH]; intros [|d' s']; try done.
    + rewrite escape_step. by destruct (special d').
    + rewrite escape_step. by destruct (special d).
    + rewrite !escape_step.
      destruct (special d) eqn:Hd, (special d') eqn:Hd'.
      * intros [= -> H]. f_equal. by apply IH.
      * intros [= <- H]. symmetry in H. apply escape_head in H. congruence.
      * intros [= -> H]. apply escape_head in H. congruence.
      * intros [= -> H]. f_equal. by apply IH.
Qed.

Section TextAndClips.

Context {std : GoStd} (env : Env).

(** X13.  A clip whose length cannot be measured is taken to be as
    long as the scene: it is trimmed to the scene's duration and never
    looped, and the outcome is the exit status of that one
    transcoding. *)
Theorem prepareVideoClip_unmeasured (clipPath : string) (scene : ScriptScene)
    (outputDir : string) (w : World) :
  clipPath ∈ files w →
  env_probe env (now w) clipPath = None →
  let outFile :=
    filepath_Join outputDir ("clip_" +:+ Sprintf_0d 3 (Index scene) +:+ ".mp4") in
  let res := prepareVideoClip env clipPath scene outputDir w in
  is_Ok res.1 = env_exit env (S (now w))
  ∧ (is_Ok res.1 = true → res.1 = Ok outFile ∧ outFile ∈ files res.2)
  ∧ last (events res.2)
    = Some (EvExec "ffmpeg"
              ["-y"; "-i"; clipPath; "-t"; Sprintf_f 3 (target_duration scene);
               "-vf"; scale_pad; "-c:v"; "libx264"; "-preset"; "fast";
               "-crf"; "23"; "-an"; outFile]).
Proof.
  intros Hin Hprobe outFile res. subst res.
  destruct (prepareVideoClip_run env clipPath scene outputDir w)
    as (w' & Hrun & Hev & Hout).
  rewrite (bool_decide_eq_true_2 _ Hin) in Hrun, Hev, Hout.
  rewrite Hprobe in Hev. simpl in Hrun, Hev, Hout. rewrite Hrun. simpl.
  split; [by destruct (env_exit env (S (now w)))|]. split.
  - destruct (env_exit env (S (now w))); [auto | done].
  - rewrite Hev. unfold clip_args.
    assert (Qle_bool (target_duration scene) (target_duration scene) = true)
      as -> by (apply Qle_bool_iff; apply Qle_refl).
    done.
Qed.



End TextAndClips.

End TextAndClips.
(** ** The Renderer *)

Module RendererProofs.

Import types config render ResolverSpec RunSpec RenderSpec TraceSpec
  AssemblerProofs Fetching AssemblerRun.

Lemma concat_loop (l : list ScriptScene) :
  ∀ acc,
    foldl (λ lines scene,
             if negb (String.eqb (VisualFile scene) "")
             then lines ++ ["file '" +:+ VisualFile scene +:+ "'"]
             else lines)
          acc l
    = acc ++ (concat_line <$> filter has_visual l).
Proof.
  induction l as [|s l IH]; intros acc; cbn [foldl].
  - rewrite filter_nil. simpl. by rewrite app_nil_r.
  - rewrite IH, filter_cons.
    destruct (decide (has_visual s)) as [Hs|Hs]; unfold has_visual in Hs;
      destruct (String.eqb_spec (VisualFile s) "") as [He|He]; try done.
    rewrite fmap_cons. cbn [negb]. by rewrite <- (assoc_L (++)).
Qed.

Lemma concat_lines_spec (script : Script) :
  concat_lines script = concat_line <$> filter has_visual (Scenes script).
Proof. apply (concat_loop _ []). Qed.




Section RendererProofs.

Context {std : GoStd} (env : Env).

#[local] Hint Resolve keeps_ret keeps_run_cmd keeps_WriteFile : keeps.

Lemma keeps_applyOneProofOverlay r video scene dir idx :
  keeps_files (applyOneProofOverlay env r video scene dir idx).
Proof. unfold applyOneProofOverlay. keeps. Qed.

Lemma applyOneProofOverlay_Ok r video scene dir idx (w w' : World) (f : string) :
  applyOneProofOverlay env r video scene dir idx w = (Ok f, w') →
  f = filepath_Join dir ("proof_overlay_" +:+ Sprintf_0d 2 idx +:+ ".mp4")
  ∧ f ∈ files w'.
Proof.
  unfold applyOneProofOverlay. rewrite bind_run.
  match goal with
  | |- context [visuals.run_cmd env ?n ?ar ?i ?o ?w0] =>
      destruct (visuals.run_cmd env n ar i o w0) as [[] w1]
  end; [|by rewrite ret_run].
  rewrite bind_run.
  match goal with
  | |- context [visuals.run_cmd env ?n ?ar ?i ?o ?w0] =>
      destruct (visuals.run_cmd env n ar i o w0) as [[] w2] eqn:Hrun
  end; rewrite ret_run; intros [= <- <-].
  split; [done|]. by apply run_cmd_true in Hrun.
Qed.

(** The loop over the proof scenes, from overlay number [i] on, with a
    current video that exists. *)
Lemma overlay_loop_video r dir (scenes : list ScriptScene) :
  ∀ i cur seen w,
    let v := (overlay_loop env r i scenes cur dir seen w).1.1 in
    let w' := (overlay_loop env r i scenes cur dir seen w).2 in
    files w ⊆ files w'
    ∧ (cur ∈ files w → v ∈ files w')
    ∧ (v = cur
       ∨ ∃ k, (k < length scenes)%nat
              ∧ v = filepath_Join dir
                      ("proof_overlay_" +:+ Sprintf_0d 2 (i + Z.of_nat k)
                       +:+ ".mp4")).
Proof.
  induction scenes as [|scene rest IH]; intros i cur seen w.
  - simpl. auto.
  - cbn [overlay_loop]. rewrite bind_run.
    pose proof (keeps_applyOneProofOverlay r cur scene dir i w) as Hk.
    destruct (applyOneProofOverlay env r cur scene dir i w) as [[f|e] w1] eqn:Ho;
      simpl in Hk.
    + destruct (applyOneProofOverlay_Ok _ _ _ _ _ _ _ _ Ho) as [Hf Hin].
      destruct (IH (i + 1) f (seen ++ [scene]) w1) as (Hsub & Hex & Hname).
      split; [by etrans|]. split; [auto|].
      right. destruct Hname as [->|(k & Hk' & ->)].
      * exists 0%nat. split; [simpl; lia|]. by rewrite Z.add_0_r.
      * exists (S k). split; [simpl; lia|]. do 4 f_equal. lia.
    + destruct (IH (i + 1) cur (seen ++ [scene]) w1) as (Hsub & Hex & Hname).
      split; [by etrans|]. split.
      * intros Hc. apply Hex. by eapply elem_of_weaken.
      * destruct Hname as [->|(k & Hk' & ->)]; [by left|].
        right. exists (S k). split; [simpl; lia|]. do 4 f_equal. lia.
Qed.

Lemma overlay_target_video r script video dir (w : World) :
  files w ⊆ files (applyProofOverlays env r script video dir w).2
  ∧ (video ∈ files w →
     (applyProofOverlays env r script video dir w).1.1
     ∈ files (applyProofOverlays env r script video dir w).2).
Proof.
  unfold applyProofOverlays.
  destruct (bool_decide _); [by rewrite ret_run|].
  pose proof (overlay_loop_video r dir (proofScenes script) 0 video [] w)
    as (Hsub & Hex & _). done.
Qed.

(** X15.  [applyProofOverlays] cannot fail and cannot lose the video.
    It returns the video it was given or the output of one of the
    overlays, no file is deleted, and if the video it was given exists
    so does the one it returns; a failed overlay is skipped.  Without a
    scene to overlay it returns the video at once and nothing happens. *)
Theorem applyProofOverlays_video (r : Renderer) (script : Script)
    (videoFile outputDir : string) (w : World) :
  let targets := filter overlay_target (Scenes script) in
  let v := (applyProofOverlays env r script videoFile outputDir w).1.1 in
  let w' := (applyProofOverlays env r script videoFile outputDir w).2 in
  files w ⊆ files w'
  ∧ (videoFile ∈ files w → v ∈ files w')
  ∧ (v = videoFile
     ∨ ∃ k, (k < length targets)%nat
            ∧ v = filepath_Join outputDir
                    ("proof_overlay_" +:+ Sprintf_0d 2 (Z.of_nat k) +:+ ".mp4"))
  ∧ (targets = [] → v = videoFile ∧ w' = w).
Proof.
  intros targets v w'. subst v w'. unfold applyProofOverlays.
  rewrite proofScenes_filter. fold targets.
  destruct (bool_decide (length targets = 0%nat)) eqn:Hlen.
  - rewrite ret_run. simpl. auto.
  - pose proof (overlay_loop_video r outputDir targets 0 videoFile [] w)
      as (Hsub & Hex & Hname).
    split; [done|]. split; [done|]. split; [done|].
    intros Hnil. rewrite Hnil in Hlen. done.
Qed.

Lemma keeps_concatenateVisuals r script dir :
  keeps_files (concatenateVisuals env r script dir).
Proof. unfold concatenateVisuals. keeps. Qed.




Lemma concatenateVisuals_empty r script dir (w : World) :
  (∀ s, s ∈ Scenes script → VisualFile s = "") →
  concatenateVisuals env r script dir w
  = (Err "no visual files found in script scenes", w).
Proof.
  intros Hall. unfold concatenateVisuals. rewrite concat_lines_spec.
  assert (filter has_visual (Scenes script) = []) as ->; [|done].
  apply ClipLibrary.filter_none. intros s Hs Hv. by apply Hv, Hall.
Qed.

Lemma concatenateVisuals_Ok r script dir (w w1 : World) (v : string) :
  concatenateVisuals env r script dir w = (Ok v, w1) →
  v = filepath_Join dir "visuals_raw.mp4"
  ∧ v ∈ files w1
  ∧ filepath_Join dir "visuals_concat.txt" ∈ files w1
  ∧ ∃ s, s ∈ Scenes script ∧ VisualFile s ≠ "".
Proof.
  unfold concatenateVisuals. rewrite concat_lines_spec.
  destruct (filter has_visual (Scenes script)) as [|s0 l] eqn:Hf; [done|].
  simpl. rewrite bind_run.
  destruct (WriteFile_run env (filepath_Join dir "visuals_concat.txt") w)
    as (w0 & -> & _ & Hfi).
  destruct (env_write env (now w)); [|by rewrite ret_run].
  rewrite bind_run.
  match goal with
  | |- context [visuals.run_cmd env ?n ?ar ?i ?o ?w0] =>
      pose proof (keeps_run_cmd env n ar i o w0) as Hk;
      destruct (visuals.run_cmd env n ar i o w0) as [[] w2] eqn:Hrun
  end; rewrite ret_run; intros [= <- <-]. simpl in Hk.
  split; [done|]. split; [by apply run_cmd_true in Hrun|].
  split.
  - eapply elem_of_weaken; [|exact Hk]. rewrite Hfi.
    apply elem_of_union_l. by apply elem_of_singleton.
  - exists s0.
    assert (Hin : s0 ∈ filter has_visual (Scenes script)) by (rewrite Hf; left).
    apply list_elem_of_filter in Hin as [Hv Hin]. done.
Qed.

(** X16.  The concat list names, in script order, one file for every
    scene with a visual file and none for the others.  If no scene has
    a visual file [concatenateVisuals] fails with [no visual files found
    in script scenes] before anything is written or started; if it
    succeeds, the list file and the concatenated video exist. *)
Theorem concatenateVisuals_list (r : Renderer) (script : Script)
    (outputDir : string) (w : World) :
  concat_lines script = concat_line <$> filter has_visual (Scenes script)
  ∧ ((∀ s, s ∈ Scenes script → VisualFile s = "") →
     concatenateVisuals env r script outputDir w
     = (Err "no visual files found in script scenes", w))
  ∧ (∀ v w1,
       concatenateVisuals env r script outputDir w = (Ok v, w1) →
       v = filepath_Join outputDir "visuals_raw.mp4"
       ∧ v ∈ files w1
       ∧ filepath_Join outputDir "visuals_concat.txt" ∈ files w1
       ∧ ∃ s, s ∈ Scenes script ∧ VisualFile s ≠ "").
Proof.
  split; [apply concat_lines_spec|]. split.
  - apply concatenateVisuals_empty.
  - intros v w1. apply concatenateVisuals_Ok.
Qed.

Lemma run_cmd_run name args inputs output (w : World) :
  ∃ w',
    visuals.run_cmd env name args inputs output w
    = (bool_decide (Forall (λ f, f ∈ files w) inputs) && env_exit env (now w), w')
    ∧ now w' = S (now w)
    ∧ files w ⊆ files w'.
Proof.
  unfold visuals.run_cmd. munfold. simpl.
  destruct (_ && _); simpl; eexists; (split; [done|]); split; try done.
  set_solver.
Qed.

Lemma mixAudio_run r script narration dir (w : World) :
  let mixed := (mixAudio env r script narration dir w).1.1 in
  let err := (mixAudio env r script narration dir w).1.2 in
  let w' := (mixAudio env r script narration dir w).2 in
  files w ⊆ files w'
  ∧ (err = None → mixed ∈ files w').
Proof.
  unfold mixAudio.
  destruct (sfx_loop script) as [[sfxInputs sfxFilters] idx].
  destruct (bool_decide _); rewrite bind_run;
    match goal with
    | |- context [visuals.run_cmd env ?n ?ar ?i ?o ?w0] =>
        pose proof (keeps_run_cmd env n ar i o w0) as Hk;
        destruct (visuals.run_cmd env n ar i o w0) as [[] w2] eqn:Hrun
    end; rewrite ret_run; simpl in *; (split; [done|]); try done;
    intros _; by apply run_cmd_true in Hrun.
Qed.

(** The renderer's [Run] after the visuals are concatenated: the world
    in which the final combine starts, and its two inputs. *)
Lemma Renderer_Run_tail r script audio dir (w w1 : World) (v : string) :
  concatenateVisuals env r script dir w = (Ok v, w1) →
  ∃ video audio' w3,
    Renderer_Run env r script audio dir w
    = (let (f, w4) := combineVideoAudio env r video audio' dir w3 in
       (match f with
        | Err e => Err ("combine video+audio: " +:+ e)
        | Ok finalVideo => Ok finalVideo
        end, w4))
    ∧ files w ⊆ files w3
    ∧ video ∈ files w3
    ∧ (audio ∈ files w → audio' ∈ files w3).
Proof.
  intros Hc. unfold Renderer_Run. rewrite bind_run, Hc, bind_run.
  pose proof (keeps_concatenateVisuals r script dir w) as Hk1.
  rewrite Hc in Hk1. simpl in Hk1.
  apply concatenateVisuals_Ok in Hc as (_ & Hv & _).
  pose proof (overlay_target_video r script v dir w1) as (Hk2 & Hex).
  destruct (applyProofOverlays env r script v dir w1) as [[pv seen] w2].
  simpl in Hk2, Hex. cbn [fst]. rewrite bind_run.
  pose proof (mixAudio_run r script audio dir w2) as (Hk3 & Hm).
  destruct (mixAudio env r script audio dir w2) as [[mixed err] w3].
  simpl in Hk3, Hm.
  exists pv, (match err with Some _ => audio | None => mixed end), w3.
  rewrite bind_run. split.
  { by destruct (combineVideoAudio _ _ _ _ _ _) as [[f|e] w4]. }
  split; [by do 2 (etrans; [eassumption|])|].
  split; [eapply elem_of_weaken; [by apply Hex | done]|].
  intros Ha. destruct err; [|by apply Hm].
  eapply elem_of_weaken; [exact Ha|]. by do 2 (etrans; [eassumption|]).
Qed.


Lemma combineVideoAudio_run r video audio dir (w : World) :
  ∃ w',
    combineVideoAudio env r video audio dir w
    = (if bool_decide (Forall (λ f, f ∈ files w) [video; audio])
          && env_exit env (now w)
       then Ok (filepath_Join dir "final_video.mp4")
       else Err "ffmpeg combine", w')
    ∧ now w' = S (now w)
    ∧ (bool_decide (Forall (λ f, f ∈ files w) [video; audio])
       && env_exit env (now w) = true →
       filepath_Join dir "final_video.mp4" ∈ files w').
Proof.
  unfold combineVideoAudio. rewrite bind_run.
  match goal with
  | |- context [visuals.run_cmd env ?n ?ar ?i ?o ?w0] =>
      destruct (run_cmd_run n ar i o w0) as (w' & Hrun & Hnow & _);
      pose proof (run_cmd_true env n ar i o w0 w') as Htrue
  end.
  rewrite Hrun in *. rewrite ret_run. exists w'.
  split; [done|]. split; [done|]. intros Hb. rewrite Hb in Htrue. auto.
Qed.

(** X17.  What the renderer's [Run] can return.  Success is the path
    of the final video, which then exists, and needs a scene with a
    visual file; an error is either the one of concatenating the
    visuals or the one of the final combine, never one of the overlays
    or of the sound mix.  A script without any visual file fails before
    anything is written or started. *)
Theorem Renderer_Run_outcomes (r : Renderer) (script : Script)
    (audioFile outputDir : string) (w : World) :
  match (Renderer_Run env r script audioFile outputDir w).1 with
  | Ok f =>
      f = filepath_Join outputDir "final_video.mp4"
      ∧ f ∈ files (Renderer_Run env r script audioFile outputDir w).2
      ∧ ∃ s, s ∈ Scenes script ∧ VisualFile s ≠ ""
  | Err e =>
      ∃ cause, e = "concatenate visuals: " +:+ cause
               ∨ e = "combine video+audio: " +:+ cause
  end
  ∧ ((∀ s, s ∈ Scenes script → VisualFile s = "") →
     Renderer_Run env r script audioFile outputDir w
     = (Err "concatenate visuals: no visual files found in script scenes", w)).
Proof.
  split.
  - destruct (concatenateVisuals env r script outputDir w) as [[v|e] w1] eqn:Hc.
    + destruct (Renderer_Run_tail r script audioFile outputDir w w1 v Hc)
        as (video & audio' & w3 & -> & _ & _ & _).
      apply concatenateVisuals_Ok in Hc as (_ & _ & _ & Hs).
      destruct (combineVideoAudio_run r video audio' outputDir w3)
        as (w4 & -> & _ & Hout).
      destruct (_ && _); simpl; [auto|]. eexists. by right.
    + unfold Renderer_Run. rewrite bind_run, Hc, ret_run. simpl.
      eexists. by left.
  - intros Hall. unfold Renderer_Run.
    by rewrite bind_run, (concatenateVisuals_empty _ _ _ _ Hall), ret_run.
Qed.

(** X18.  Once the visuals are concatenated and the narration exists,
    the render succeeds or fails with the exit status of its last
    command, the final combine, alone: a failed overlay or a failed
    sound mix cannot make it fail. *)
Theorem Renderer_Run_decided_by_combine (r : Renderer) (script : Script)
    (audioFile outputDir : string) (w w1 : World) (v : string) :
  concatenateVisuals env r script outputDir w = (Ok v, w1) →
  audioFile ∈ files w →
  is_Ok (Renderer_Run env r script audioFile outputDir w).1
  = env_exit env (pred (now (Renderer_Run env r script audioFile outputDir w).2)).
Proof.
  intros Hc Ha.
  destruct (Renderer_Run_tail r script audioFile outputDir w w1 v Hc)
    as (video & audio' & w3 & -> & _ & Hv & Haudio).
  specialize (Haudio Ha).
  destruct (combineVideoAudio_run r video audio' outputDir w3)
    as (w4 & -> & Hnow & _).
  simpl. rewrite Hnow. simpl.
  rewrite bool_decide_eq_true_2 by (repeat constructor; done).
  simpl. by destruct (env_exit env (now w3)).
Qed.

End RendererProofs.

End RendererProofs.
(** ** The timeline of a script *)

Module TimelineProofs.

Import types config ScriptTimeline.

Lemma recalc_loop (l : list ScriptScene) :
  ∀ acc e,
    foldl (λ '(scenes, elapsed) scene,
             let scene := set_TimestampStart elapsed scene in
             let elapsed := (elapsed + AudioDurationSec scene)%Q in
             (scenes ++ [set_TimestampEnd elapsed scene], elapsed))
          (acc, e) l
    = (acc ++ retimed e l, foldl Qplus e (AudioDurationSec <$> l)).
Proof.
  induction l as [|s l IH]; intros acc e; cbn [foldl retimed fmap list_fmap].
  - by rewrite app_nil_r.
  - rewrite IH, <- (assoc_L (++)). done.
Qed.

Lemma recalcTimestamps_unfold (script : Script) :
  audio.recalcTimestamps script
  = {| StoryID := StoryID script; ScriptTitle := ScriptTitle script;
       TotalSec := foldl Qplus 0%Q (AudioDurationSec <$> Scenes script);
       Scenes := retimed 0%Q (Scenes script) |}.
Proof. unfold audio.recalcTimestamps. by rewrite recalc_loop. Qed.

Lemma retimed_length (l : list ScriptScene) : ∀ e, length (retimed e l) = length l.
Proof. induction l as [|s l IH]; intros e; simpl; [done|]. by rewrite IH. Qed.

Lemma retimed_lookup (l : list ScriptScene) :
  ∀ e k s,
    l !! k = Some s →
    retimed e l !! k
    = Some (set_TimestampEnd
              (foldl Qplus e (AudioDurationSec <$> take (S k) l))
              (set_TimestampStart
                 (foldl Qplus e (AudioDurationSec <$> take k l)) s)).
Proof.
  induction l as [|s0 l IH]; intros e k s Hk; [done|].
  destruct k as [|k]; simpl in *.
  - injection Hk as ->. by destruct l.
  - by rewrite (IH _ k s Hk).
Qed.

Lemma elapsed_step (l : list ScriptScene) (k : nat) (s : ScriptScene) :
  l !! k = Some s →
  elapsed_before (S k) l = (elapsed_before k l + AudioDurationSec s)%Q.
Proof.
  intros Hk. unfold elapsed_before.
  rewrite (take_S_r l k s Hk), fmap_app, foldl_app. done.
Qed.

(** X19.  [recalcTimestamps] lays the scenes end to end.  Scene [k]
    starts at the sum of the audio durations before it (so the first
    one starts at 0) and ends at its start plus its own duration, which
    is where the next one starts; the total is the end of the last
    scene; nothing but the two timestamps of a scene and the total of
    the script is changed. *)
Theorem recalcTimestamps_timeline (script : Script) :
  let script' := audio.recalcTimestamps script in
  StoryID script' = StoryID script
  ∧ ScriptTitle script' = ScriptTitle script
  ∧ length (Scenes script') = length (Scenes script)
  ∧ TotalSec script' = elapsed_before (length (Scenes script)) (Scenes script)
  ∧ ∀ k s s',
      Scenes script !! k = Some s → Scenes script' !! k = Some s' →
      same_but_times s s'
      ∧ AudioDurationSec s' = AudioDurationSec s
      ∧ TimestampStart s' = elapsed_before k (Scenes script)
      ∧ TimestampEnd s' = elapsed_before (S k) (Scenes script)
      ∧ TimestampEnd s' = (TimestampStart s' + AudioDurationSec s')%Q.
Proof.
  intros script'. subst script'. rewrite recalcTimestamps_unfold. simpl.
  split; [done|]. split; [done|]. split; [apply retimed_length|].
  split. { unfold elapsed_before. by rewrite firstn_all. }
  intros k s s' Hs. rewrite (retimed_lookup _ _ k s Hs). intros [= <-].
  simpl. fold (elapsed_before (S k) (Scenes script)).
  fold (elapsed_before k (Scenes script)).
  split; [done|]. split; [done|]. split; [done|]. split; [done|].
  by apply elapsed_step.
Qed.

Section TimelineProofs.

Context {std : GoStd}.

Lemma convert_loop (l : list script.sceneJSON) :
  ∀ acc e i,
    foldl (λ '(scenes, elapsed, i) s,
             let '(scene, elapsed') := script.convert_scene i elapsed s in
             (scenes ++ [scene], elapsed', i + 1))
          (acc, e, i) l
    = (acc ++ converted i e l,
       foldl Qplus e (AudioDurationSec <$> converted i e l),
       i + Z.of_nat (length l)).
Proof.
  induction l as [|s l IH]; intros acc e i;
    cbn [foldl converted fmap list_fmap length].
  - by rewrite app_nil_r, Z.add_0_r.
  - destruct (script.convert_scene i e s) as [scene e'] eqn:Hc.
    rewrite IH, <- (assoc_L (++)). cbn [fst snd app].
    assert (He : e' = (e + AudioDurationSec scene)%Q).
    { unfold script.convert_scene in Hc. injection Hc as <- <-.
      by destruct (_ && _). }
    rewrite <- He. f_equal. lia.
Qed.

Lemma convertToScript_unfold (storyID : string) (raw : script.scriptJSON) :
  script.convertToScript storyID raw
  = {| StoryID := storyID; ScriptTitle := script.Title raw;
       TotalSec :=
         foldl Qplus 0%Q
           (AudioDurationSec <$> converted 0 0%Q (script.Scenes raw));
       Scenes := converted 0 0%Q (script.Scenes raw) |}.
Proof. unfold script.convertToScript. by rewrite convert_loop. Qed.

Lemma converted_length (l : list script.sceneJSON) :
  ∀ i e, length (converted i e l) = length l.
Proof. induction l as [|s l IH]; intros i e; simpl; [done|]. by rewrite IH. Qed.

Lemma converted_retimed (l : list script.sceneJSON) :
  ∀ i e, retimed e (converted i e l) = converted i e l.
Proof.
  induction l as [|s l IH]; intros i e; cbn [converted retimed]; [done|].
  assert (Hs : (script.convert_scene i e s).2
               = (e + AudioDurationSec (script.convert_scene i e s).1)%Q
               ∧ set_TimestampEnd
                   (e + AudioDurationSec (script.convert_scene i e s).1)
                   (set_TimestampStart e (script.convert_scene i e s).1)
                 = (script.convert_scene i e s).1).
  { unfold script.convert_scene. cbn [fst snd]. by destruct (_ && _). }
  destruct Hs as [He Hscene]. rewrite Hscene, <- He, IH. done.
Qed.

Lemma converted_lookup (l : list script.sceneJSON) :
  ∀ i e k rs,
    l !! k = Some rs →
    ∃ e', converted i e l !! k
          = Some (script.convert_scene (i + Z.of_nat k) e' rs).1.
Proof.
  induction l as [|s0 l IH]; intros i e k rs Hk; [done|].
  destruct k as [|k]; cbn [converted]; simpl in Hk.
  - injection Hk as ->. exists e. by rewrite Z.add_0_r.
  - destruct (IH (i + 1) (script.convert_scene i e s0).2 k rs Hk) as [e' He'].
    exists e'. change ((?x :: ?l) !! S k) with (l !! k).
    rewrite He'. do 3 f_equal. lia.
Qed.

(** X20.  The script that [convertToScript] builds.  Scene [k] has
    index [k], carries the raw scene's text fields and no file yet, and
    its audio duration is the estimate of 60/130 seconds per word of
    narration; a [proof] scene with a proof duration of zero is given
    4 seconds.  The timeline is already laid end to end: computing the
    timestamps again from the durations changes nothing. *)
Theorem convertToScript_timeline (storyID : string) (raw : script.scriptJSON) :
  let script := script.convertToScript storyID raw in
  StoryID script = storyID
  ∧ ScriptTitle script = script.Title raw
  ∧ length (Scenes script) = length (script.Scenes raw)
  ∧ audio.recalcTimestamps script = script
  ∧ ∀ k rs s,
      script.Scenes raw !! k = Some rs → Scenes script !! k = Some s →
      Index s = Z.of_nat k
      ∧ Narration s = script.Narration rs
      ∧ SceneType s = script.SceneType rs
      ∧ Mood s = script.Mood rs
      ∧ ImagePrompt s = script.ImagePrompt rs
      ∧ AssetTags s = script.AssetTags rs
      ∧ ProofImageURL s = script.ProofImageURL rs
      ∧ AudioDurationSec s
        = word_seconds (length (Fields (script.Narration rs)))
      ∧ ProofDurationSec s
        = (if String.eqb (script.SceneType rs) "proof"
              && Qeq_bool (script.ProofDurationSec rs) 0
           then 4%Q else script.ProofDurationSec rs)
      ∧ AudioFile s = "" ∧ VisualFile s = "" ∧ SFXFile s = "".
Proof.
  intros script0. subst script0. rewrite convertToScript_unfold. simpl.
  split; [done|]. split; [done|]. split; [apply converted_length|]. split.
  - rewrite recalcTimestamps_unfold. simpl. by rewrite converted_retimed.
  - intros k rs s Hrs Hs.
    destruct (converted_lookup _ 0 0%Q k rs Hrs) as [e' He'].
    rewrite He' in Hs. injection Hs as <-. rewrite Z.add_0_l.
    unfold script.convert_scene. cbn [fst].
    destruct (_ && _); simpl; auto 20.
Qed.

(** X21.  The hold of an evidence overlay for a fresh script.  For a
    [proof] scene of a script built by [convertToScript] the overlay
    holds for the raw proof duration when that is positive and for
    4 seconds when it is zero; the configured default hold is used for
    a negative duration only. *)
Theorem proof_hold_of_fresh_script (r : render.Renderer) (storyID : string)
    (raw : script.scriptJSON) (k : nat) (rs : script.sceneJSON)
    (s : ScriptScene) :
  script.Scenes raw !! k = Some rs →
  Scenes (script.convertToScript storyID raw) !! k = Some s →
  script.SceneType rs = "proof" →
  render.holdDuration r s
  = if Qeq_bool (script.ProofDurationSec rs) 0 then 4%Q
    else if Qle_bool (script.ProofDurationSec rs) 0
         then ProofHoldSecDefault (Visuals (render.cfg r))
         else script.ProofDurationSec rs.
Proof.
  intros Hrs Hs Hp. rewrite convertToScript_unfold in Hs. simpl in Hs.
  destruct (converted_lookup _ 0 0%Q k rs Hrs) as [e' He'].
  rewrite He' in Hs. injection Hs as <-.
  unfold render.holdDuration, script.convert_scene. cbn [fst].
  rewrite Hp. cbn [String.eqb Ascii.eqb Bool.eqb andb].
  destruct (Qeq_bool (script.ProofDurationSec rs) 0); simpl; done.
Qed.

End TimelineProofs.

End TimelineProofs.
(** ** The position of the evidence overlay *)

Module OverlayPosition.

Import types config render TimelineSpec Numbers OverlayProofs.

Open Scope Q_scope.

Section OverlayPosition.

Context (r : Renderer) (scene : ScriptScene).

(** X25.  Where the evidence picture is at time [t], for a start, a
    hold (not negative) and an animation duration (positive) in whole
    milliseconds.  Before
    [start + anim] it is on the line from the right edge (1920 at the
    start) to the centre (480); from then until the end of the window
    it is on the line that reaches the centre at [start + anim + hold]
    and the right edge at the end; afterwards it is at the right edge.
    So the picture is at the centre only at the instant the slide-out
    begins: all through the hold it is left of the centre, coming
    in from [480 - 1440 × hold / anim]. *)
Theorem overlay_position (t : Q) :
  let s := TimestampStart scene in
  let h := holdDuration r scene in
  let a := animDur r in
  millis s → millis h → millis a → 0 < a → 0 <= h →
  ∃ v,
    eval (xExpr r scene) t = Some v
    ∧ (t < s + a → v == 1920 - 1440 * ((t - s) / a))
    ∧ (s + a <= t → t < s + h + 2 * a →
       v == 480 + 1440 * ((t - (s + a + h)) / a))
    ∧ (s + h + 2 * a <= t → v == 1920)
    ∧ (s + a <= t → t < s + a + h → v < 480).
Proof.
  intros s h a Hs Hh Ha Hpos Hnn.
  destruct (overlay_numbers_print r scene Hs Hh Ha) as (Hsa & Hsos & Hsosa & He).
  unfold millis in Hs, Hh, Ha.
  assert (Hsosv : slideOutStart r scene == s + a + h) by reflexivity.
  assert (H3 : Qeq_bool (printed 3 a) 0 = false).
  { apply Qeq_bool_false. rewrite Ha. lra. }
  unfold xExpr, slideInExpr. cbn [eval mbind option_bind]. fold s a.
  destruct (Qlt_le_dec t (s + a)) as [Hin|Hin].
  - assert (H1 : Qle_bool (printed 3 (s + a)) t = false).
    { apply Qle_bool_false. unfold s, a. rewrite Hsa. fold s a. lra. }
    assert (H2 : Qle_bool (printed 3 a) (t - printed 3 s) = false).
    { apply Qle_bool_false. rewrite Hs, Ha. lra. }
    rewrite H1, H2, H3. cbn. eexists. split; [reflexivity|].
    split; [|split; [intros; lra|split; intros; lra]].
    intros _. rewrite centerX_printed, Hs, Ha. field. lra.
  - assert (H1 : Qle_bool (printed 3 (s + a)) t = true).
    { apply Qle_bool_iff. unfold s, a. rewrite Hsa. fold s a. lra. }
    destruct (Qlt_le_dec t (s + h + 2 * a)) as [Hout|Hout].
    + assert (H2 : Qle_bool (printed 3 (slideOutStart r scene + a)) t = false).
      { apply Qle_bool_false. unfold a. rewrite Hsosa, Hsosv. fold a. lra. }
      rewrite H1, H2, H3. cbn. eexists. split; [reflexivity|].
      assert (Hv : printed 0 (inject_Z centerX)
                   + (inject_Z 1920 - printed 0 (inject_Z centerX))
                     * ((t - printed 3 (slideOutStart r scene)) / printed 3 a)
                   == 480 + 1440 * ((t - (s + a + h)) / a)).
      { rewrite centerX_printed, Hsos, Hsosv, Ha. field. lra. }
      split; [intros; lra|]. split; [done|]. split; [intros; lra|].
      intros _ Hhold. rewrite Hv.
      assert ((t - (s + a + h)) / a < 0).
      { apply Qlt_shift_div_r; [done|]. lra. }
      lra.
    + assert (H2 : Qle_bool (printed 3 (slideOutStart r scene + a)) t = true).
      { apply Qle_bool_iff. unfold a. rewrite Hsosa, Hsosv. fold a. lra. }
      rewrite H1, H2. eexists. split; [reflexivity|].
      split; [intros; lra|]. split; [intros; lra|]. split; [done|].
      intros _ Hhold. lra.
Qed.

End OverlayPosition.

End OverlayPosition.
(** ** The further properties on concrete data *)

Module FurtherWitnesses.

Import types config visuals render Examples FurtherExamples ClipSpec
  LibrarySpec RunSpec ClipLibrary Loading Fetching AssemblerRun TextAndClips
  RendererProofs TimelineProofs OverlayPosition.

#[local] Existing Instance ascii_std.
#[local] Existing Instance ascii_json.

(** With four clips in the library the fifth selection fails. *)
Lemma pick_seq_prefix_witness :
  ∃ r, (pick_seq env_offline am_four five_picks).1 !! 4%nat = Some r
       ∧ is_Ok r = false.
Proof.
  eexists. split; [vm_compute; reflexivity|].
  eassert (H : (pick_seq env_offline am_four five_picks).1 !! 4%nat = Some _)
    by (vm_compute; reflexivity).
  rewrite (pick_seq_prefix env_offline five_picks am_four 4 _ H).
  vm_compute. reflexivity.
Defined.

Lemma NewAssembler_without_tags_witness :
  ∃ a, NewAssembler env_offline host_bare cfg0 "run1" world0 = (Ok a, world0)
       ∧ tags (assetManager a) = ∅.
Proof.
  destruct (NewAssembler_without_tags env_offline host_bare cfg0 "run1" world0
              eq_refl) as (a & H & _ & Ht & _).
  exists a. split; [exact H | exact Ht].
Defined.

(** Offline, a [dramatic] scene is resolved through the fallback frame,
    and its visual file exists afterwards. *)
Lemma Run_success_visuals_witness :
  ∃ s', Scenes (Run env_offline assembler0
                  {| StoryID := "s1"; ScriptTitle := "The house"; TotalSec := 5;
                     Scenes := [scene_dramatic] |} story0 "out" world0).1.1.2
          !! 0%nat = Some s'
        ∧ VisualFile s'
          ∈ files (Run env_offline assembler0
                     {| StoryID := "s1"; ScriptTitle := "The house";
                        TotalSec := 5; Scenes := [scene_dramatic] |}
                     story0 "out" world0).2.
Proof.
  eassert (H : Run env_offline assembler0
                 {| StoryID := "s1"; ScriptTitle := "The house"; TotalSec := 5;
                    Scenes := [scene_dramatic] |} story0 "out" world0
               = (Ok tt, _, _, _)) by (vm_compute; reflexivity).
  destruct (Run_success_visuals env_offline _ _ _ _ _ _ _ _ H) as [_ Hv].
  rewrite H. cbn [fst snd]. eexists. split; [reflexivity|].
  apply (Hv 0%nat scene_dramatic _ eq_refl eq_refl).
  right. left. reflexivity.
Defined.

(** When no subprocess succeeds, the first of two [dramatic] scenes
    fails and the second is left as it was. *)
Lemma Run_stops_at_first_failure_witness :
  ∃ n,
    (∀ k s s',
       (k < n)%nat →
       Scenes script_two !! k = Some s →
       Scenes (Run env_broken assembler0 script_two story0 "out" world0).1.1.2
         !! k = Some s' →
       known_type s →
       VisualFile s'
       ∈ files (Run env_broken assembler0 script_two story0 "out" world0).2)
    ∧ (∀ k, (n < k)%nat →
         Scenes (Run env_broken assembler0 script_two story0 "out" world0).1.1.2
           !! k
         = Scenes script_two !! k).
Proof.
  eassert (H : Run env_broken assembler0 script_two story0 "out" world0
               = (Err _, _, _, _)) by (vm_compute; reflexivity).
  rewrite H. cbn [fst snd].
  exact (Run_stops_at_first_failure env_broken _ _ _ _ _ _ _ _ _ H).
Defined.

Lemma prepareVideoClip_unmeasured_witness :
  (prepareVideoClip env_blind "clip.mp4" scene0 "out" world_clip).1
  = Ok "out/clip_000.mp4"
  ∧ last (events (prepareVideoClip env_blind "clip.mp4" scene0 "out" world_clip).2)
    = Some (EvExec "ffmpeg"
              ["-y"; "-i"; "clip.mp4"; "-t"; "5.000"; "-vf"; scale_pad;
               "-c:v"; "libx264"; "-preset"; "fast"; "-crf"; "23"; "-an";
               "out/clip_000.mp4"]).
Proof.
  destruct (prepareVideoClip_unmeasured env_blind "clip.mp4" scene0 "out"
              world_clip) as (Hok & Hres & Hev).
  - vm_compute. reflexivity.
  - reflexivity.
  - split; [|exact Hev]. apply Hres. rewrite Hok. reflexivity.
Defined.

(** The render of a script with one resolved scene: decided by the
    final combine. *)
Lemma Renderer_Run_decided_by_combine_witness :
  is_Ok (Renderer_Run env_offline renderer0 script_ready "audio_final.mp3"
           "out" world_audio).1
  = true.
Proof.
  eassert (H : concatenateVisuals env_offline renderer0 script_ready "out"
                 world_audio = (Ok _, _)) by (vm_compute; reflexivity).
  rewrite (Renderer_Run_decided_by_combine env_offline renderer0 script_ready
             "audio_final.mp3" "out" world_audio _ _ H).
  - reflexivity.
  - vm_compute. reflexivity.
Defined.

(** A [proof] scene without a proof duration holds for 4 seconds,
    though the configuration says 3. *)
Lemma proof_hold_of_fresh_script_witness :
  ∃ s, Scenes (script.convertToScript "s1" raw_proof) !! 0%nat = Some s
       ∧ holdDuration renderer0 s = 4%Q
       ∧ ProofHoldSecDefault (Visuals (cfg renderer0)) = 3%Q.
Proof.
  eexists. split; [vm_compute; reflexivity|]. split; [|reflexivity].
  eassert (Hs : Scenes (script.convertToScript "s1" raw_proof) !! 0%nat = Some _)
    by (vm_compute; reflexivity).
  rewrite (proof_hold_of_fresh_script renderer0 "s1" raw_proof 0 _ _
             eq_refl Hs eq_refl).
  reflexivity.
Defined.

(** An evidence image that is served is credited and becomes the
    scene's visual file. *)
Lemma resolve_proof_found_witness :
  (resolve_scene env_served assembler0 0 scene_evidence story0 "out" world0).1.1.1
  = Ok tt
  ∧ VisualFile
      (resolve_scene env_served assembler0 0 scene_evidence story0 "out"
         world0).1.1.2
    = "out/proof_credited_000.jpg".
Proof.
  eassert (H : FetchProofImage env_served (proofScraper assembler0)
                 scene_evidence story0 "out" world0 = (Ok _, _))
    by (vm_compute; reflexivity).
  destruct (resolve_proof_found env_served assembler0 0 scene_evidence story0
              "out" world0 _ _ eq_refl H) as (Hres & _ & _).
  rewrite Hres. split; [reflexivity|]. vm_compute. reflexivity.
Defined.

(** When no subprocess succeeds a [dramatic] scene fails in the still
    transform, and has no visual file. *)
Lemma resolve_scene_errors_witness :
  VisualFile
    (resolve_scene env_broken assembler0 0 scene_dramatic story0 "out"
       world0).1.1.2
  = "".
Proof.
  eassert (H : resolve_scene env_broken assembler0 0 scene_dramatic story0
                 "out" world0 = (Err _, _, _, _)) by (vm_compute; reflexivity).
  destruct (resolve_scene_errors env_broken _ _ _ _ _ _ _ _ _ _ H) as [Hv _].
  rewrite H. exact Hv.
Defined.


(** Two seconds into an overlay that slides in for 0.4 s and holds for
    3 s, the picture is left of the centre. *)
Lemma overlay_position_witness :
  ∃ v, eval (xExpr renderer0 scene0) 2 = Some v ∧ (v < 480)%Q.
Proof.
  destruct (overlay_position renderer0 scene0 2) as (v & Hv & _ & _ & _ & Hhold).
  - vm_compute. reflexivity.
  - vm_compute. reflexivity.
  - vm_compute. reflexivity.
  - reflexivity.
  - vm_compute. discriminate.
  - exists v. split; [exact Hv|]. apply Hhold.
    + vm_compute. discriminate.
    + reflexivity.
Defined.

End FurtherWitnesses.
